(** * Blurred clustering (larreco, [RecoAlg/BlurredClusteringAlg.cxx])

    A shallow embedding of the blurred-clustering algorithm and the
    properties of its image builder, kernel factory, convolver, region
    grower and cluster materialiser.

    Modelling conventions.
    - C++ [int] values are integers of [Z]; signed overflow is undefined in
      C++ and lies outside the model.  Where the code converts a possibly
      negative [int] to the unsigned size type (vector sizes, [.at] indices,
      [int % size_t]) the conversion is written out.
    - [double] and [float] values are rationals of [Q]: comparisons,
      subtraction and absolute value are exact, there is no NaN or infinity.
      The Gaussian density, which needs [exp] and [sqrt], is stated over the
      real numbers in module [Kernel].
    - [std::vector] is [list] with stdpp's lookup and insert, [std::map] is
      [gmap]; a checked access ([.at]) out of range throws, an unchecked
      access ([operator[]]) out of range is undefined behaviour: both are
      failures of the [result] type.  A failed allocation is outside the
      model.
    - Three conversions are not written out in the definitions: the [int]
      bounds of the extent loop compared with a [float] peak time (exact up
      to 2^24), the bin of [ConvertWireTickToBin], computed in the size type
      and returned as [int] (exact below 2^31), and the unsigned sums of
      [GlobalWire] returned as [int] (exact below 2^31).  A theorem that
      depends on one of them carries the bound under which it is exact.
    - A kernel weight over the real numbers is an [option]: [None] is the
      NaN that a sigma of 0 produces. *)

From Stdlib Require Import ZArith QArith Qabs Qround Reals Lia List Bool.
From stdpp Require Import base option list gmap.

Close Scope Q_scope.
Local Open Scope Z_scope.

(** ** Failures and the result monad *)

Inductive failure : Set :=
| out_of_range          (* std::out_of_range thrown by [.at] *)
| length_error          (* std::length_error thrown by a vector constructor *)
| configuration_error   (* art::Exception(art::errors::Configuration) *)
| undefined_behaviour   (* unchecked access out of range, division by zero *)
| out_of_fuel.          (* the model's loop budget is exhausted *)

Inductive result (A : Type) : Type :=
| Ok (a : A)
| Fail (f : failure).
Arguments Ok {A} a.
Arguments Fail {A} f.

#[global] Instance result_bind : MBind result :=
  λ A B k r, match r with
             | Ok a => k a
             | Fail f => Fail f
             end.

#[global] Instance result_ret : MRet result := λ A a, Ok a.

(** Left fold of a failing step over a list: the body of a [for] loop whose
    iteration space is known on entry. *)
Fixpoint foldM {A S : Type} (f : S → A → result S) (l : list A) (s : S) : result S :=
  match l with
  | [] => Ok s
  | a :: l' => s' ← f s a; foldM f l' s'
  end.

(** ** Numbers *)

(** [x < y] on doubles. *)
Definition Qltb (x y : Q) : bool := negb (Qle_bool y x).

(** Conversion of a floating value to [int]: truncation toward zero. *)
Definition Qtrunc (q : Q) : Z := Z.quot (Qnum q) (Zpos (Qden q)).

(** Conversion of an [int] to the 64-bit unsigned size type. *)
Definition to_size_t (i : Z) : Z := i mod 2 ^ 64.

(** Conversion of an unsigned value to the 32-bit [int]. *)
Definition to_int (u : Z) : Z := (u + 2 ^ 31) mod 2 ^ 32 - 2 ^ 31.

(** An upper bound on [max_size()] of any vector. *)
Definition max_size : Z := 2 ^ 63 - 1.

(** [std::vector<T>(n, v)] with [n] an [int]. *)
Definition vector_n {A : Type} (n : Z) (v : A) : result (list A) :=
  let s := to_size_t n in
  if max_size <? s then Fail length_error else Ok (replicate (Z.to_nat s) v).

(** [v.at(i)] with [i] an [int]. *)
Definition at_ {A : Type} (v : list A) (i : Z) : result A :=
  if i <? 0 then Fail out_of_range
  else match v !! Z.to_nat i with
       | Some a => Ok a
       | None => Fail out_of_range
       end.

(** [v[i]] with [i] an [int]. *)
Definition idx {A : Type} (v : list A) (i : Z) : result A :=
  if i <? 0 then Fail undefined_behaviour
  else match v !! Z.to_nat i with
       | Some a => Ok a
       | None => Fail undefined_behaviour
       end.

(** [v[i] = a] with [i] an [int]. *)
Definition set_idx {A : Type} (v : list A) (i : Z) (a : A) : result (list A) :=
  if i <? 0 then Fail undefined_behaviour
  else if (Z.to_nat i <? length v)%nat then Ok (<[Z.to_nat i := a]> v)
       else Fail undefined_behaviour.

(** [lo, lo+1, ..., hi]: the values of [for (int i = lo; i <= hi; i++)]. *)
Definition range_incl (lo hi : Z) : list Z :=
  map (λ k, lo + Z.of_nat k) (seq 0 (Z.to_nat (hi - lo + 1))).

(** [lo, ..., hi-1]: the values of [for (int i = lo; i < hi; ++i)]. *)
Definition range_excl (lo hi : Z) : list Z := range_incl lo (hi - 1).

(** ** Data model *)

Record WireID : Set := mkWireID {
  Cryostat : nat;
  TPC : nat;
  Plane : nat;
  Wire : nat
}.

(** A [recob::Hit] as seen through its [art::Ptr]: the key of the pointer
    and the fields the algorithm reads. *)
Record Hit : Set := mkHit {
  key : nat;
  HitWireID : WireID;
  PeakTime : Q;
  Integral : Q;
  RMS : Q
}.

(** [std::vector<std::vector<double>>], outer index wire, inner index tick. *)
Abbreviation Image := (list (list Q)).

(** [geo::SigType_t] *)
Inductive SigType : Set := kInduction | kCollection | kMysteryType.

(** What the algorithm asks of the detector-properties and geometry
    services. *)
Record Services : Type := mkServices {
  ReadOutWindowSize : Z;                            (* fDetProp->ReadOutWindowSize() *)
  MaxWires : Z;                                     (* fGeom->MaxWires() *)
  SignalType : WireID → SigType;                    (* fGeom->SignalType(wireID) *)
  WireCentre : WireID → Q * Q * Q;                  (* WireIDToWireGeo(wireID).GetCenter *)
  WireCoordinate : Q → Q → nat → nat → nat → Q;     (* (y, z, plane, tpc, cryostat) *)
  Nwires : nat → nat → nat → nat                    (* (plane, tpc, cryostat) *)
}.

(** [std::round]: to the nearest integer, halves away from zero. *)
Definition round (q : Q) : Z :=
  if Qle_bool 0 q then Qfloor (q + (1 # 2)) else Qceiling (q - (1 # 2)).

Definition GlobalWire (svc : Services) (wireID : WireID) : Z :=
  let '(_, y, z) := WireCentre svc wireID in
  let globalWire : Q :=
    match SignalType svc wireID with
    | kInduction =>
        if (TPC wireID mod 2 =? 0)%nat
        then WireCoordinate svc y z (Plane wireID) 0 (Cryostat wireID)
        else WireCoordinate svc y z (Plane wireID) 1 (Cryostat wireID)
    | _ =>
        let nwires := Nwires svc (Plane wireID) 0 (Cryostat wireID) in
        if (TPC wireID =? 0)%nat || (TPC wireID =? 1)%nat
        then inject_Z (Z.of_nat (Wire wireID))
        else if (TPC wireID =? 2)%nat || (TPC wireID =? 3)%nat
                || (TPC wireID =? 4)%nat || (TPC wireID =? 5)%nat
             then inject_Z (Z.of_nat (nwires + Wire wireID))
             else if (TPC wireID =? 6)%nat || (TPC wireID =? 7)%nat
                  then inject_Z (Z.of_nat (2 * nwires + Wire wireID))
                  else (-999 # 1)%Q
    end in
  round globalWire.

(** The parameters read by [reconfigure].  They are declared in the header
    of the class; [fNeighboursThreshold] and [fMinSize] are compared with
    unsigned values without the cast that [fMinNeighbours] gets, and are
    taken to be unsigned. *)
Record Config : Type := mkConfig {
  fBlurWire : Z;
  fBlurTick : Z;
  fSigmaWire : Q;
  fSigmaTick : Q;
  fTickWidthRescale : Q;
  fMaxTickWidthScale : Z;
  fKernels : list Z;
  fClusterWireDistance : Z;
  fClusterTickDistance : Z;
  fNeighboursThreshold : nat;
  fMinNeighbours : Z;
  fMinSize : nat;
  fMinSeed : Q;
  fTimeThreshold : Q;
  fChargeThreshold : Q
}.

(** The members written by [ConvertRecobHitsToVector]. *)
Record Members : Type := mkMembers {
  fLowerHistTick : Z;
  fUpperHistTick : Z;
  fLowerHistWire : Z;
  fUpperHistWire : Z;
  fHitMap : gmap Z (gmap Z Hit)
}.

(** [std::find(v.begin(), v.end(), k) != v.end()] *)
Definition contains (v : list Z) (k : Z) : bool := existsb (Z.eqb k) v.

Definition reconfigure (p : Config) : result Config :=
  if contains (fKernels p) 1 then Ok p else Fail configuration_error.

(** [fHitMap.find(wire) != end && fHitMap[wire].find(tick) != end] *)
Definition hitmap_find (m : gmap Z (gmap Z Hit)) (wire tick : Z) : option Hit :=
  match m !! wire with
  | Some row => row !! tick
  | None => None
  end.

(** [fHitMap[wire][tick] = hit] *)
Definition hitmap_set (m : gmap Z (gmap Z Hit)) (wire tick : Z) (h : Hit)
  : gmap Z (gmap Z Hit) :=
  <[wire := <[tick := h]> (default ∅ (m !! wire))]> m.

(** ** ImageBuilder: [ConvertRecobHitsToVector] *)

Section ImageBuilder.
Variable svc : Services.

(** First loop: the extent of the hits (lowerTick, upperTick, lowerWire,
    upperWire). *)
Definition extent_step (b : Z * Z * Z * Z) (h : Hit) : Z * Z * Z * Z :=
  let '(lowerTick, upperTick, lowerWire, upperWire) := b in
  let histWire := GlobalWire svc (HitWireID h) in
  let lowerTick :=
    if Qltb (PeakTime h) (inject_Z lowerTick) then Qtrunc (PeakTime h) else lowerTick in
  let upperTick :=
    if Qltb (inject_Z upperTick) (PeakTime h) then Qtrunc (PeakTime h) else upperTick in
  let lowerWire := if histWire <? lowerWire then histWire else lowerWire in
  let upperWire := if upperWire <? histWire then histWire else upperWire in
  (lowerTick, upperTick, lowerWire, upperWire).

Definition extent (hits : list Hit) : Z * Z * Z * Z :=
  fold_left extent_step hits (ReadOutWindowSize svc, 0, MaxWires svc, 0).

Definition at2 (image : Image) (x y : Z) : result Q :=
  col ← at_ image x; at_ col y.

(** [image.at(x).at(y) = v] *)
Definition set_at2 (image : Image) (x y : Z) (v : Q) : result Image :=
  col ← at_ image x;
  _ ← at_ col y;
  Ok (<[Z.to_nat x := <[Z.to_nat y := v]> col]> image).

(** Second loop: one hit. *)
Definition fill_step (lowW lowT : Z) (s : Image * Image * gmap Z (gmap Z Hit)) (h : Hit)
  : result (Image * Image * gmap Z (gmap Z Hit)) :=
  let '(image_local, widths_local, hitmap) := s in
  let wire := GlobalWire svc (HitWireID h) in
  let tick := Qtrunc (PeakTime h) in
  let charge := Integral h in
  let width := RMS h in
  stored ← at2 image_local (wire - lowW) (tick - lowT);
  if Qltb stored charge then
    image_local ← set_at2 image_local (wire - lowW) (tick - lowT) charge;
    widths_local ← set_at2 widths_local (wire - lowW) (tick - lowT) width;
    Ok (image_local, widths_local, hitmap_set hitmap wire tick h)
  else Ok s.

(** The function returns the two images through its reference arguments
    and leaves the bounds and the hit map in the members. *)
Definition ConvertRecobHitsToVector (hits : list Hit) : result (Image * Image * Members) :=
  let '(lowerTick, upperTick, lowerWire, upperWire) := extent hits in
  let lowT := lowerTick - 20 in
  let upT := upperTick + 20 in
  let lowW := lowerWire - 20 in
  let upW := upperWire + 20 in
  column ← vector_n (upT - lowT) 0%Q;
  image_local ← vector_n (upW - lowW) column;
  '(image, widths, hitmap) ← foldM (fill_step lowW lowT) hits (image_local, image_local, ∅);
  Ok (image, widths, mkMembers lowT upT lowW upW hitmap).
End ImageBuilder.

(** ** Bins *)

Definition ConvertWireTickToBin (image : Image) (xbin ybin : Z) : Z :=
  ybin * Z.of_nat (length image) + xbin.

(** [int x = bin % image.size()] and [int y = bin / image.size()]: the
    [int] is converted to the size type and the results back to [int]; a
    zero size is a division by zero. *)
Definition bin_xy (image : Image) (bin : Z) : result (Z * Z) :=
  let n := Z.of_nat (length image) in
  if n =? 0 then Fail undefined_behaviour
  else Ok (to_int (to_size_t bin mod n), to_int (to_size_t bin / n)).

Definition ConvertBinToCharge (image : Image) (bin : Z) : result Q :=
  '(x, y) ← bin_xy image bin; at2 image x y.

(** ** ClusterMaterializer *)

Section Materializer.
Variable cfg : Config.
Variable m : Members.

(** The null [art::Ptr] is [None]. *)
Definition ConvertBinToRecobHit (image : Image) (bin : Z) : result (option Hit) :=
  '(xbin, ybin) ← bin_xy image bin;
  let wire := xbin + fLowerHistWire m - 1 in
  let tick := ybin + fLowerHistTick m - 1 in
  Ok (hitmap_find (fHitMap m) wire tick).

Definition ConvertBinsToRecobHits (image : Image) (bins : list Z) : result (list Hit) :=
  foldM (λ hits bin,
           hit ← ConvertBinToRecobHit image bin;
           match hit with
           | Some h => Ok (hits ++ [h])
           | None => Ok hits
           end) bins [].

Definition ConvertBinsToClusters (image : Image) (allClusterBins : list (list Z))
    (clusters : list (list Hit)) : result (list (list Hit)) :=
  foldM (λ clusters bins,
           clusHits ← ConvertBinsToRecobHits image bins;
           if (length clusHits <? fMinSize cfg)%nat then Ok clusters
           else Ok (clusters ++ [clusHits])) allClusterBins clusters.

Definition GetTimeOfBin (image : Image) (bin : Z) : result Q :=
  hit ← ConvertBinToRecobHit image bin;
  match hit with
  | Some h => Ok (PeakTime h)
  | None => Ok (-10000 # 1)%Q
  end.
End Materializer.

(** ** BlurParameterEstimator: [FindBlurringParameters] *)

(** The (wire, tick) points of the hit map that the nested loops visit; the
    sums below do not depend on the order of the visits. *)
Definition hit_points (hitmap : gmap Z (gmap Z Hit)) : list (Z * Z) :=
  flat_map (λ wireIt, map (λ tickIt, (fst wireIt, fst tickIt)) (map_to_list (snd wireIt)))
           (map_to_list hitmap).

(** The running sums (nhits, sumx, sumy, sumx2, sumxy). *)
Definition sums_step (a : Q * Q * Q * Q * Q) (p : Z * Z) : Q * Q * Q * Q * Q :=
  let '(nhits, sumx, sumy, sumx2, sumxy) := a in
  let '(x, y) := p in
  (nhits + 1, sumx + inject_Z x, sumy + inject_Z y,
   sumx2 + inject_Z (x * x), sumxy + inject_Z (x * y))%Q.

Definition sums (pts : list (Z * Z)) : Q * Q * Q * Q * Q :=
  fold_left sums_step pts (0, 0, 0, 0, 0)%Q.

(** The denominator of the least-squares gradient. *)
Definition gradient_denominator (pts : list (Z * Z)) : Q :=
  let '(nhits, sumx, _, sumx2, _) := sums pts in (nhits * sumx2 - sumx * sumx)%Q.

(** [(nhits * sumxy - sumx * sumy) / (nhits * sumx2 - sumx * sumx)]: the
    code divides without a test; a zero divisor is undefined. *)
Definition gradient (pts : list (Z * Z)) : result Q :=
  let '(nhits, sumx, sumy, sumx2, sumxy) := sums pts in
  let den := (nhits * sumx2 - sumx * sumx)%Q in
  if Qeq_bool den 0 then Fail undefined_behaviour
  else Ok ((nhits * sumxy - sumx * sumy) / den)%Q.

Section BlurParameters.
Variable cfg : Config.
(** [TVector2(1, gradient).Unit()]: the normalisation needs a square root
    and is taken from the mathematics library. *)
Variable Unit : Q → Q * Q.

(** [std::max(std::abs(std::round(v)), 1.)] stored in an [int]. *)
Definition radius (v : Q) : Z := Z.max (Z.abs (round v)) 1.

(** The outputs (blurwire, blurtick, sigmawire, sigmatick). *)
Definition FindBlurringParameters (m : Members) : result (Z * Z * Z * Z) :=
  g ← gradient (hit_points (fHitMap m));
  let '(ux, uy) := Unit g in
  Ok (radius (inject_Z (fBlurWire cfg) * ux),
      radius (inject_Z (fBlurTick cfg) * uy),
      radius (fSigmaWire cfg * ux),
      radius (fSigmaTick cfg * uy)).
End BlurParameters.

(** ** KernelFactory: the kernel loop of [GaussianBlur] *)

(** [xs] outer, [ys] inner: the iteration space of two nested loops. *)
Definition grid (xs ys : list Z) : list (Z * Z) :=
  flat_map (λ x, map (pair x) ys) xs.

(** [kernel.at(k) = v] *)
Definition set_at {A : Type} (v : list A) (i : Z) (a : A) : result (list A) :=
  _ ← at_ v i; Ok (<[Z.to_nat i := a]> v).

Section KernelFactory.
(** The weights are doubles in the code; the construction is the same for
    any type of weights. *)
Context {W : Type}.
Variable zero : W.
(** [value sigmawire sigmatick_scaled i j]: the weight at offset (i, j). *)
Variable value : Z → Z → Z → Z → W.

Definition kernel_key (kernel_width blurwire blurtick kernel_scale i j : Z) : Z :=
  kernel_width * (j + blurtick * kernel_scale) + (i + blurwire).

Definition make_kernel (kernel_width kernel_height blurwire blurtick kernel_scale
                        sigmawire sigmatick_scaled : Z) : result (list W) :=
  kernel ← vector_n (kernel_width * kernel_height) zero;
  foldM (λ kernel ij,
           let '(i, j) := ij in
           set_at kernel (kernel_key kernel_width blurwire blurtick kernel_scale i j)
                  (value sigmawire sigmatick_scaled i j))
        (grid (range_incl (- blurwire) blurwire)
              (range_incl (- blurtick * kernel_scale) (blurtick * kernel_scale)))
        kernel.

(** [allKernels], one kernel per entry of [fKernels]. *)
Definition make_kernels (tiers : list Z)
    (kernel_width kernel_height blurwire blurtick kernel_scale sigmawire sigmatick : Z)
  : result (gmap Z (list W)) :=
  foldM (λ allKernels tier,
           kernel ← make_kernel kernel_width kernel_height blurwire blurtick kernel_scale
                                sigmawire (sigmatick * tier);
           Ok (<[tier := kernel]> allKernels))
        tiers ∅.
End KernelFactory.

(** The sizes computed at the head of [GaussianBlur]:
    (kernel_scale, width, height, kernel_width, kernel_height). *)
Definition kernel_dims (cfg : Config) (blurwire blurtick : Z) : Z * Z * Z * Z * Z :=
  let kernel_scale := fMaxTickWidthScale cfg + 1 in
  let width := 2 * blurwire + 1 in
  let height := 2 * blurtick + 1 in
  let kernel_width := width in
  let kernel_height := 2 * blurtick * kernel_scale + 1 in
  (kernel_scale, width, height, kernel_width, kernel_height).

(** ** Convolver: [Convolve] *)

Section Convolver.
Variable cfg : Config.

(** [TMath::Max(TMath::Min(tick_scale, fMaxTickWidthScale), 1)] *)
Definition clamp_tick_scale (tick_scale : Z) : Z :=
  Z.max (Z.min tick_scale (fMaxTickWidthScale cfg)) 1.

(** [int tick_scale = widths[x][y] / fTickWidthRescale] *)
Definition raw_tick_scale (width : Q) : result Z :=
  if Qeq_bool (fTickWidthRescale cfg) 0 then Fail undefined_behaviour
  else Ok (Qtrunc (width / fTickWidthRescale cfg)).

(** The search [for (kernelIndex = tick_scale; correct_kernel.empty();
    --kernelIndex)]: one unit of fuel per iteration. *)
Fixpoint find_kernel (fuel : nat) (kernels : gmap Z (list Q)) (kernelIndex : Z)
  : result (list Q) :=
  match fuel with
  | O => Fail out_of_fuel
  | S fuel' =>
      if contains (fKernels cfg) kernelIndex then
        match kernels !! kernelIndex with
        | None => Fail out_of_range
        | Some [] => find_kernel fuel' kernels (kernelIndex - 1)
        | Some correct_kernel => Ok correct_kernel
        end
      else find_kernel fuel' kernels (kernelIndex - 1)
  end.

(** The index into the flat kernel for the offset (blurx, blury). *)
Definition weight_index (kernel_width kernel_height blurx blury : Z) : Z :=
  kernel_width * (Z.quot kernel_height 2 + blury) + (Z.quot kernel_width 2 + blurx).

(** The offsets visited around one source cell. *)
Definition blur_window (width height tick_scale : Z) : list (Z * Z) :=
  let lowerWidth := Z.quot (- width) 2 in
  let upperWidth := Z.quot (width + 1) 2 in
  let lowerHeight := Z.quot (- height) 2 in
  let upperHeight := Z.quot (height + 1) 2 in
  grid (range_excl lowerWidth upperWidth)
       (range_excl (lowerHeight * tick_scale) (upperHeight * tick_scale)).

Definition idx2 (image : Image) (x y : Z) : result Q :=
  col ← idx image x; idx col y.

(** [copy[x][y] += v] *)
Definition add_idx2 (copy : Image) (x y : Z) (v : Q) : result Image :=
  col ← idx copy x;
  old ← idx col y;
  Ok (<[Z.to_nat x := <[Z.to_nat y := (old + v)%Q]> col]> copy).

Definition smear (correct_kernel : list Q) (kernel_width kernel_height nbinsx nbinsy : Z)
    (x y : Z) (charge : Q) (copy : Image) (b : Z * Z) : result Image :=
  let '(blurx, blury) := b in
  weight ← at_ correct_kernel (weight_index kernel_width kernel_height blurx blury);
  if (0 <=? x + blurx) && (x + blurx <? nbinsx) && (0 <=? y + blury) && (y + blury <? nbinsy)
  then add_idx2 copy (x + blurx) (y + blury) (weight * charge)%Q
  else Ok copy.

Definition convolve_cell (fuel : nat) (image widths : Image) (kernels : gmap Z (list Q))
    (kernel_width kernel_height width height nbinsx nbinsy : Z)
    (copy : Image) (xy : Z * Z) : result Image :=
  let '(x, y) := xy in
  charge ← idx2 image x y;
  if Qeq_bool charge 0 then Ok copy
  else
    w ← idx2 widths x y;
    tick_scale ← raw_tick_scale w;
    let tick_scale := clamp_tick_scale tick_scale in
    correct_kernel ← find_kernel fuel kernels tick_scale;
    foldM (smear correct_kernel kernel_width kernel_height nbinsx nbinsy x y charge)
          (blur_window width height tick_scale) copy.

Definition Convolve (fuel : nat) (image widths : Image) (kernels : gmap Z (list Q))
    (kernel_width kernel_height width height : Z) : result Image :=
  let nbinsx := Z.of_nat (length image) in
  col0 ← at_ image 0;
  let nbinsy := Z.of_nat (length col0) in
  column ← vector_n nbinsy 0%Q;
  copy ← vector_n nbinsx column;
  foldM (convolve_cell fuel image widths kernels kernel_width kernel_height width height
                       nbinsx nbinsy)
        (grid (range_excl 0 nbinsx) (range_excl 0 nbinsy)) copy.

(** [density sigma k]: the double [1/sqrt(2 sigma^2 pi) * exp(-k^2 / 2 sigma^2)],
    taken from the mathematics library. *)
Variable density : Z → Z → Q.
Variable Unit : Q → Q * Q.

Definition GaussianBlur (fuel : nat) (m : Members) (image widths : Image) : result Image :=
  if Qeq_bool (fSigmaWire cfg) 0 && Qeq_bool (fSigmaTick cfg) 0 then Ok image
  else
    '(blurwire, blurtick, sigmawire, sigmatick) ← FindBlurringParameters cfg Unit m;
    let '(kernel_scale, width, height, kernel_width, kernel_height) :=
      kernel_dims cfg blurwire blurtick in
    allKernels ← make_kernels 0%Q (λ sw st i j, (density sw i * density st j)%Q)
                   (fKernels cfg) kernel_width kernel_height blurwire blurtick kernel_scale
                   sigmawire sigmatick;
    Convolve fuel image widths allKernels kernel_width kernel_height width height.
End Convolver.

(** ** RegionGrower: [FindClusters] *)

(** [std::pair] comparison of (charge, bin). *)
Definition pair_ltb (a b : Q * Z) : bool :=
  Qltb (fst a) (fst b) || (negb (Qltb (fst b) (fst a)) && (snd a <? snd b)).

(** [std::sort(values.rbegin(), values.rend())]: descending order. *)
Fixpoint insert_desc (a : Q * Z) (l : list (Q * Z)) : list (Q * Z) :=
  match l with
  | [] => [a]
  | b :: l' => if pair_ltb a b then b :: insert_desc a l' else a :: l
  end.

Definition sort_desc (l : list (Q * Z)) : list (Q * Z) :=
  foldr insert_desc [] l.

(** The state of one cluster-formation attempt. *)
Record Grow : Type := mkGrow {
  used : list bool;
  cluster : list Z;
  times : list Q
}.

(** [if (time > 0) times.push_back(time)] *)
Definition push_time (times : list Q) (time : Q) : list Q :=
  if Qltb 0 time then times ++ [time] else times.

(** [used[bin] = true; cluster.push_back(bin); if (time > 0) ...] *)
Definition add_bin (st : Grow) (bin : Z) (time : Q) : result Grow :=
  used' ← set_idx (used st) bin true;
  Ok (mkGrow used' (cluster st ++ [bin]) (push_time (times st) time)).

(** [for (i = 0; i < cluster.size(); i++) used[cluster[i]] = false] *)
Definition unmark_all (used : list bool) (cluster : list Z) : result (list bool) :=
  foldM (λ used bin, set_idx used bin false) cluster used.

Definition NumNeighbours (nbinsx : Z) (used : list bool) (bin : Z) : result nat :=
  foldM (λ neighbours xy,
           let '(x, y) := xy in
           if (x =? 0) && (y =? 0) then Ok neighbours
           else
             let neighbouringBin := bin + x + y * nbinsx in
             u ← at_ used neighbouringBin;
             Ok (if u : bool then S neighbours else neighbours))
        (grid (range_incl (-1) 1) (range_incl (-1) 1)) O.

(** The test that keeps the hole filling and the pruning off the border. *)
Definition on_border (nbinsx nbinsy bin : Z) : bool :=
  (bin <? nbinsx) || (Z.rem bin nbinsx =? 0) || (Z.rem bin nbinsx =? nbinsx - 1)
  || (nbinsx * (nbinsy - 1) <=? bin).

Section RegionGrower.
Variable cfg : Config.

Definition PassesTimeCut (times : list Q) (time : Q) : bool :=
  existsb (λ timeIt, Qltb (Qabs (time - timeIt)) (fTimeThreshold cfg)) times.

(** Growing: [time > 0 && times.size() > 0 && !PassesTimeCut(times, time)]
    rejects the candidate. *)
Definition fails_growing_time_cut (times : list Q) (time : Q) : bool :=
  Qltb 0 time && (0 <? length times)%nat && negb (PassesTimeCut times time).

(** Hole filling: [!used[bin] && NumNeighbours(...) > fNeighboursThreshold
    && PassesTimeCut(times, time)] takes the neighbour. *)
Definition fills_hole (nbinsx : Z) (used : list bool) (times : list Q)
    (neighbouringBin : Z) (time : Q) : result bool :=
  u ← idx used neighbouringBin;
  if u : bool then Ok false
  else
    n ← NumNeighbours nbinsx used neighbouringBin;
    Ok ((fNeighboursThreshold cfg <? n)%nat && PassesTimeCut times time).

Variable m : Members.
Variable blurred : Image.
Variables nbinsx nbinsy : Z.

(** Growing: one candidate (x, y) around the cluster bin (binx, biny). *)
Definition grow_candidate (binx biny : Z) (acc : Grow * nat) (xy : Z * Z)
  : result (Grow * nat) :=
  let '(st, nadded) := acc in
  let '(x, y) := xy in
  if ((x =? binx) && (y =? biny)) || ((nbinsx <=? x) || (nbinsy <=? y))
     || ((x <? 0) || (y <? 0))
  then Ok acc
  else
    let bin := ConvertWireTickToBin blurred x y in
    if (nbinsx * nbinsy <=? bin) || (bin <? 0) then Ok acc
    else
      u ← idx (used st) bin;
      if u : bool then Ok acc
      else
        blurred_binval ← ConvertBinToCharge blurred bin;
        time ← GetTimeOfBin m blurred bin;
        if fails_growing_time_cut (times st) time then Ok acc
        else if Qltb (fChargeThreshold cfg) blurred_binval then
               st' ← add_bin st bin time; Ok (st', S nadded)
             else Ok acc.

(** Growing: the neighbourhood of one cluster bin. *)
Definition grow_bin (acc : Grow * nat) (bin : Z) : result (Grow * nat) :=
  let binx := Z.rem bin nbinsx in
  let biny := Z.rem (Z.quot (bin - binx) nbinsx) nbinsy in
  foldM (grow_candidate binx biny)
        (grid (range_incl (binx - fClusterWireDistance cfg) (binx + fClusterWireDistance cfg))
              (range_incl (biny - fClusterTickDistance cfg) (biny + fClusterTickDistance cfg)))
        acc.

(** Growing: [for (clusBin = 0; clusBin < cluster.size(); ++clusBin)] over
    the cluster as it grows. *)
Fixpoint grow_scan (fuel : nat) (clusBin : nat) (acc : Grow * nat) : result (Grow * nat) :=
  match fuel with
  | O => Fail out_of_fuel
  | S fuel' =>
      match cluster (fst acc) !! clusBin with
      | None => Ok acc
      | Some bin => acc' ← grow_bin acc bin; grow_scan fuel' (S clusBin) acc'
      end
  end.

(** Growing: scans are repeated until one adds nothing. *)
Fixpoint grow_loop (fuel : nat) (scan_fuel : nat) (st : Grow) : result Grow :=
  match fuel with
  | O => Fail out_of_fuel
  | S fuel' =>
      '(st', nadded) ← grow_scan scan_fuel 0 (st, O);
      match nadded with
      | O => Ok st'
      | S _ => grow_loop fuel' scan_fuel st'
      end
  end.

(** Hole filling: one neighbour offset (x, y) of the cluster bin [bin]. *)
Definition hole_candidate (bin : Z) (st : Grow) (xy : Z * Z) : result Grow :=
  let '(x, y) := xy in
  if (x =? 0) && (y =? 0) then Ok st
  else
    let neighbouringBin := bin + x + y * nbinsx in
    if on_border nbinsx nbinsy neighbouringBin then Ok st
    else
      time ← GetTimeOfBin m blurred neighbouringBin;
      filled ← fills_hole nbinsx (used st) (times st) neighbouringBin time;
      if filled : bool then add_bin st neighbouringBin time else Ok st.

Definition hole_bin (st : Grow) (bin : Z) : result Grow :=
  foldM (hole_candidate bin) (grid (range_incl (-1) 1) (range_incl (-1) 1)) st.

Fixpoint hole_scan (fuel : nat) (clusBin : nat) (st : Grow) : result Grow :=
  match fuel with
  | O => Fail out_of_fuel
  | S fuel' =>
      match cluster st !! clusBin with
      | None => Ok st
      | Some bin => st' ← hole_bin st bin; hole_scan fuel' (S clusBin) st'
      end
  end.

(** Pruning: [for (clusBin = cluster.size() - 1; clusBin >= 0; clusBin--)];
    [k] is [clusBin + 1]. *)
Fixpoint prune_scan (k : nat) (acc : Grow * nat) : result (Grow * nat) :=
  match k with
  | O => Ok acc
  | S clusBin =>
      let '(st, nremoved) := acc in
      bin ← idx (cluster st) (Z.of_nat clusBin);
      if on_border nbinsx nbinsy bin then prune_scan clusBin acc
      else
        n ← NumNeighbours nbinsx (used st) bin;
        if Z.of_nat n <? fMinNeighbours cfg then
          used' ← set_idx (used st) bin false;
          _ ← ConvertBinToCharge blurred bin;
          prune_scan clusBin (mkGrow used' (delete clusBin (cluster st)) (times st), S nremoved)
        else prune_scan clusBin acc
  end.

Fixpoint prune_loop (fuel : nat) (st : Grow) : result Grow :=
  match fuel with
  | O => Fail out_of_fuel
  | S fuel' =>
      '(st', nremoved) ← prune_scan (length (cluster st)) (st, O);
      match nremoved with
      | O => Ok st'
      | S _ => prune_loop fuel' st'
      end
  end.

(** Seeding and growing of one cluster from the seed [bin]. *)
Definition seed_and_grow (fuel : nat) (used : list bool) (bin : Z) : result Grow :=
  used' ← set_idx used bin true;
  time ← GetTimeOfBin m blurred bin;
  grow_loop fuel fuel (mkGrow used' [bin] (push_time [] time)).

(** The clustering loop.  [values] is what remains of the sorted values from
    index [niter] on; the loop has no test for the end of the vector, and the
    read of [values[niter]] past it is undefined. *)
Fixpoint cluster_loop (fuel : nat) (values : list (Q * Z)) (used0 : list bool)
    (allcluster : list (list Z)) : result (list (list Z) * list bool) :=
  match values with
  | [] => Fail undefined_behaviour
  | (blurred_binval, bin) :: values' =>
      if Qltb blurred_binval (fMinSeed cfg) then Ok (allcluster, used0)
      else
        u ← idx used0 bin;
        if u : bool then cluster_loop fuel values' used0 allcluster
        else
          st ← seed_and_grow fuel used0 bin;
          if (length (cluster st) <? fMinSize cfg)%nat then
            used' ← unmark_all (used st) (cluster st);
            cluster_loop fuel values' used' allcluster
          else
            st ← hole_scan fuel 0 st;
            st ← prune_loop fuel st;
            if (length (cluster st) <? fMinSize cfg)%nat then
              used' ← unmark_all (used st) (cluster st);
              cluster_loop fuel values' used' allcluster
            else cluster_loop fuel values' (used st) (allcluster ++ [cluster st])
  end.
End RegionGrower.

(** The (charge, bin) pairs of the image, wire index outermost. *)
Definition bin_values (blurred : Image) (nbinsx nbinsy : Z) : result (list (Q * Z)) :=
  foldM (λ values xy,
           let '(xbin, ybin) := xy in
           let bin := ConvertWireTickToBin blurred xbin ybin in
           charge ← ConvertBinToCharge blurred bin;
           Ok (values ++ [(charge, bin)]))
        (grid (range_excl 0 nbinsx) (range_excl 0 nbinsy)) [].

(** [FindClusters], returning [allcluster] together with the final [used]. *)
Definition FindClusters_run (cfg : Config) (m : Members) (fuel : nat) (blurred : Image)
    (allcluster : list (list Z)) : result (list (list Z) * list bool) :=
  let nbinsx := Z.of_nat (length blurred) in
  col0 ← at_ blurred 0;
  let nbinsy := Z.of_nat (length col0) in
  let nbins := nbinsx * nbinsy in
  used ← vector_n nbins false;
  values ← bin_values blurred nbinsx nbinsy;
  cluster_loop cfg m blurred nbinsx nbinsy fuel (sort_desc values) used allcluster.

(** [FindClusters]: the clusters left in [allcluster] and the returned count. *)
Definition FindClusters (cfg : Config) (m : Members) (fuel : nat) (blurred : Image)
    (allcluster : list (list Z)) : result (list (list Z) * Z) :=
  '(allcluster', _) ← FindClusters_run cfg m fuel blurred allcluster;
  Ok (allcluster', Z.of_nat (length allcluster')).

(** * The Gaussian weights over the real numbers *)

Module Kernel.

(** The weight of the kernel loop,
    [1. / sqrt(sig2i * M_PI) * exp(-i * i / sig2i)
     * 1. / sqrt(sig2j * M_PI) * exp(-j * j / sig2j)],
    with [sig2i = 2. * sigmawire * sigmawire] and
    [sig2j = 2. * sigmatick_scaled * sigmatick_scaled].

    A weight is a double that may be not a number: [None] is the NaN.  With
    a sigma of 0 the code divides by [sqrt(0.)] and by [sig2 = 0.]: the
    quotient [1. / sqrt(0.)] is infinite, and it is multiplied by
    [exp(-inf) = 0] or by [exp(0. / 0.)], so the weight is a NaN at every
    offset.  With both sigmas different from 0 no divisor is 0. *)
Definition value (sigmawire sigmatick_scaled i j : Z) : option R :=
  if (sigmawire =? 0) || (sigmatick_scaled =? 0) then None
  else
    let sig2i := (2 * IZR sigmawire * IZR sigmawire)%R in
    let sig2j := (2 * IZR sigmatick_scaled * IZR sigmatick_scaled)%R in
    Some (1 / sqrt (sig2i * PI) * exp (IZR (- i * i) / sig2i)
          * 1 / sqrt (sig2j * PI) * exp (IZR (- j * j) / sig2j))%R.

(** The zero-mean Gaussian density of the spec,
    [exp(-k^2 / 2 sigma^2) / sqrt(2 pi sigma^2)]. *)
Definition gaussian_density (sigma : R) (k : Z) : R :=
  (exp (- (IZR k * IZR k) / (2 * (sigma * sigma))) / sqrt (2 * PI * (sigma * sigma)))%R.

End Kernel.

(** * Specification vocabulary *)

(** The cell [b] is marked in the used mask. *)
Definition marked (used : list bool) (b : Z) : Prop :=
  0 ≤ b ∧ used !! Z.to_nat b = Some true.

(** The mask is true exactly on [cells], and no cell is listed twice. *)
Definition marks_exactly (used : list bool) (cells : list Z) : Prop :=
  NoDup cells ∧ ∀ b, marked used b ↔ b ∈ cells.

(** The invariant of [FindClusters]: the cluster being formed and the
    accepted clusters are disjoint, free of repetitions, and are what the
    mask marks. *)
Definition grower_inv (allcluster : list (list Z)) (st : Grow) : Prop :=
  marks_exactly (used st) (cluster st ++ concat allcluster).

(** No cell index belongs to two clusters of the list. *)
Definition pairwise_disjoint (allcluster : list (list Z)) : Prop :=
  ∀ i j c1 c2 b,
    i ≠ j → allcluster !! i = Some c1 → allcluster !! j = Some c2 →
    b ∈ c1 → b ∉ c2.

(** The members with one more hit indexed under (wire, tick). *)
Definition with_hit (m : Members) (wire tick : Z) (h : Hit) : Members :=
  mkMembers (fLowerHistTick m) (fUpperHistTick m) (fLowerHistWire m) (fUpperHistWire m)
            (hitmap_set (fHitMap m) wire tick h).

(** The times of two hit indexes, bin by bin: equal, or both not positive. *)
Definition time_alike (r1 r2 : result Q) : Prop :=
  r1 = r2 ∨ ∃ t1 t2, r1 = Ok t1 ∧ r2 = Ok t2 ∧ Qltb 0 t1 = false ∧ Qltb 0 t2 = false.

(** Every recorded time is strictly positive. *)
Definition positive_times (st : Grow) : Prop :=
  Forall (λ t, (0 < t)%Q) (times st).

(** The (wire, tick) cell a hit is discretised to by the image builder. *)
Definition cell (svc : Services) (h : Hit) : Z * Z :=
  (GlobalWire svc (HitWireID h), Qtrunc (PeakTime h)).

(** What the image builder holds for the cell (wire, tick): the charge, the
    width and the indexed hit. *)
Definition cell_view (lowW lowT wire tick : Z) (s : Image * Image * gmap Z (gmap Z Hit))
  : result Q * result Q * option Hit :=
  let '(image, widths, hitmap) := s in
  (at2 image (wire - lowW) (tick - lowT), at2 widths (wire - lowW) (tick - lowT),
   hitmap_find hitmap wire tick).

(** Of two hits, the one the strict comparison of charges keeps: the second
    when its charge is higher, the first otherwise. *)
Definition higher_charge (h1 h2 : Hit) : Hit :=
  if Qltb (Integral h1) (Integral h2) then h2 else h1.

(** The spec's charge-max merge, read for two hits [h1], [h2] of the input:
    after the image builder has run, the cell of [h1] holds the charge and
    the width of the higher-charge hit, and the hit index resolves the cell
    to it. *)
Definition charge_max_merge (svc : Services) (hits : list Hit) (h1 h2 : Hit) : Prop :=
  ∀ image widths m,
    ConvertRecobHitsToVector svc hits = Ok (image, widths, m) →
    let '(wire, tick) := cell svc h1 in
    at2 image (wire - fLowerHistWire m) (tick - fLowerHistTick m)
      = Ok (Integral (higher_charge h1 h2))
    ∧ at2 widths (wire - fLowerHistWire m) (tick - fLowerHistTick m)
      = Ok (RMS (higher_charge h1 h2))
    ∧ hitmap_find (fHitMap m) wire tick = Some (higher_charge h1 h2).

(** The bounds [b] cover the cell (wire, tick). *)
Definition covers (b : Z * Z * Z * Z) (c : Z * Z) : Prop :=
  let '(lowerTick, upperTick, lowerWire, upperWire) := b in
  lowerWire ≤ fst c ≤ upperWire ∧ lowerTick ≤ snd c ≤ upperTick.

(** The bounds [b'] are at least as wide as the bounds [b]. *)
Definition widens (b b' : Z * Z * Z * Z) : Prop :=
  let '(lowerTick, upperTick, lowerWire, upperWire) := b in
  let '(lowerTick', upperTick', lowerWire', upperWire') := b' in
  lowerTick' ≤ lowerTick ∧ upperTick ≤ upperTick'
  ∧ lowerWire' ≤ lowerWire ∧ upperWire ≤ upperWire'.

(** The four bounds are [int] values of magnitude at most [B]. *)
Definition bounded (B : Z) (b : Z * Z * Z * Z) : Prop :=
  let '(lowerTick, upperTick, lowerWire, upperWire) := b in
  - B ≤ lowerTick ≤ B ∧ - B ≤ upperTick ≤ B ∧ - B ≤ lowerWire ≤ B ∧ - B ≤ upperWire ≤ B.

(** The image has [n] rows of [k] cells. *)
Definition shape (n k : nat) (image : Image) : Prop :=
  length image = n ∧ Forall (λ col, length col = k) image.

(** The computation ends without exhausting the loop budget of the model:
    it returns, or it fails as the code does. *)
Definition terminates {A : Type} (r : result A) : Prop := r ≠ Fail out_of_fuel.

(** The number of cells of the mask that are not used. *)
Definition free_cells (used : list bool) : nat := length (List.filter negb used).

(** What a scan of the growing or of the hole filling keeps: the size of
    the mask, and the number of free cells plus the length of the cluster;
    the cluster is only extended. *)
Definition same_budget (st st' : Grow) : Prop :=
  length (used st') = length (used st)
  ∧ (free_cells (used st') + length (cluster st')
     = free_cells (used st) + length (cluster st))%nat
  ∧ (length (cluster st) ≤ length (cluster st'))%nat.

(** What the growing adds between two states, counted by [nadded]. *)
Definition grew (acc acc' : Grow * nat) : Prop :=
  same_budget (fst acc) (fst acc')
  ∧ (snd acc' + length (cluster (fst acc)) = snd acc + length (cluster (fst acc')))%nat.

(** * Example inputs *)

Module Examples.

(** A detector of collection planes with 1000 wires each and a read-out
    window of 3200 ticks; the global wire of a hit of TPC 0 is its wire
    number. *)
Definition svc : Services :=
  mkServices 3200 1000 (λ _, kCollection) (λ _, (0, 0, 0)%Q) (λ _ _ _ _ _, 0%Q)
             (λ _ _ _, 1000%nat).

(** A small blurred image, 7 wires by 5 ticks, with two groups of cells. *)
Definition blurred7x5 : Image :=
  [ [0; 0; 0; 0; 0]; [0; 20 # 1; 0; 0; 0]; [0; 8 # 1; 0; 0; 0]; [0; 0; 0; 0; 0];
    [0; 0; 0; 0; 0]; [0; 0; 9 # 1; 15 # 1; 0]; [0; 0; 0; 0; 0] ]%Q.

(** Seeds of charge 10, neighbours above charge 5 at distance 1, clusters
    of two cells or more, no hole filling, no pruning. *)
Definition cfg_grow : Config :=
  mkConfig 1 1 (1 # 1) (1 # 1) (1 # 1) 1 [1] 1 1 8 0 2 (10 # 1) (500 # 1) (5 # 1).

(** Members with no indexed hit. *)
Definition no_hits : Members := mkMembers 0 5 0 7 ∅.

(** Tiers 1, 2 and 4 under a ceiling of 5. *)
Definition cfg_tiers : Config :=
  mkConfig 1 1 (1 # 1) (1 # 1) (1 # 1) 5 [1; 2; 4] 1 1 8 0 2 (10 # 1) (500 # 1) (5 # 1).


(** Two hits on neighbouring wires at the same tick, each four ticks wide. *)
Definition hit_a : Hit := mkHit 0 (mkWireID 0 0 0 100) (500 # 1) (50 # 1) (4 # 1).
Definition hit_b : Hit := mkHit 1 (mkWireID 0 0 0 101) (500 # 1) (40 # 1) (4 # 1).

(** Blur radii 6 and 12, sigmas 4 and 6, tiers 1 to 5, unit rescale. *)
Definition cfg_blur : Config :=
  mkConfig 6 12 (4 # 1) (6 # 1) (1 # 1) 5 [1; 2; 3; 4; 5] 2 2 0 0 2
           (1 # 10) (500 # 1) (7 # 100).

(** The unit vector of (1, gradient), exact where the gradient is 0, as it
    is for hits that share their tick. *)
Definition Unit_level (gradient : Q) : Q * Q := (1%Q, gradient).

(** Hole filling on a 5 by 5 image: seeds of charge 10, neighbours above
    charge 5 at distance 1, holes filled from one used neighbour on, times
    within 5 ticks, no pruning, clusters of one cell or more. *)
Definition cfg_hole : Config :=
  mkConfig 1 1 (1 # 1) (1 # 1) (1 # 1) 1 [1] 1 1 0 0 1 (10 # 1) (5 # 1) (5 # 1).

(** The cell (1, 2) holds the charge 20, the cell (2, 1) the charge 1. *)
Definition blurred5x5 : Image :=
  [ [0; 0; 0; 0; 0]; [0; 0; 20 # 1; 0; 0]; [0; 1 # 1; 0; 0; 0]; [0; 0; 0; 0; 0];
    [0; 0; 0; 0; 0] ]%Q.

(** A hit of peak time 1 and a hit of peak time 0. *)
Definition hit_t1 : Hit := mkHit 0 (mkWireID 0 0 0 1) (1 # 1) (20 # 1) (1 # 1).
Definition hit_t0 : Hit := mkHit 1 (mkWireID 0 0 0 2) (0 # 1) (1 # 1) (1 # 1).

(** Bounds under which the bin of the cell (x, y) is looked up at wire [x]
    and tick [y - 1]; the hit of time 1 is found from the cell (1, 2). *)
Definition members_t1 : Members :=
  mkMembers 0 5 1 6 {[1 := {[1 := hit_t1]}]}.

(** The 3 by 3 mask with every cell used but the centre. *)
Definition ring3x3 : list bool :=
  [true; true; true; true; false; true; true; true; true].

(** Three hits on wire 100 within tick 500, of charges 10, 20 and 30. *)
Definition hit_c10 : Hit := mkHit 2 (mkWireID 0 0 0 100) (5001 # 10) (10 # 1) (1 # 1).
Definition hit_c20 : Hit := mkHit 3 (mkWireID 0 0 0 100) (5005 # 10) (20 # 1) (2 # 1).
Definition hit_c30 : Hit := mkHit 4 (mkWireID 0 0 0 100) (5009 # 10) (30 # 1) (3 # 1).

(** Two hits on wire 100 within tick 500 whose charges are not positive. *)
Definition hit_c0 : Hit := mkHit 5 (mkWireID 0 0 0 100) (5001 # 10) (0 # 1) (1 # 1).
Definition hit_cneg : Hit := mkHit 6 (mkWireID 0 0 0 100) (5005 # 10) (-1 # 1) (2 # 1).

(** A 2 by 2 image in which every cell holds the charge 20. *)
Definition flat2x2 : Image := [ [20 # 1; 20 # 1]; [20 # 1; 20 # 1] ]%Q.

(** Pruning of cells with fewer than two used neighbours. *)
Definition cfg_prune : Config :=
  mkConfig 1 1 (1 # 1) (1 # 1) (1 # 1) 1 [1] 1 1 8 2 2 (10 # 1) (500 # 1) (5 # 1).

(** On a 5 by 5 image, the cells 6, 7 and 12 touch one another and the
    cell 18 touches only the cell 12. *)
Definition peninsula : Grow :=
  mkGrow [false; false; false; false; false;
          false; true; true; false; false;
          false; false; true; false; false;
          false; false; false; true; false;
          false; false; false; false; false]
         [6; 7; 12; 18] [].

(** Tiers 1 and 2 under a ceiling of 2, blur radii 1. *)
Definition cfg_small : Config :=
  mkConfig 1 1 (1 # 1) (1 # 1) (1 # 1) 2 [1; 2] 1 1 8 0 2 (10 # 1) (500 # 1) (5 # 1).

(** An index of two hits on the wires 1 and 2. *)
Definition members_two : Members :=
  mkMembers 0 5 0 5 {[1 := {[1 := hit_t1]}; 2 := {[0 := hit_t0]}]}.

(** A stand-in for the Gaussian density: every value is 1. *)
Definition flat_density (sigma k : Z) : Q := 1%Q.

(** A hit one wire and one tick up from [hit_a]. *)
Definition hit_d : Hit := mkHit 7 (mkWireID 0 0 0 101) (501 # 1) (40 # 1) (4 # 1).

(** A 2 by 2 image of charges below 10. *)
Definition faint2x2 : Image := [ [1 # 1; 2 # 1]; [3 # 1; 4 # 1] ]%Q.


End Examples.

(** * Invariants of the image builder *)

(** What the second loop of the image builder keeps, cell by cell, after the
    hits [done]: a cell with an indexed hit holds the charge and the width
    of that hit, which is one of [done], lies on the cell and has a positive
    charge; a cell with no indexed hit holds no charge. *)
Definition index_consistent (svc : Services) (lowW lowT : Z) (done : list Hit)
    (s : Image * Image * gmap Z (gmap Z Hit)) : Prop :=
  ∀ wire tick,
    match cell_view lowW lowT wire tick s with
    | (charge, width, Some h) =>
        h ∈ done ∧ cell svc h = (wire, tick) ∧ (0 < Integral h)%Q
        ∧ charge = Ok (Integral h) ∧ width = Ok (RMS h)
    | (charge, _, None) => ∀ q, charge = Ok q → q = 0%Q
    end.

(** Every hit of [done] with a positive charge finds on its cell an indexed
    hit whose charge is at least its own. *)
Definition keeps_highest (svc : Services) (done : list Hit) (hitmap : gmap Z (gmap Z Hit))
  : Prop :=
  ∀ h, h ∈ done → (0 < Integral h)%Q →
    ∃ h', hitmap_find hitmap (fst (cell svc h)) (snd (cell svc h)) = Some h'
          ∧ (Integral h <= Integral h')%Q.

(** * The spread of the wires *)

(** The sum of the wires and the sum of their squares. *)
Definition sum_wires (xs : list Z) : Z := foldr Z.add 0 xs.
Definition sum_squares (xs : list Z) : Z := foldr (λ x s, x * x + s) 0 xs.

(** [n * sum of x^2 - (sum of x)^2], the divisor of the gradient over the
    integers. *)
Definition wire_spread (xs : list Z) : Z :=
  Z.of_nat (length xs) * sum_squares xs - sum_wires xs * sum_wires xs.

(** * Outcomes *)

(** The computation returns a value that satisfies [P], or fails with a
    failure of [E]. *)
Definition outcome {A : Type} (E : failure → Prop) (P : A → Prop) (r : result A) : Prop :=
  match r with
  | Ok a => P a
  | Fail f => E f
  end.

(** The only failure is the exhaustion of the loop budget of the model: no
    access is out of range. *)
Definition budget_only (f : failure) : Prop := f = out_of_fuel.

(** The state of the region grower fits an image of [nbins] cells: the mask
    has one entry per cell and the cluster lists cells of the image. *)
Definition fits (nbins : Z) (st : Grow) : Prop :=
  Z.of_nat (length (used st)) = nbins ∧ Forall (λ b, 0 ≤ b < nbins) (cluster st).

(** * Clusters as the growing builds them *)

(** The cell [b] can be taken by the growing from a cluster that holds
    [earlier]: it is the bin of a cell (x, y) of the image within the
    configured distances of the cell of some [b0] of [earlier], and its
    blurred charge is above [fChargeThreshold]. *)
Definition grown_from (cfg : Config) (blurred : Image) (nbinsx nbinsy : Z)
    (earlier : list Z) (b : Z) : Prop :=
  ∃ b0 x y q,
    b0 ∈ earlier
    ∧ b = ConvertWireTickToBin blurred x y
    ∧ 0 ≤ x < nbinsx ∧ 0 ≤ y < nbinsy
    ∧ Z.abs (x - Z.rem b0 nbinsx) ≤ fClusterWireDistance cfg
    ∧ Z.abs (y - Z.rem (Z.quot (b0 - Z.rem b0 nbinsx) nbinsx) nbinsy)
      ≤ fClusterTickDistance cfg
    ∧ ConvertBinToCharge blurred b = Ok q
    ∧ (fChargeThreshold cfg < q)%Q.

(** The lists of cells that start with [seed] and are extended one cell at
    a time, each taken from the cells before it. *)
Inductive grown (cfg : Config) (blurred : Image) (nbinsx nbinsy : Z) (seed : Z)
  : list Z → Prop :=
| grown_seed : grown cfg blurred nbinsx nbinsy seed [seed]
| grown_add (l : list Z) (b : Z) :
    grown cfg blurred nbinsx nbinsy seed l →
    grown_from cfg blurred nbinsx nbinsy l b →
    grown cfg blurred nbinsx nbinsy seed (l ++ [b]).

(** The cell is on the border, or has at least [fMinNeighbours] used
    neighbours: the pruning leaves it in place. *)
Definition unpruned (cfg : Config) (nbinsx nbinsy : Z) (used : list bool) (b : Z) : Prop :=
  on_border nbinsx nbinsy b = true
  ∨ ∃ c, NumNeighbours nbinsx used b = Ok c ∧ fMinNeighbours cfg ≤ Z.of_nat c.

(** What the hole filling does between two states: cells are appended to
    the cluster, each off the border of the image and not marked before;
    marked cells stay marked. *)
Definition hole_filled (nbinsx nbinsy : Z) (st st' : Grow) : Prop :=
  (∃ added, cluster st' = cluster st ++ added
            ∧ Forall (λ b, on_border nbinsx nbinsy b = false ∧ ¬ marked (used st) b) added)
  ∧ ∀ b, marked (used st) b → marked (used st') b.

(** * Blocks of TPCs *)

(** The block of a TPC on a collection plane: the TPCs 0 and 1 form the
    block 0, the TPCs 2 to 5 the block 1, the TPCs 6 and 7 the block 2;
    higher TPC numbers belong to no block. *)
Definition tpc_block (tpc : nat) : option nat :=
  if (tpc <=? 1)%nat then Some 0%nat
  else if (tpc <=? 5)%nat then Some 1%nat
       else if (tpc <=? 7)%nat then Some 2%nat else None.

(** * Properties *)

(** ** The result monad *)

Lemma bind_Ok {A B : Type} (r : result A) (k : A → result B) (b : B) :
  r ≫= k = Ok b → ∃ a, r = Ok a ∧ k a = Ok b.
Proof. destruct r as [a|f]; simpl; [eauto | discriminate]. Qed.

(** Inversion of a successful computation, one bind at a time. *)
Ltac inv_ok H :=
  let a := fresh "a" in
  let Ha := fresh "Hok" in
  apply bind_Ok in H; destruct H as (a & Ha & H).

Lemma foldM_app {A S : Type} (f : S → A → result S) (l1 l2 : list A) (s : S) :
  foldM f (l1 ++ l2) s = (s' ← foldM f l1 s; foldM f l2 s').
Proof.
  revert s; induction l1 as [|a l1 IH]; intros s; simpl; [reflexivity|].
  destruct (f s a) as [s'|e]; simpl; [apply IH | reflexivity].
Qed.

(** A property kept by every successful step is kept by the loop. *)
Lemma foldM_preserves {A S : Type} (P : S → Prop) (f : S → A → result S) (l : list A) :
  (∀ s a s', P s → f s a = Ok s' → P s') →
  ∀ s s', P s → foldM f l s = Ok s' → P s'.
Proof.
  intros Hstep; induction l as [|a l IH]; intros s s' Hs H; simpl in H.
  - congruence.
  - inv_ok H. eapply IH; [|exact H]. eapply Hstep; eauto.
Qed.

(** ** Vector accesses *)

Lemma idx_Ok {A : Type} (v : list A) (i : Z) (a : A) :
  idx v i = Ok a ↔ 0 ≤ i ∧ v !! Z.to_nat i = Some a.
Proof.
  unfold idx. destruct (Z.ltb_spec i 0).
  - split; [discriminate | lia].
  - destruct (v !! Z.to_nat i); split; intros; try discriminate; try congruence; intuition congruence.
Qed.

Lemma at_Ok {A : Type} (v : list A) (i : Z) (a : A) :
  at_ v i = Ok a ↔ 0 ≤ i ∧ v !! Z.to_nat i = Some a.
Proof.
  unfold at_. destruct (Z.ltb_spec i 0).
  - split; [discriminate | lia].
  - destruct (v !! Z.to_nat i); split; intros; try discriminate; try congruence; intuition congruence.
Qed.

Lemma set_idx_Ok {A : Type} (v v' : list A) (i : Z) (a : A) :
  set_idx v i a = Ok v' ↔
  0 ≤ i ∧ (Z.to_nat i < length v)%nat ∧ v' = <[Z.to_nat i := a]> v.
Proof.
  unfold set_idx. destruct (Z.ltb_spec i 0).
  - split; [discriminate | lia].
  - destruct (Nat.ltb_spec (Z.to_nat i) (length v)); split; intros; try discriminate.
    + intuition congruence.
    + destruct H1 as (_ & _ & ->). reflexivity.
    + lia.
Qed.

(** ** The used mask *)

Lemma marked_set_true (used used' : list bool) (b : Z) :
  set_idx used b true = Ok used' →
  ∀ b', marked used' b' ↔ b' = b ∨ marked used b'.
Proof.
  intros (Hb & Hlen & ->)%set_idx_Ok b'. unfold marked.
  destruct (decide (b' = b)) as [->|Hne].
  - rewrite list_lookup_insert_eq by exact Hlen. intuition.
  - destruct (decide (0 ≤ b')) as [Hb'|Hb']; [|intuition lia].
    rewrite list_lookup_insert_ne by lia. intuition.
Qed.

Lemma marked_set_false (used used' : list bool) (b : Z) :
  set_idx used b false = Ok used' →
  ∀ b', marked used' b' ↔ b' ≠ b ∧ marked used b'.
Proof.
  intros (Hb & Hlen & ->)%set_idx_Ok b'. unfold marked.
  destruct (decide (b' = b)) as [->|Hne].
  - rewrite list_lookup_insert_eq by exact Hlen. intuition congruence.
  - destruct (decide (0 ≤ b')) as [Hb'|Hb']; [|intuition lia].
    rewrite list_lookup_insert_ne by lia. intuition.
Qed.

Lemma idx_false_unmarked (used : list bool) (b : Z) :
  idx used b = Ok false → ¬ marked used b.
Proof. intros (_ & H)%idx_Ok (_ & H'). congruence. Qed.

Lemma replicate_unmarked (n : nat) (b : Z) : ¬ marked (replicate n false) b.
Proof.
  intros (_ & H). apply lookup_replicate in H. destruct H; discriminate.
Qed.

Lemma unmark_all_marked (cells : list Z) :
  ∀ used used', unmark_all used cells = Ok used' →
  ∀ b, marked used' b ↔ marked used b ∧ b ∉ cells.
Proof.
  unfold unmark_all. induction cells as [|c cells IH]; intros used used' H b; simpl in H.
  - inversion H; subst. rewrite elem_of_nil. intuition.
  - inv_ok H. rewrite (IH _ _ H b), (marked_set_false _ _ _ Hok b), elem_of_cons.
    intuition.
Qed.

(** ** The invariant of the region grower *)

Lemma add_bin_inv (allcluster : list (list Z)) (st st' : Grow) (bin : Z) (time : Q) :
  grower_inv allcluster st →
  idx (used st) bin = Ok false →
  add_bin st bin time = Ok st' →
  grower_inv allcluster st'.
Proof.
  intros [Hnd Hm] Hfree H. unfold add_bin in H. inv_ok H. inversion H; subst; clear H.
  apply idx_false_unmarked in Hfree. rewrite Hm in Hfree.
  split; simpl.
  - rewrite <- (assoc_L (++)). apply NoDup_app in Hnd as (Hc & Hdisj & Ha).
    apply NoDup_app. split; [exact Hc|]. split.
    + intros x Hx [Hx'|Hx']%elem_of_app.
      * apply list_elem_of_singleton in Hx'. subst. apply Hfree, elem_of_app. auto.
      * exact (Hdisj x Hx Hx').
    + apply NoDup_cons. split; [|exact Ha].
      intros Hin. apply Hfree, elem_of_app. auto.
  - intros b. rewrite (marked_set_true _ _ _ Hok b), Hm.
    rewrite !elem_of_app, list_elem_of_singleton. intuition.
Qed.

Lemma discard_inv (allcluster : list (list Z)) (st : Grow) (used' : list bool) :
  grower_inv allcluster st →
  unmark_all (used st) (cluster st) = Ok used' →
  marks_exactly used' (concat allcluster).
Proof.
  intros [Hnd Hm] H. apply NoDup_app in Hnd as (Hc & Hdisj & Ha).
  split; [exact Ha|]. intros b.
  rewrite (unmark_all_marked _ _ _ H b), Hm, elem_of_app.
  split; [intuition|]. intros Hb. split; [auto|]. intros Hc'. exact (Hdisj b Hc' Hb).
Qed.

Lemma accept_inv (allcluster : list (list Z)) (st : Grow) :
  grower_inv allcluster st →
  marks_exactly (used st) (concat (allcluster ++ [cluster st])).
Proof.
  intros [Hnd Hm]. rewrite concat_app. simpl. rewrite (right_id_L [] (++)).
  split.
  - apply NoDup_app in Hnd as (Hc & Hdisj & Ha). apply NoDup_app.
    split; [exact Ha|]. split; [|exact Hc].
    intros x Hx Hx'. exact (Hdisj x Hx' Hx).
  - intros b. rewrite Hm, !elem_of_app. intuition.
Qed.

Lemma erase_inv (allcluster : list (list Z)) (st : Grow) (clusBin : nat) (bin : Z)
    (used' : list bool) :
  grower_inv allcluster st →
  cluster st !! clusBin = Some bin →
  set_idx (used st) bin false = Ok used' →
  grower_inv allcluster (mkGrow used' (delete clusBin (cluster st)) (times st)).
Proof.
  intros [Hnd Hm] Hbin Hset.
  assert (Hsplit : ∃ l1 l2, cluster st = l1 ++ bin :: l2 ∧ length l1 = clusBin).
  { apply list_elem_of_split_length in Hbin as (l1 & l2 & -> & ->). eauto. }
  destruct Hsplit as (l1 & l2 & Hcl & Hlen).
  assert (Hdel : delete clusBin (cluster st) = l1 ++ l2).
  { rewrite Hcl, <- Hlen. clear. induction l1; simpl; [reflexivity | f_equal; assumption]. }
  unfold grower_inv; simpl. rewrite Hdel. rewrite Hcl in Hnd, Hm.
  rewrite <- (assoc_L (++)) in Hnd. simpl in Hnd.
  apply NoDup_app in Hnd as (H1 & Hdisj & Hrest).
  apply NoDup_cons in Hrest as (Hnotin & Hrest).
  split.
  - rewrite <- (assoc_L (++)). apply NoDup_app. split; [exact H1|]. split; [|exact Hrest].
    intros x Hx Hx'. apply (Hdisj x Hx). apply elem_of_cons. auto.
  - intros b. rewrite (marked_set_false _ _ _ Hset b), Hm.
    rewrite !elem_of_app, elem_of_cons.
    rewrite elem_of_app in Hnotin.
    split.
    + intros (Hne & [[Hb|[Hb|Hb]]|Hb]); auto. contradiction.
    + intros Hb. split.
      * intros ->. destruct Hb as [[Hb|Hb]|Hb]; [|auto..].
        apply (Hdisj bin Hb). apply elem_of_cons. auto.
      * intuition.
Qed.

Section GrowerInvariant.
Variable cfg : Config.
Variable m : Members.
Variable blurred : Image.
Variables nbinsx nbinsy : Z.
Variable allcluster : list (list Z).

Lemma grow_candidate_inv (binx biny : Z) (acc acc' : Grow * nat) (xy : Z * Z) :
  grower_inv allcluster (fst acc) →
  grow_candidate cfg m blurred nbinsx nbinsy binx biny acc xy = Ok acc' →
  grower_inv allcluster (fst acc').
Proof.
  destruct acc as [st nadded], xy as [x y]. simpl. intros Hinv H.
  unfold grow_candidate in H.
  destruct (_ || _) in H; [inversion H; subst; exact Hinv|].
  destruct (_ || _) in H; [inversion H; subst; exact Hinv|].
  inv_ok H. destruct a; [inversion H; subst; exact Hinv|].
  inv_ok H. inv_ok H.
  destruct (fails_growing_time_cut _ _ _) in H; [inversion H; subst; exact Hinv|].
  destruct (Qltb _ _) in H; [|inversion H; subst; exact Hinv].
  inv_ok H. inversion H; subst. simpl. eapply add_bin_inv; eauto.
Qed.

Lemma grow_bin_inv (acc acc' : Grow * nat) (bin : Z) :
  grower_inv allcluster (fst acc) →
  grow_bin cfg m blurred nbinsx nbinsy acc bin = Ok acc' →
  grower_inv allcluster (fst acc').
Proof.
  unfold grow_bin. intros Hinv H.
  eapply (foldM_preserves (λ a, grower_inv allcluster (fst a))); [|exact Hinv|exact H].
  intros s a s' Hs Hstep. eapply grow_candidate_inv; eauto.
Qed.

Lemma grow_scan_inv (fuel : nat) :
  ∀ clusBin acc acc',
    grower_inv allcluster (fst acc) →
    grow_scan cfg m blurred nbinsx nbinsy fuel clusBin acc = Ok acc' →
    grower_inv allcluster (fst acc').
Proof.
  induction fuel as [|fuel IH]; intros clusBin acc acc' Hinv H; simpl in H; [discriminate|].
  destruct (cluster (fst acc) !! clusBin) as [bin|].
  - inv_ok H. eapply IH; [|exact H]. eapply grow_bin_inv; eauto.
  - inversion H; subst. exact Hinv.
Qed.

Lemma grow_loop_inv (scan_fuel fuel : nat) :
  ∀ st st',
    grower_inv allcluster st →
    grow_loop cfg m blurred nbinsx nbinsy fuel scan_fuel st = Ok st' →
    grower_inv allcluster st'.
Proof.
  induction fuel as [|fuel IH]; intros st st' Hinv H; simpl in H; [discriminate|].
  inv_ok H. destruct a as [st1 nadded].
  apply grow_scan_inv in Hok; [|exact Hinv]. simpl in Hok.
  destruct nadded; [inversion H; subst; exact Hok|]. eapply IH; eauto.
Qed.

Lemma fills_hole_free (used : list bool) (times : list Q) (bin : Z) (time : Q) :
  fills_hole cfg nbinsx used times bin time = Ok true → idx used bin = Ok false.
Proof.
  unfold fills_hole. intros H. inv_ok H. destruct a; [discriminate | exact Hok].
Qed.

Lemma hole_candidate_inv (bin : Z) (st st' : Grow) (xy : Z * Z) :
  grower_inv allcluster st →
  hole_candidate cfg m blurred nbinsx nbinsy bin st xy = Ok st' →
  grower_inv allcluster st'.
Proof.
  destruct xy as [x y]. intros Hinv H. unfold hole_candidate in H.
  destruct (_ && _) in H; [inversion H; subst; exact Hinv|].
  destruct (on_border _ _ _) in H; [inversion H; subst; exact Hinv|].
  inv_ok H. inv_ok H. destruct a0; [|inversion H; subst; exact Hinv].
  eapply add_bin_inv; eauto using fills_hole_free.
Qed.

Lemma hole_scan_inv (fuel : nat) :
  ∀ clusBin st st',
    grower_inv allcluster st →
    hole_scan cfg m blurred nbinsx nbinsy fuel clusBin st = Ok st' →
    grower_inv allcluster st'.
Proof.
  induction fuel as [|fuel IH]; intros clusBin st st' Hinv H; simpl in H; [discriminate|].
  destruct (cluster st !! clusBin) as [bin|].
  - inv_ok H. eapply IH; [|exact H].
    unfold hole_bin in Hok.
    eapply (foldM_preserves (grower_inv allcluster)); [|exact Hinv|exact Hok].
    intros s a' s' Hs Hstep. eapply hole_candidate_inv; eauto.
  - inversion H; subst. exact Hinv.
Qed.

Lemma prune_scan_inv (k : nat) :
  ∀ acc acc',
    grower_inv allcluster (fst acc) →
    prune_scan cfg blurred nbinsx nbinsy k acc = Ok acc' →
    grower_inv allcluster (fst acc').
Proof.
  induction k as [|clusBin IH]; intros [st nremoved] acc' Hinv H; simpl in H.
  - inversion H; subst. exact Hinv.
  - inv_ok H. destruct (on_border _ _ _) in H; [eapply IH; eauto|].
    inv_ok H. destruct (_ <? _) in H; [|eapply IH; eauto].
    inv_ok H. inv_ok H. eapply IH; [|exact H]. simpl.
    apply idx_Ok in Hok as (_ & Hbin). rewrite Nat2Z.id in Hbin.
    eapply erase_inv; eauto.
Qed.

Lemma prune_loop_inv (fuel : nat) :
  ∀ st st',
    grower_inv allcluster st →
    prune_loop cfg blurred nbinsx nbinsy fuel st = Ok st' →
    grower_inv allcluster st'.
Proof.
  induction fuel as [|fuel IH]; intros st st' Hinv H; simpl in H; [discriminate|].
  inv_ok H. destruct a as [st1 nremoved].
  apply prune_scan_inv in Hok; [|exact Hinv]. simpl in Hok.
  destruct nremoved; [inversion H; subst; exact Hok|]. eapply IH; eauto.
Qed.

Lemma seed_and_grow_inv (fuel : nat) (used0 : list bool) (bin : Z) (st : Grow) :
  marks_exactly used0 (concat allcluster) →
  idx used0 bin = Ok false →
  seed_and_grow cfg m blurred nbinsx nbinsy fuel used0 bin = Ok st →
  grower_inv allcluster st.
Proof.
  intros [Hnd Hm] Hfree H. unfold seed_and_grow in H. inv_ok H. inv_ok H.
  eapply grow_loop_inv; [|exact H].
  apply idx_false_unmarked in Hfree. rewrite Hm in Hfree.
  split; simpl.
  - apply NoDup_cons. auto.
  - intros b. rewrite (marked_set_true _ _ _ Hok b), Hm, elem_of_cons. reflexivity.
Qed.
End GrowerInvariant.

Lemma cluster_loop_inv (cfg : Config) (m : Members) (blurred : Image) (nbinsx nbinsy : Z)
    (fuel : nat) (values : list (Q * Z)) :
  ∀ used0 allcluster allcluster' used',
    marks_exactly used0 (concat allcluster) →
    cluster_loop cfg m blurred nbinsx nbinsy fuel values used0 allcluster
      = Ok (allcluster', used') →
    marks_exactly used' (concat allcluster').
Proof.
  induction values as [|[blurred_binval bin] values IH];
    intros used0 allcluster allcluster' used' Hinv H; simpl in H; [discriminate|].
  destruct (Qltb _ _) in H; [inversion H; subst; exact Hinv|].
  inv_ok H. destruct a; [eapply IH; eauto|].
  inv_ok H. rename a into st.
  pose proof (seed_and_grow_inv _ _ _ _ _ _ _ _ _ _ Hinv Hok Hok0) as Hst.
  destruct (_ <? _)%nat in H.
  { inv_ok H. eapply IH; [|exact H]. eapply discard_inv; eauto. }
  inv_ok H. rename a into st1. inv_ok H. rename a into st2.
  apply hole_scan_inv with (allcluster := allcluster) in Hok1; [|exact Hst].
  apply prune_loop_inv with (allcluster := allcluster) in Hok2; [|exact Hok1].
  destruct (_ <? _)%nat in H.
  { inv_ok H. eapply IH; [|exact H]. eapply (discard_inv _ st2); eauto. }
  eapply IH; [|exact H]. apply accept_inv. exact Hok2.
Qed.

Lemma elem_of_concat (allcluster : list (list Z)) (b : Z) :
  b ∈ concat allcluster ↔ ∃ c, c ∈ allcluster ∧ b ∈ c.
Proof.
  induction allcluster as [|c acc IH]; simpl.
  - split; [intros H%elem_of_nil; contradiction|].
    intros (c & H%elem_of_nil & _). contradiction.
  - rewrite elem_of_app, IH. split.
    + intros [H|(c' & H & H')]; [exists c | exists c']; rewrite elem_of_cons; auto.
    + intros (c' & [->|H]%elem_of_cons & H'); eauto.
Qed.

Lemma NoDup_concat_disjoint (allcluster : list (list Z)) :
  NoDup (concat allcluster) → pairwise_disjoint allcluster.
Proof.
  induction allcluster as [|c acc IH]; intros Hnd i j c1 c2 b Hij H1 H2 Hb1 Hb2.
  - rewrite lookup_nil in H1. discriminate.
  - simpl in Hnd. apply NoDup_app in Hnd as (Hc & Hdisj & Hacc).
    assert (Hin : ∀ k c', acc !! k = Some c' → b ∈ c' → b ∈ concat acc).
    { intros k c' Hk Hb. apply elem_of_concat. exists c'. split; [|exact Hb].
      eapply list_elem_of_lookup_2; eauto. }
    destruct i as [|i], j as [|j]; simpl in H1, H2.
    + congruence.
    + inversion H1; subst. exact (Hdisj b Hb1 (Hin _ _ H2 Hb2)).
    + inversion H2; subst. exact (Hdisj b Hb2 (Hin _ _ H1 Hb1)).
    + apply (IH Hacc i j c1 c2 b); auto.
Qed.

(** C9: the clusters returned by one run of [FindClusters] are pairwise
    disjoint, none lists a cell twice, and at the end of the run the used mask
    is true exactly on the cells of the returned clusters; whenever a cluster
    is discarded, each of its cells is unmarked. *)
Theorem FindClusters_clusters_disjoint_and_marked (cfg : Config) (m : Members) (fuel : nat)
    (blurred : Image) (allcluster : list (list Z)) (mask : list bool) :
  FindClusters_run cfg m fuel blurred [] = Ok (allcluster, mask) →
  pairwise_disjoint allcluster
  ∧ Forall NoDup allcluster
  ∧ (∀ b, marked mask b ↔ ∃ c, c ∈ allcluster ∧ b ∈ c)
  ∧ (∀ st used', unmark_all (used st) (cluster st) = Ok used' →
               ∀ b, b ∈ cluster st → ¬ marked used' b).
Proof.
  intros H. unfold FindClusters_run in H.
  inv_ok H. inv_ok H. inv_ok H.
  assert (Hinit : marks_exactly a0 (concat [])).
  { unfold vector_n in Hok0. destruct (_ <? _) in Hok0; [discriminate|].
    inversion Hok0; subst. split; [constructor|].
    intros b. split; [intros Hb; exfalso; eapply replicate_unmarked; eauto|].
    intros Hb%elem_of_nil. contradiction. }
  destruct (cluster_loop_inv _ _ _ _ _ _ _ _ _ _ _ Hinit H) as [Hnd Hm].
  split; [apply NoDup_concat_disjoint; exact Hnd|].
  split.
  { clear -Hnd. induction allcluster as [|c acc IH]; constructor; simpl in Hnd;
      apply NoDup_app in Hnd as (? & ? & ?); auto. }
  split.
  { intros b. rewrite Hm. apply elem_of_concat. }
  intros st used' Hun b Hb Hmarked.
  apply (unmark_all_marked _ _ _ Hun) in Hmarked as [_ Hnot]. contradiction.
Qed.

Lemma FindClusters_clusters_disjoint_and_marked_witness :
  ∃ allcluster mask,
    FindClusters_run Examples.cfg_grow Examples.no_hits 10 Examples.blurred7x5 []
      = Ok (allcluster, mask)
    ∧ allcluster = [[8; 9]; [26; 19]]
    ∧ pairwise_disjoint allcluster
    ∧ (∀ b, marked mask b ↔ ∃ c, c ∈ allcluster ∧ b ∈ c).
Proof.
  eexists _, _. split; [vm_compute; reflexivity|]. split; [reflexivity|].
  pose proof (FindClusters_clusters_disjoint_and_marked
                Examples.cfg_grow Examples.no_hits 10 Examples.blurred7x5 _ _
                ltac:(vm_compute; reflexivity)) as (Hd & _ & Hm & _).
  split; [exact Hd | exact Hm].
Defined.

(** ** Vector construction *)

Lemma to_size_t_nonneg (n : Z) : 0 ≤ n < 2 ^ 64 → to_size_t n = n.
Proof. intros H. unfold to_size_t. apply Z.mod_small. exact H. Qed.

Lemma vector_n_Ok {A : Type} (n : Z) (v : A) (l : list A) :
  - 2 ^ 63 ≤ n < 2 ^ 63 →
  vector_n n v = Ok l → 0 ≤ n ∧ l = replicate (Z.to_nat n) v.
Proof.
  intros Hn H. unfold vector_n in H.
  destruct (Z.ltb_spec max_size (to_size_t n)) as [Hlt|Hle]; [discriminate|].
  inversion H; subst; clear H. unfold max_size, to_size_t in *.
  destruct (decide (0 ≤ n)) as [Hpos|Hneg].
  - rewrite Z.mod_small by lia. auto.
  - exfalso. rewrite <- (Z.mod_add n 1) in Hle by lia.
    rewrite Z.mod_small in Hle by lia. lia.
Qed.

Lemma vector_n_nonneg {A : Type} (n : Z) (v : A) :
  0 ≤ n < 2 ^ 63 → vector_n n v = Ok (replicate (Z.to_nat n) v).
Proof.
  intros Hn. unfold vector_n. rewrite to_size_t_nonneg by lia.
  destruct (Z.ltb_spec max_size n) as [Hlt|Hle]; [unfold max_size in Hlt; lia | reflexivity].
Qed.

Lemma vector_n_negative {A : Type} (n : Z) (v : A) :
  - 2 ^ 63 ≤ n < 0 → vector_n n v = Fail length_error.
Proof.
  intros Hn. destruct (vector_n n v) as [l|f] eqn:H.
  - apply vector_n_Ok in H; lia.
  - unfold vector_n in H. destruct (_ <? _) in H; congruence.
Qed.

(** ** The kernels *)



Lemma make_kernels_lookup {W : Type} (zero : W) (value : Z → Z → Z → Z → W)
    (kernel_width kernel_height blurwire blurtick kernel_scale sw st : Z) (tiers : list Z) :
  ∀ acc kernels : gmap Z (list W),
    foldM (λ allKernels tier,
             kernel ← make_kernel zero value kernel_width kernel_height blurwire blurtick
                                  kernel_scale sw (st * tier);
             Ok (<[tier := kernel]> allKernels)) tiers acc = Ok kernels →
    (∀ tier, tier ∈ tiers →
       ∃ kernel, kernels !! tier = Some kernel
                 ∧ make_kernel zero value kernel_width kernel_height blurwire blurtick
                               kernel_scale sw (st * tier) = Ok kernel)
    ∧ (∀ tier, tier ∉ tiers → kernels !! tier = acc !! tier).
Proof.
  induction tiers as [|t tiers IH]; intros acc kernels H; simpl in H.
  - inversion H; subst. split; [intros tier Hin%elem_of_nil; contradiction | reflexivity].
  - inv_ok H. inv_ok Hok. inversion Hok; subst; clear Hok.
    destruct (IH _ _ H) as [Hin Hout]. split.
    + intros tier Htier. destruct (decide (tier ∈ tiers)) as [Hi|Hni]; [auto|].
      apply elem_of_cons in Htier as [->|Htier]; [|contradiction].
      exists a0. rewrite (Hout t Hni), lookup_insert_eq. auto.
    + intros tier Htier. rewrite not_elem_of_cons in Htier. destruct Htier as [Hne Hni].
      rewrite (Hout tier Hni). apply lookup_insert_ne. congruence.
Qed.

Lemma contains_elem_of (v : list Z) (k : Z) : contains v k = true ↔ k ∈ v.
Proof.
  unfold contains. rewrite existsb_exists. split.
  - intros (x & Hin & ->%Z.eqb_eq). apply list_elem_of_In. exact Hin.
  - intros Hin. exists k. split; [apply list_elem_of_In; exact Hin | apply Z.eqb_refl].
Qed.

(** ** The kernel of a source cell *)

Lemma clamp_tick_scale_range (cfg : Config) (raw : Z) :
  1 ≤ clamp_tick_scale cfg raw
  ∧ (1 ≤ fMaxTickWidthScale cfg → clamp_tick_scale cfg raw ≤ fMaxTickWidthScale cfg).
Proof. unfold clamp_tick_scale. lia. Qed.

Lemma find_kernel_finds (cfg : Config) (kernels : gmap Z (list Q)) :
  (∀ t, t ∈ fKernels cfg → ∃ k, kernels !! t = Some k ∧ k ≠ []) →
  1 ∈ fKernels cfg →
  ∀ fuel kernelIndex,
    1 ≤ kernelIndex → (Z.to_nat kernelIndex ≤ fuel)%nat →
    ∃ tier correct_kernel,
      find_kernel cfg fuel kernels kernelIndex = Ok correct_kernel
      ∧ 1 ≤ tier ≤ kernelIndex
      ∧ tier ∈ fKernels cfg
      ∧ kernels !! tier = Some correct_kernel
      ∧ correct_kernel ≠ []
      ∧ ∀ t, tier < t ≤ kernelIndex → t ∉ fKernels cfg.
Proof.
  intros Hall Hone. induction fuel as [|fuel IH]; intros kernelIndex Hlo Hfuel; [lia|].
  simpl. destruct (contains (fKernels cfg) kernelIndex) eqn:Hc.
  - apply contains_elem_of in Hc. destruct (Hall _ Hc) as (k & Hk & Hne).
    exists kernelIndex, k. rewrite Hk. destruct k as [|w k]; [congruence|].
    repeat split; auto; lia.
  - assert (Hnot : kernelIndex ∉ fKernels cfg).
    { intros Hin%contains_elem_of. congruence. }
    assert (kernelIndex ≠ 1) by congruence.
    destruct (IH (kernelIndex - 1)) as (tier & k & Hf & Hr & Hin & Hk & Hne & Hmax);
      [lia..|].
    exists tier, k. repeat split; auto; try lia.
    intros t Ht. destruct (decide (t = kernelIndex)) as [->|Hneq]; [exact Hnot|].
    apply Hmax. lia.
Qed.





(** ** Bins and the hit map *)

Lemma to_int_small (u : Z) : - 2 ^ 31 ≤ u < 2 ^ 31 → to_int u = u.
Proof. intros H. unfold to_int. rewrite Z.mod_small by lia. lia. Qed.

Lemma bin_xy_of_cell (image : Image) (x y : Z) :
  0 ≤ x < Z.of_nat (length image) → 0 ≤ y →
  ConvertWireTickToBin image x y < 2 ^ 31 →
  bin_xy image (ConvertWireTickToBin image x y) = Ok (x, y).
Proof.
  intros Hx Hy Hbin. unfold bin_xy, ConvertWireTickToBin in *.
  set (n := Z.of_nat (length image)) in *.
  destruct (Z.eqb_spec n 0) as [Hz|Hnz]; [lia|].
  rewrite to_size_t_nonneg by nia.
  replace ((y * n + x) mod n) with x
    by (rewrite Z.add_comm, Z.mod_add by lia; symmetry; apply Z.mod_small; lia).
  replace ((y * n + x) / n) with y
    by (rewrite Z.add_comm, Z.div_add by lia; rewrite Z.div_small by lia; lia).
  rewrite !to_int_small by nia. reflexivity.
Qed.

(** The materialiser reads the hit map one wire and one tick below the cell
    whose bin it is given. *)
Lemma ConvertBinToRecobHit_of_cell (m : Members) (image : Image) (x y : Z) :
  0 ≤ x < Z.of_nat (length image) → 0 ≤ y →
  ConvertWireTickToBin image x y < 2 ^ 31 →
  ConvertBinToRecobHit m image (ConvertWireTickToBin image x y)
  = Ok (hitmap_find (fHitMap m) (x + fLowerHistWire m - 1) (y + fLowerHistTick m - 1)).
Proof.
  intros Hx Hy Hbin. unfold ConvertBinToRecobHit.
  rewrite bin_xy_of_cell by assumption. reflexivity.
Qed.

(** C1, evaluated on one hit at wire 100, tick 500: the image builder stores
    the hit at the cell (20, 20) and indexes it under (100, 500); the
    materialiser, given the bin of that cell, looks under (99, 499) and
    returns the null pointer, so the cell yields no output hit; the hit comes
    back from the bin of the cell (21, 21), which holds no charge. *)
Theorem ConvertBinToRecobHit_misses_stored_hit :
  ∃ image widths m,
    ConvertRecobHitsToVector Examples.svc [Examples.hit_a] = Ok (image, widths, m)
    ∧ fLowerHistWire m = 80 ∧ fLowerHistTick m = 480
    ∧ hitmap_find (fHitMap m) 100 500 = Some Examples.hit_a
    ∧ at2 image 20 20 = Ok (Integral Examples.hit_a)
    ∧ ConvertBinToRecobHit m image (ConvertWireTickToBin image 20 20) = Ok None
    ∧ ConvertBinsToRecobHits m image [ConvertWireTickToBin image 20 20] = Ok []
    ∧ at2 image 21 21 = Ok 0%Q
    ∧ ConvertBinToRecobHit m image (ConvertWireTickToBin image 21 21)
      = Ok (Some Examples.hit_a).
Proof.
  eexists _, _, _. split; [vm_compute; reflexivity|].
  repeat split; vm_compute; reflexivity.
Qed.

(** ** Empty input *)

(** C2, on the code: with no hits the bounds keep their initial values, the
    image is asked to have [40 - MaxWires] rows of [40 - ReadOutWindowSize]
    cells, and for a detector with more than 40 wires or a window of more than
    40 ticks the vector constructor throws [length_error]. *)
Theorem ConvertRecobHitsToVector_empty_throws (svc : Services) :
  - 2 ^ 31 ≤ ReadOutWindowSize svc < 2 ^ 31 →
  - 2 ^ 31 ≤ MaxWires svc < 2 ^ 31 →
  40 < ReadOutWindowSize svc ∨ 40 < MaxWires svc →
  extent svc [] = (ReadOutWindowSize svc, 0, MaxWires svc, 0)
  ∧ ConvertRecobHitsToVector svc [] = Fail length_error.
Proof.
  intros Hr Hw Hbig. split; [reflexivity|].
  unfold ConvertRecobHitsToVector. simpl.
  destruct (decide (40 < ReadOutWindowSize svc)) as [Hbr|Hsr].
  - rewrite vector_n_negative by lia. reflexivity.
  - rewrite vector_n_nonneg by lia. simpl.
    rewrite vector_n_negative by lia. reflexivity.
Qed.

Lemma ConvertRecobHitsToVector_empty_throws_witness :
  ConvertRecobHitsToVector Examples.svc [] = Fail length_error.
Proof.
  apply (ConvertRecobHitsToVector_empty_throws Examples.svc); simpl; lia.
Defined.

(** ** The gradient of the hit distribution *)

Lemma sums_single_wire (w : Z) (pts : list (Z * Z)) :
  Forall (λ p, fst p = w) pts →
  ∀ nhits sumx sumy sumx2 sumxy,
    (sumx == nhits * inject_Z w)%Q →
    (sumx2 == nhits * inject_Z w * inject_Z w)%Q →
    ∃ nhits' sumx' sumy' sumx2' sumxy',
      fold_left sums_step pts (nhits, sumx, sumy, sumx2, sumxy)
        = (nhits', sumx', sumy', sumx2', sumxy')
      ∧ (sumx' == nhits' * inject_Z w)%Q
      ∧ (sumx2' == nhits' * inject_Z w * inject_Z w)%Q.
Proof.
  induction 1 as [|[x y] pts Hx _ IH]; intros nhits sumx sumy sumx2 sumxy Hsx Hsx2; simpl.
  - eauto 10.
  - simpl in Hx. subst x. apply IH.
    + rewrite Hsx. ring.
    + rewrite Hsx2, inject_Z_mult. ring.
Qed.

(** When every indexed hit lies on one wire the divisor of the gradient is
    zero, and the division is undefined. *)
Lemma gradient_single_wire (w : Z) (pts : list (Z * Z)) :
  Forall (λ p, fst p = w) pts → gradient pts = Fail undefined_behaviour.
Proof.
  intros Hall. unfold gradient, sums.
  destruct (sums_single_wire w pts Hall 0 0 0 0 0)%Q
    as (n & sx & sy & sx2 & sxy & -> & Hsx & Hsx2); [ring..|].
  assert (Hden : (n * sx2 - sx * sx == 0)%Q) by (rewrite Hsx, Hsx2; ring).
  apply Qeq_bool_iff in Hden. rewrite Hden. reflexivity.
Qed.

Lemma FindBlurringParameters_single_wire (cfg : Config) (Unit : Q → Q * Q)
    (m : Members) (w : Z) :
  Forall (λ p, fst p = w) (hit_points (fHitMap m)) →
  FindBlurringParameters cfg Unit m = Fail undefined_behaviour.
Proof.
  intros Hall. unfold FindBlurringParameters.
  rewrite (gradient_single_wire w) by exact Hall. reflexivity.
Qed.

Lemma GaussianBlur_single_wire (cfg : Config) (density : Z → Z → Q) (Unit : Q → Q * Q)
    (fuel : nat) (m : Members) (image widths : Image) (w : Z) :
  Qeq_bool (fSigmaWire cfg) 0 && Qeq_bool (fSigmaTick cfg) 0 = false →
  Forall (λ p, fst p = w) (hit_points (fHitMap m)) →
  GaussianBlur cfg density Unit fuel m image widths = Fail undefined_behaviour.
Proof.
  intros Hsig Hall. unfold GaussianBlur. rewrite Hsig.
  rewrite (FindBlurringParameters_single_wire cfg Unit m w) by exact Hall. reflexivity.
Qed.

(** C5, evaluated on the hit map of one hit: the divisor
    [nhits * sumx2 - sumx * sumx] is 0, [FindBlurringParameters] divides by
    it without a test, and the blur radii and sigmas are undefined; so is the
    blurred image whenever a sigma is configured. *)
Theorem FindBlurringParameters_divides_by_zero :
  ∃ image widths m,
    ConvertRecobHitsToVector Examples.svc [Examples.hit_a] = Ok (image, widths, m)
    ∧ hit_points (fHitMap m) = [(100, 500)]
    ∧ Qeq (gradient_denominator (hit_points (fHitMap m))) 0
    ∧ (∀ cfg Unit, FindBlurringParameters cfg Unit m = Fail undefined_behaviour)
    ∧ (∀ density Unit fuel,
         GaussianBlur Examples.cfg_blur density Unit fuel m image widths
         = Fail undefined_behaviour).
Proof.
  destruct (ConvertRecobHitsToVector Examples.svc [Examples.hit_a])
    as [[[image widths] m]|f] eqn:Hrun; [|vm_compute in Hrun; discriminate].
  assert (Hpts : hit_points (fHitMap m) = [(100, 500)]).
  { assert (H : match ConvertRecobHitsToVector Examples.svc [Examples.hit_a] with
                | Ok (_, _, m) => hit_points (fHitMap m)
                | Fail _ => []
                end = [(100, 500)]) by (vm_compute; reflexivity).
    rewrite Hrun in H. exact H. }
  assert (Hall : Forall (λ p : Z * Z, fst p = 100) (hit_points (fHitMap m))).
  { rewrite Hpts. repeat constructor. }
  exists image, widths, m. split; [reflexivity|]. split; [exact Hpts|].
  split; [rewrite Hpts; vm_compute; reflexivity|].
  split.
  - intros cfg Unit. exact (FindBlurringParameters_single_wire cfg Unit m 100 Hall).
  - intros density Unit fuel.
    apply (GaussianBlur_single_wire _ _ _ _ _ _ _ 100); [reflexivity | exact Hall].
Qed.

(** ** Iteration spaces *)

Lemma elem_of_range_incl (lo hi k : Z) : k ∈ range_incl lo hi ↔ lo ≤ k ≤ hi.
Proof.
  unfold range_incl. rewrite list_elem_of_fmap. split.
  - intros (i & -> & Hi). apply elem_of_seq in Hi. lia.
  - intros Hk. exists (Z.to_nat (k - lo)). split; [lia|]. apply elem_of_seq. lia.
Qed.

Lemma elem_of_range_excl (lo hi k : Z) : k ∈ range_excl lo hi ↔ lo ≤ k < hi.
Proof. unfold range_excl. rewrite elem_of_range_incl. lia. Qed.

Lemma elem_of_grid (xs ys : list Z) (x y : Z) : (x, y) ∈ grid xs ys ↔ x ∈ xs ∧ y ∈ ys.
Proof.
  unfold grid. rewrite list_elem_of_In, in_flat_map. split.
  - intros (x' & Hx & Hy). apply in_map_iff in Hy as (y' & Heq & Hy).
    inversion Heq; subst. rewrite !list_elem_of_In. auto.
  - intros [Hx Hy]. exists x. rewrite <- list_elem_of_In. split; [exact Hx|].
    apply in_map. apply list_elem_of_In. exact Hy.
Qed.

(** ** The index into the kernel *)

Lemma blur_window_spec (blurwire blurtick tick_scale blurx blury : Z) :
  0 ≤ blurwire → 0 ≤ blurtick →
  (blurx, blury) ∈ blur_window (2 * blurwire + 1) (2 * blurtick + 1) tick_scale ↔
  - blurwire ≤ blurx ≤ blurwire
  ∧ - blurtick * tick_scale ≤ blury < (blurtick + 1) * tick_scale.
Proof.
  intros Hw Ht. unfold blur_window.
  rewrite elem_of_grid, !elem_of_range_excl.
  replace (Z.quot (- (2 * blurwire + 1)) 2) with (- blurwire)
    by (Z.to_euclidean_division_equations; lia).
  replace (Z.quot (2 * blurwire + 1 + 1) 2) with (blurwire + 1)
    by (Z.to_euclidean_division_equations; lia).
  replace (Z.quot (- (2 * blurtick + 1)) 2) with (- blurtick)
    by (Z.to_euclidean_division_equations; lia).
  replace (Z.quot (2 * blurtick + 1 + 1) 2) with (blurtick + 1)
    by (Z.to_euclidean_division_equations; lia).
  lia.
Qed.

(** The offsets visited stay inside the kernel when the scaled upper end of
    the window, [(blurtick + 1) * tick_scale - 1], does not pass the kernel's
    half height [blurtick * (fMaxTickWidthScale + 1)]; a ceiling of at most
    [blurtick + 1] is enough for every tier. *)
Lemma weight_index_in_bounds (cfg : Config) (blurwire blurtick tick_scale blurx blury : Z)
    (kernel_scale width height kernel_width kernel_height : Z) :
  0 ≤ blurwire → 0 ≤ blurtick → 1 ≤ tick_scale ≤ fMaxTickWidthScale cfg →
  (blurtick + 1) * tick_scale - 1 ≤ blurtick * (fMaxTickWidthScale cfg + 1) →
  kernel_dims cfg blurwire blurtick = (kernel_scale, width, height, kernel_width, kernel_height) →
  (blurx, blury) ∈ blur_window width height tick_scale →
  0 ≤ weight_index kernel_width kernel_height blurx blury < kernel_width * kernel_height.
Proof.
  intros Hw Ht Hts Hfit Hdims Hin. unfold kernel_dims in Hdims.
  inversion Hdims; subst; clear Hdims.
  apply blur_window_spec in Hin as [Hx Hy]; [|assumption..].
  unfold weight_index.
  set (M := fMaxTickWidthScale cfg) in *.
  assert (Hs : 0 ≤ blurtick * (M + 1)) by nia.
  replace (Z.quot (2 * blurtick * (M + 1) + 1) 2) with (blurtick * (M + 1))
    by (Z.to_euclidean_division_equations; lia).
  replace (Z.quot (2 * blurwire + 1) 2) with blurwire
    by (Z.to_euclidean_division_equations; lia).
  assert (Hlow : - (blurtick * (M + 1)) ≤ blury) by nia.
  nia.
Qed.

Lemma tier_ceiling_fits (cfg : Config) (blurtick tick_scale : Z) :
  0 ≤ blurtick → 1 ≤ tick_scale ≤ fMaxTickWidthScale cfg →
  fMaxTickWidthScale cfg ≤ blurtick + 1 →
  (blurtick + 1) * tick_scale - 1 ≤ blurtick * (fMaxTickWidthScale cfg + 1).
Proof. intros. nia. Qed.

(** C8, evaluated on two hits of width 4 on neighbouring wires at one tick,
    with tick radius 12, ceiling 5 and tiers 1 to 5: the estimated tick
    radius is 1, the kernel has 13 rows, the cell's tier is 4, the window of
    the cell reaches the tick offset 7, and the index of that offset, 175, is
    past the 169 weights of the kernel: [.at] throws and the blur fails. *)
Theorem Convolve_kernel_index_out_of_range :
  ∃ image widths m,
    ConvertRecobHitsToVector Examples.svc [Examples.hit_a; Examples.hit_b]
      = Ok (image, widths, m)
    ∧ reconfigure Examples.cfg_blur = Ok Examples.cfg_blur
    ∧ FindBlurringParameters Examples.cfg_blur Examples.Unit_level m = Ok (6, 1, 4, 1)
    ∧ kernel_dims Examples.cfg_blur 6 1 = (6, 13, 3, 13, 13)
    ∧ (raw_tick_scale Examples.cfg_blur (RMS Examples.hit_a)
         ≫= λ t, Ok (clamp_tick_scale Examples.cfg_blur t)) = Ok 4
    ∧ (0, 7) ∈ blur_window 13 3 4
    ∧ weight_index 13 13 0 7 = 175
    ∧ (∀ kernel : list Q, length kernel = Z.to_nat (13 * 13) →
         at_ kernel (weight_index 13 13 0 7) = Fail out_of_range)
    ∧ (∀ density fuel,
         GaussianBlur Examples.cfg_blur density Examples.Unit_level (S fuel) m image widths
         = Fail out_of_range).
Proof.
  eexists _, _, _. split; [vm_compute; reflexivity|].
  split; [reflexivity|].
  split; [vm_compute; reflexivity|].
  split; [reflexivity|].
  split; [vm_compute; reflexivity|].
  split; [apply (blur_window_spec 6 1 4 0 7); lia|].
  split; [reflexivity|].
  split.
  - intros kernel Hlen. unfold at_. simpl.
    rewrite lookup_ge_None_2; [reflexivity|]. rewrite Hlen. vm_compute. lia.
  - intros density fuel. vm_compute. reflexivity.
Qed.

(** ** Times and the time cut *)

Lemma Qltb_lt (x y : Q) : Qltb x y = true ↔ (x < y)%Q.
Proof.
  unfold Qltb. rewrite negb_true_iff, <- not_true_iff_false, Qle_bool_iff.
  split; [apply Qnot_le_lt | apply Qlt_not_le].
Qed.

Lemma Qltb_nlt (x y : Q) : Qltb x y = false ↔ (y <= x)%Q.
Proof.
  unfold Qltb. rewrite negb_false_iff. apply Qle_bool_iff.
Qed.

Lemma PassesTimeCut_spec (cfg : Config) (times : list Q) (time : Q) :
  PassesTimeCut cfg times time = true ↔
  ∃ timeIt, timeIt ∈ times ∧ (Qabs (time - timeIt) < fTimeThreshold cfg)%Q.
Proof.
  unfold PassesTimeCut. rewrite existsb_exists. split.
  - intros (t & Hin & Hlt). exists t. rewrite list_elem_of_In, <- Qltb_lt. auto.
  - intros (t & Hin & Hlt). exists t. rewrite <- list_elem_of_In, Qltb_lt. auto.
Qed.

Lemma fails_growing_time_cut_nonpositive (cfg : Config) (times : list Q) (time : Q) :
  Qltb 0 time = false → fails_growing_time_cut cfg times time = false.
Proof. intros H. unfold fails_growing_time_cut. rewrite H. reflexivity. Qed.

Lemma push_time_nonpositive (times : list Q) (time : Q) :
  Qltb 0 time = false → push_time times time = times.
Proof. intros H. unfold push_time. rewrite H. reflexivity. Qed.

Lemma push_time_positive (times : list Q) (time : Q) :
  Forall (λ t, (0 < t)%Q) times → Forall (λ t, (0 < t)%Q) (push_time times time).
Proof.
  intros H. unfold push_time. destruct (Qltb 0 time) eqn:Ht; [|exact H].
  apply Forall_app. split; [exact H|]. constructor; [|constructor].
  apply Qltb_lt. exact Ht.
Qed.

Lemma add_bin_times_positive (st st' : Grow) (bin : Z) (time : Q) :
  Forall (λ t, (0 < t)%Q) (times st) → add_bin st bin time = Ok st' →
  Forall (λ t, (0 < t)%Q) (times st').
Proof.
  intros Hpos H. unfold add_bin in H. inv_ok H. inversion H; subst; simpl.
  apply push_time_positive. exact Hpos.
Qed.

(** ** Hole filling *)

(** C3 as stated fails: at the one free cell of a 3 by 3 mask, with eight
    used neighbours and a threshold of 0, while the cluster has no recorded
    time, a synthetic cell (time -10000) passes the time cut of the growing
    phase and is refused by the hole filling. *)
Lemma hole_filling_has_no_bypass :
  ¬ (∀ cfg nbinsx used times bin time n,
       idx used bin = Ok false →
       NumNeighbours nbinsx used bin = Ok n →
       fills_hole cfg nbinsx used times bin time
       = Ok ((fNeighboursThreshold cfg <? n)%nat
             && negb (fails_growing_time_cut cfg times time))).
Proof.
  intros H.
  specialize (H Examples.cfg_hole 3 Examples.ring3x3 [] 4 (-10000 # 1)%Q 8%nat
                eq_refl eq_refl).
  vm_compute in H. discriminate.
Qed.

Lemma fills_hole_spec (cfg : Config) (nbinsx : Z) (used : list bool) (times : list Q)
    (bin : Z) (time : Q) (n : nat) :
  idx used bin = Ok false →
  NumNeighbours nbinsx used bin = Ok n →
  fills_hole cfg nbinsx used times bin time
  = Ok ((fNeighboursThreshold cfg <? n)%nat && PassesTimeCut cfg times time).
Proof. intros Hu Hn. unfold fills_hole. rewrite Hu. simpl. rewrite Hn. reflexivity. Qed.

(** C3, amended: in the hole filling an unused neighbour off the border is
    taken into the cluster exactly when the count of its used 8-neighbours
    exceeds the threshold and [PassesTimeCut] holds of its time, that is,
    when its time (-10000 for a cell without indexed hit) is within the time
    window of a recorded time.  Nothing is bypassed: with no recorded time no
    neighbour is taken. *)
Theorem hole_filling_admission (cfg : Config) (m : Members) (blurred : Image)
    (nbinsx nbinsy bin x y : Z) (st : Grow) (time : Q) (n : nat) :
  (x =? 0) && (y =? 0) = false →
  on_border nbinsx nbinsy (bin + x + y * nbinsx) = false →
  GetTimeOfBin m blurred (bin + x + y * nbinsx) = Ok time →
  idx (used st) (bin + x + y * nbinsx) = Ok false →
  NumNeighbours nbinsx (used st) (bin + x + y * nbinsx) = Ok n →
  hole_candidate cfg m blurred nbinsx nbinsy bin st (x, y)
  = (if (fNeighboursThreshold cfg <? n)%nat && PassesTimeCut cfg (times st) time
     then add_bin st (bin + x + y * nbinsx) time
     else Ok st)
  ∧ ((fNeighboursThreshold cfg <? n)%nat && PassesTimeCut cfg (times st) time = true ↔
     (fNeighboursThreshold cfg < n)%nat
     ∧ ∃ timeIt, timeIt ∈ times st ∧ (Qabs (time - timeIt) < fTimeThreshold cfg)%Q)
  ∧ (ConvertBinToRecobHit m blurred (bin + x + y * nbinsx) = Ok None →
     time = (-10000 # 1)%Q)
  ∧ (times st = [] → hole_candidate cfg m blurred nbinsx nbinsy bin st (x, y) = Ok st).
Proof.
  intros Hxy Hborder Htime Hu Hn.
  assert (Hstep : hole_candidate cfg m blurred nbinsx nbinsy bin st (x, y)
                  = (if (fNeighboursThreshold cfg <? n)%nat
                        && PassesTimeCut cfg (times st) time
                     then add_bin st (bin + x + y * nbinsx) time
                     else Ok st)).
  { unfold hole_candidate. rewrite Hxy, Hborder, Htime. simpl.
    rewrite (fills_hole_spec _ _ _ _ _ _ n Hu Hn). reflexivity. }
  split; [exact Hstep|]. split.
  { rewrite andb_true_iff, Nat.ltb_lt, PassesTimeCut_spec. reflexivity. }
  split.
  { intros Hnull. unfold GetTimeOfBin in Htime. rewrite Hnull in Htime.
    simpl in Htime. congruence. }
  intros Hnil. rewrite Hstep, Hnil. simpl. rewrite andb_false_r. reflexivity.
Qed.

Lemma hole_filling_admission_witness :
  hole_candidate Examples.cfg_hole (with_hit Examples.members_t1 2 0 Examples.hit_t0)
    Examples.blurred5x5 5 5 11 (mkGrow (<[11%nat := true]> (replicate 25 false)) [11] [1 # 1]%Q)
    (1, -1)
  = add_bin (mkGrow (<[11%nat := true]> (replicate 25 false)) [11] [1 # 1]%Q) 7 (0 # 1)%Q.
Proof.
  apply (hole_filling_admission Examples.cfg_hole
           (with_hit Examples.members_t1 2 0 Examples.hit_t0) Examples.blurred5x5
           5 5 11 1 (-1) (mkGrow (<[11%nat := true]> (replicate 25 false)) [11] [1 # 1]%Q)
           (0 # 1)%Q 1%nat); vm_compute; reflexivity.
Defined.

(** ** Cells whose hit has a time that is not positive *)

Lemma foldM_ext {A S : Type} (f g : S → A → result S) (l : list A) (s : S) :
  (∀ s a, f s a = g s a) → foldM f l s = foldM g l s.
Proof.
  intros Hfg. revert s. induction l as [|a l IH]; intros s; simpl; [reflexivity|].
  rewrite Hfg. destruct (g s a); simpl; [apply IH | reflexivity].
Qed.

Lemma hitmap_find_set (hm : gmap Z (gmap Z Hit)) (wire tick wire' tick' : Z) (h : Hit) :
  hitmap_find (hitmap_set hm wire tick h) wire' tick'
  = if decide (wire' = wire ∧ tick' = tick) then Some h else hitmap_find hm wire' tick'.
Proof.
  unfold hitmap_find, hitmap_set.
  destruct (decide (wire' = wire)) as [->|Hw].
  - rewrite lookup_insert_eq. destruct (decide (tick' = tick)) as [->|Ht].
    + rewrite lookup_insert_eq. rewrite decide_True by auto. reflexivity.
    + rewrite lookup_insert_ne by congruence. rewrite decide_False by tauto.
      destruct (hm !! wire); [reflexivity | apply lookup_empty].
  - rewrite lookup_insert_ne by congruence. rewrite decide_False by tauto. reflexivity.
Qed.

Lemma GetTimeOfBin_with_hit (m : Members) (wire tick : Z) (h : Hit) (image : Image) (bin : Z) :
  (PeakTime h <= 0)%Q →
  hitmap_find (fHitMap m) wire tick = None →
  time_alike (GetTimeOfBin (with_hit m wire tick h) image bin) (GetTimeOfBin m image bin).
Proof.
  intros Hneg Hnone. unfold GetTimeOfBin, ConvertBinToRecobHit.
  destruct (bin_xy image bin) as [[xbin ybin]|f]; simpl; [|left; reflexivity].
  rewrite hitmap_find_set. case_decide as Hcell; [|left; reflexivity].
  destruct Hcell as [-> ->]. rewrite Hnone. right.
  exists (PeakTime h), (-10000 # 1)%Q.
  split; [reflexivity|]. split; [reflexivity|].
  split; [apply Qltb_nlt; exact Hneg | reflexivity].
Qed.

Section TimeAlike.
Variable cfg : Config.
Variables m1 m2 : Members.
Variable blurred : Image.
Variables nbinsx nbinsy : Z.
Hypothesis Halike :
  ∀ bin, time_alike (GetTimeOfBin m1 blurred bin) (GetTimeOfBin m2 blurred bin).

Lemma grow_candidate_alike (binx biny : Z) (acc : Grow * nat) (xy : Z * Z) :
  grow_candidate cfg m1 blurred nbinsx nbinsy binx biny acc xy
  = grow_candidate cfg m2 blurred nbinsx nbinsy binx biny acc xy.
Proof.
  destruct acc as [st nadded], xy as [x y]. unfold grow_candidate.
  destruct (_ || _); [reflexivity|]. destruct (_ || _); [reflexivity|].
  destruct (idx (used st) _) as [[|]|f]; simpl; [reflexivity| |reflexivity].
  destruct (ConvertBinToCharge blurred _) as [charge|f]; simpl; [|reflexivity].
  destruct (Halike (ConvertWireTickToBin blurred x y))
    as [->|(t1 & t2 & -> & -> & H1 & H2)]; [reflexivity|]. simpl.
  rewrite !fails_growing_time_cut_nonpositive by assumption.
  unfold add_bin. rewrite !push_time_nonpositive by assumption. reflexivity.
Qed.

Lemma grow_scan_alike (fuel : nat) :
  ∀ clusBin acc,
    grow_scan cfg m1 blurred nbinsx nbinsy fuel clusBin acc
    = grow_scan cfg m2 blurred nbinsx nbinsy fuel clusBin acc.
Proof.
  induction fuel as [|fuel IH]; intros clusBin acc; simpl; [reflexivity|].
  destruct (cluster (fst acc) !! clusBin) as [bin|]; [|reflexivity].
  unfold grow_bin.
  rewrite (foldM_ext _ _ _ _ (grow_candidate_alike _ _)).
  destruct (foldM _ _ _); simpl; [apply IH | reflexivity].
Qed.

Lemma grow_loop_alike (scan_fuel fuel : nat) :
  ∀ st,
    grow_loop cfg m1 blurred nbinsx nbinsy fuel scan_fuel st
    = grow_loop cfg m2 blurred nbinsx nbinsy fuel scan_fuel st.
Proof.
  induction fuel as [|fuel IH]; intros st; simpl; [reflexivity|].
  rewrite grow_scan_alike.
  destruct (grow_scan cfg m2 _ _ _ _ _ _) as [[st' [|nadded]]|f]; simpl;
    [reflexivity | apply IH | reflexivity].
Qed.

Lemma seed_and_grow_alike (fuel : nat) (used0 : list bool) (bin : Z) :
  seed_and_grow cfg m1 blurred nbinsx nbinsy fuel used0 bin
  = seed_and_grow cfg m2 blurred nbinsx nbinsy fuel used0 bin.
Proof.
  unfold seed_and_grow. destruct (set_idx used0 bin true); simpl; [|reflexivity].
  destruct (Halike bin) as [->|(t1 & t2 & -> & -> & H1 & H2)]; simpl.
  - destruct (GetTimeOfBin m2 blurred bin); simpl; [apply grow_loop_alike | reflexivity].
  - rewrite !push_time_nonpositive by assumption. apply grow_loop_alike.
Qed.
End TimeAlike.

Section PositiveTimes.
Variable cfg : Config.
Variable m : Members.
Variable blurred : Image.
Variables nbinsx nbinsy : Z.

Lemma grow_candidate_positive (binx biny : Z) (acc acc' : Grow * nat) (xy : Z * Z) :
  positive_times (fst acc) →
  grow_candidate cfg m blurred nbinsx nbinsy binx biny acc xy = Ok acc' →
  positive_times (fst acc').
Proof.
  destruct acc as [st nadded], xy as [x y]. simpl. intros Hpos H.
  unfold grow_candidate in H.
  destruct (_ || _) in H; [inversion H; subst; exact Hpos|].
  destruct (_ || _) in H; [inversion H; subst; exact Hpos|].
  inv_ok H. destruct a; [inversion H; subst; exact Hpos|].
  inv_ok H. inv_ok H.
  destruct (fails_growing_time_cut _ _ _) in H; [inversion H; subst; exact Hpos|].
  destruct (Qltb _ _) in H; [|inversion H; subst; exact Hpos].
  inv_ok H. inversion H; subst. simpl. eapply add_bin_times_positive; eauto.
Qed.

Lemma grow_scan_positive (fuel : nat) :
  ∀ clusBin acc acc',
    positive_times (fst acc) →
    grow_scan cfg m blurred nbinsx nbinsy fuel clusBin acc = Ok acc' →
    positive_times (fst acc').
Proof.
  induction fuel as [|fuel IH]; intros clusBin acc acc' Hpos H; simpl in H; [discriminate|].
  destruct (cluster (fst acc) !! clusBin) as [bin|].
  - inv_ok H. eapply IH; [|exact H]. unfold grow_bin in Hok.
    eapply (foldM_preserves (λ a, positive_times (fst a))); [|exact Hpos|exact Hok].
    intros s a' s' Hs Hstep. eapply grow_candidate_positive; eauto.
  - inversion H; subst. exact Hpos.
Qed.

Lemma grow_loop_positive (scan_fuel fuel : nat) :
  ∀ st st',
    positive_times st →
    grow_loop cfg m blurred nbinsx nbinsy fuel scan_fuel st = Ok st' →
    positive_times st'.
Proof.
  induction fuel as [|fuel IH]; intros st st' Hpos H; simpl in H; [discriminate|].
  inv_ok H. destruct a as [st1 nadded].
  apply grow_scan_positive in Hok; [|exact Hpos]. simpl in Hok.
  destruct nadded; [inversion H; subst; exact Hok|]. eapply IH; eauto.
Qed.

Lemma seed_and_grow_positive (fuel : nat) (used0 : list bool) (bin : Z) (st : Grow) :
  seed_and_grow cfg m blurred nbinsx nbinsy fuel used0 bin = Ok st →
  Forall (λ t, (0 < t)%Q) (times st).
Proof.
  intros H. unfold seed_and_grow in H. inv_ok H. inv_ok H.
  eapply grow_loop_positive; [|exact H]. unfold positive_times. simpl.
  apply (push_time_positive []). constructor.
Qed.

Lemma hole_scan_positive (fuel : nat) :
  ∀ clusBin st st',
    Forall (λ t, (0 < t)%Q) (times st) →
    hole_scan cfg m blurred nbinsx nbinsy fuel clusBin st = Ok st' →
    Forall (λ t, (0 < t)%Q) (times st').
Proof.
  induction fuel as [|fuel IH]; intros clusBin st st' Hpos H; simpl in H; [discriminate|].
  destruct (cluster st !! clusBin) as [bin|].
  - inv_ok H. eapply IH; [|exact H]. unfold hole_bin in Hok.
    eapply (foldM_preserves positive_times); [|exact Hpos|exact Hok].
    intros s [x y] s' Hs Hstep. unfold hole_candidate in Hstep.
    destruct (_ && _) in Hstep; [inversion Hstep; subst; exact Hs|].
    destruct (on_border _ _ _) in Hstep; [inversion Hstep; subst; exact Hs|].
    inv_ok Hstep. inv_ok Hstep. destruct a1; [|inversion Hstep; subst; exact Hs].
    eapply add_bin_times_positive; eauto.
  - inversion H; subst. exact Hpos.
Qed.
End PositiveTimes.

(** C10 as stated fails in the hole filling: on a 5 by 5 image whose seed
    cell (1, 2) carries a hit of time 1, the neighbouring cell (2, 1), of
    charge below the neighbour threshold, is left out by the growing phase;
    the hole filling takes it when it carries a hit of time 0, which is
    within the window of the recorded time 1, and refuses it when it carries
    no hit, so the clusters are [[11; 7]] and [[11]]. *)
Lemma nonpositive_time_differs_in_hole_filling :
  ¬ (∀ cfg m wire tick h fuel blurred,
       (PeakTime h <= 0)%Q →
       hitmap_find (fHitMap m) wire tick = None →
       FindClusters_run cfg (with_hit m wire tick h) fuel blurred []
       = FindClusters_run cfg m fuel blurred []).
Proof.
  intros H.
  specialize (H Examples.cfg_hole Examples.members_t1 2 0 Examples.hit_t0 10%nat
                Examples.blurred5x5 ltac:(vm_compute; discriminate) eq_refl).
  vm_compute in H. discriminate.
Qed.

(** C10, amended: a cell whose indexed hit has a time that is not positive
    is treated like a cell without hit in the seeding and the growing: the
    outcome of [seed_and_grow] is the same with and without that hit in the
    index.  [GetTimeOfBin] gives -10000 for a cell without indexed hit, the
    times recorded by seeding, growing and hole filling are strictly
    positive, and a candidate whose time is not positive is not rejected by
    the time cut of the growing. *)
Theorem nonpositive_time_like_synthetic_in_growing (cfg : Config) (m : Members)
    (wire tick : Z) (h : Hit) :
  (PeakTime h <= 0)%Q →
  hitmap_find (fHitMap m) wire tick = None →
  (∀ blurred nbinsx nbinsy fuel used0 bin,
     seed_and_grow cfg (with_hit m wire tick h) blurred nbinsx nbinsy fuel used0 bin
     = seed_and_grow cfg m blurred nbinsx nbinsy fuel used0 bin)
  ∧ (∀ m' image bin,
       ConvertBinToRecobHit m' image bin = Ok None →
       GetTimeOfBin m' image bin = Ok (-10000 # 1)%Q)
  ∧ (∀ m' blurred nbinsx nbinsy fuel used0 bin st,
       seed_and_grow cfg m' blurred nbinsx nbinsy fuel used0 bin = Ok st →
       positive_times st)
  ∧ (∀ m' blurred nbinsx nbinsy fuel clusBin st st',
       positive_times st →
       hole_scan cfg m' blurred nbinsx nbinsy fuel clusBin st = Ok st' →
       positive_times st')
  ∧ (∀ times time, (time <= 0)%Q → fails_growing_time_cut cfg times time = false).
Proof.
  intros Hneg Hnone. split.
  { intros blurred nbinsx nbinsy fuel used0 bin. apply seed_and_grow_alike.
    intros b. apply GetTimeOfBin_with_hit; assumption. }
  split.
  { intros m' image bin Hnull. unfold GetTimeOfBin. rewrite Hnull. reflexivity. }
  split.
  { intros m' blurred nbinsx nbinsy fuel used0 bin st. apply seed_and_grow_positive. }
  split.
  { intros m' blurred nbinsx nbinsy fuel clusBin st st'. apply hole_scan_positive. }
  intros times time Htime. apply fails_growing_time_cut_nonpositive.
  apply Qltb_nlt. exact Htime.
Qed.

Lemma nonpositive_time_like_synthetic_in_growing_witness :
  seed_and_grow Examples.cfg_hole (with_hit Examples.members_t1 2 0 Examples.hit_t0)
    Examples.blurred5x5 5 5 10 (replicate 25 false) 11
  = seed_and_grow Examples.cfg_hole Examples.members_t1
      Examples.blurred5x5 5 5 10 (replicate 25 false) 11.
Proof.
  apply (nonpositive_time_like_synthetic_in_growing Examples.cfg_hole Examples.members_t1
           2 0 Examples.hit_t0); [vm_compute; discriminate | reflexivity].
Defined.

(** ** The image builder, cell by cell *)

Lemma at_insert {A : Type} (v : list A) (i j : Z) (a : A) :
  0 ≤ i → (Z.to_nat i < length v)%nat →
  at_ (<[Z.to_nat i := a]> v) j = if decide (j = i) then Ok a else at_ v j.
Proof.
  intros Hi Hlen. unfold at_. case_decide as Hj.
  - subst j. destruct (Z.ltb_spec i 0); [lia|].
    rewrite list_lookup_insert_eq by exact Hlen. reflexivity.
  - destruct (Z.ltb_spec j 0); [reflexivity|].
    rewrite list_lookup_insert_ne by lia. reflexivity.
Qed.

Lemma at2_set_at2 (image image' : Image) (x y x' y' : Z) (v : Q) :
  set_at2 image x y v = Ok image' →
  at2 image' x' y' = if decide (x' = x ∧ y' = y) then Ok v else at2 image x' y'.
Proof.
  intros H. unfold set_at2 in H. inv_ok H. inv_ok H. inversion H; subst; clear H.
  pose proof Hok as Hcol.
  apply at_Ok in Hok as (Hx & Hlx). apply at_Ok in Hok0 as (Hy & Hly).
  apply lookup_lt_Some in Hlx, Hly.
  unfold at2. rewrite at_insert by assumption.
  destruct (decide (x' = x)) as [->|Hne]; simpl.
  - rewrite at_insert by assumption. rewrite Hcol. simpl.
    destruct (decide (y' = y)) as [->|Hney].
    + rewrite decide_True by auto. reflexivity.
    + rewrite decide_False by tauto. reflexivity.
  - rewrite decide_False by tauto. reflexivity.
Qed.

Lemma at2_replicate (n k : nat) (x y : Z) (q : Q) :
  at2 (replicate n (replicate k 0%Q)) x y = Ok q → q = 0%Q.
Proof.
  unfold at2. intros H. inv_ok H.
  apply at_Ok in Hok as (_ & (-> & _)%lookup_replicate).
  apply at_Ok in H as (_ & (-> & _)%lookup_replicate). reflexivity.
Qed.

Section CellView.
Variable svc : Services.
Variables lowW lowT wire tick : Z.

Lemma fill_step_other (s s' : Image * Image * gmap Z (gmap Z Hit)) (h : Hit) :
  cell svc h ≠ (wire, tick) →
  fill_step svc lowW lowT s h = Ok s' →
  cell_view lowW lowT wire tick s' = cell_view lowW lowT wire tick s.
Proof.
  destruct s as [[image widths] hitmap]. intros Hcell H. unfold fill_step in H.
  inv_ok H. destruct (Qltb a (Integral h)); [|inversion H; subst; reflexivity].
  inv_ok H. inv_ok H. inversion H; subst; clear H. unfold cell_view.
  unfold cell in Hcell.
  rewrite (at2_set_at2 _ _ _ _ _ _ _ Hok0), (at2_set_at2 _ _ _ _ _ _ _ Hok1).
  rewrite hitmap_find_set.
  rewrite !decide_False; [reflexivity|..];
    intros [Hw Ht]; apply Hcell; f_equal; lia.
Qed.

Lemma fill_others (l : list Hit) :
  Forall (λ h, cell svc h ≠ (wire, tick)) l →
  ∀ s s', foldM (fill_step svc lowW lowT) l s = Ok s' →
          cell_view lowW lowT wire tick s' = cell_view lowW lowT wire tick s.
Proof.
  induction 1 as [|h l Hh _ IH]; intros s s' H; simpl in H.
  - inversion H; subst. reflexivity.
  - inv_ok H. rewrite (IH _ _ H). eapply fill_step_other; eauto.
Qed.

Lemma fill_step_same (s s' : Image * Image * gmap Z (gmap Z Hit)) (h : Hit) :
  cell svc h = (wire, tick) →
  fill_step svc lowW lowT s h = Ok s' →
  ∃ stored,
    fst (fst (cell_view lowW lowT wire tick s)) = Ok stored
    ∧ cell_view lowW lowT wire tick s'
      = if Qltb stored (Integral h) then (Ok (Integral h), Ok (RMS h), Some h)
        else cell_view lowW lowT wire tick s.
Proof.
  destruct s as [[image widths] hitmap]. intros Hcell H. unfold fill_step in H.
  unfold cell in Hcell. injection Hcell as Hw Ht. rewrite Hw, Ht in H.
  inv_ok H. exists a. split; [exact Hok|].
  destruct (Qltb a (Integral h)); [|inversion H; subst; reflexivity].
  inv_ok H. inv_ok H. inversion H; subst; clear H. unfold cell_view.
  rewrite (at2_set_at2 _ _ _ _ _ _ _ Hok0), (at2_set_at2 _ _ _ _ _ _ _ Hok1).
  rewrite hitmap_find_set. rewrite !decide_True by auto. reflexivity.
Qed.
End CellView.

Lemma vector_n_replicate {A : Type} (n : Z) (v : A) (l : list A) :
  vector_n n v = Ok l → ∃ k, l = replicate k v.
Proof.
  unfold vector_n. destruct (_ <? _); [discriminate|]. intros H. inversion H. eauto.
Qed.

Lemma higher_charge_max (h1 h2 : Hit) :
  (Integral h1 <= Integral (higher_charge h1 h2))%Q
  ∧ (Integral h2 <= Integral (higher_charge h1 h2))%Q.
Proof.
  unfold higher_charge. destruct (Qltb (Integral h1) (Integral h2)) eqn:Hlt.
  - apply Qltb_lt in Hlt. split; [apply Qlt_le_weak; exact Hlt | apply Qle_refl].
  - apply Qltb_nlt in Hlt. split; [apply Qle_refl | exact Hlt].
Qed.

(** C7 as stated fails: of three hits of charges 10, 20 and 30 on one cell,
    the first two leave the charge 30 of the third in the image, not the
    maximum 20 of the two; and two hits on one cell whose charges are 0 and
    -1 leave the cell at its initial 0 with no hit indexed. *)
Lemma charge_max_merge_fails :
  ¬ charge_max_merge Examples.svc [Examples.hit_c10; Examples.hit_c20; Examples.hit_c30]
      Examples.hit_c10 Examples.hit_c20
  ∧ ¬ charge_max_merge Examples.svc [Examples.hit_c0; Examples.hit_cneg]
        Examples.hit_c0 Examples.hit_cneg.
Proof.
  split; intros H.
  - destruct (ConvertRecobHitsToVector Examples.svc
                [Examples.hit_c10; Examples.hit_c20; Examples.hit_c30])
      as [[[image widths] m]|f] eqn:Hrun; [|vm_compute in Hrun; discriminate].
    unfold charge_max_merge in H. specialize (H image widths m Hrun).
    assert (Hc : match ConvertRecobHitsToVector Examples.svc
                         [Examples.hit_c10; Examples.hit_c20; Examples.hit_c30] with
                 | Ok (_, _, m) => hitmap_find (fHitMap m) 100 500
                 | Fail _ => None
                 end = Some Examples.hit_c30) by (vm_compute; reflexivity).
    rewrite Hrun in Hc.
    change (cell Examples.svc Examples.hit_c10) with (100, 500) in H.
    destruct H as (_ & _ & H). rewrite Hc in H. vm_compute in H. discriminate.
  - destruct (ConvertRecobHitsToVector Examples.svc [Examples.hit_c0; Examples.hit_cneg])
      as [[[image widths] m]|f] eqn:Hrun; [|vm_compute in Hrun; discriminate].
    unfold charge_max_merge in H. specialize (H image widths m Hrun).
    assert (Hc : match ConvertRecobHitsToVector Examples.svc
                         [Examples.hit_c0; Examples.hit_cneg] with
                 | Ok (_, _, m) => hitmap_find (fHitMap m) 100 500
                 | Fail _ => None
                 end = None) by (vm_compute; reflexivity).
    rewrite Hrun in Hc.
    change (cell Examples.svc Examples.hit_c0) with (100, 500) in H.
    destruct H as (_ & _ & H). rewrite Hc in H. discriminate.
Qed.

(** C7, amended: for two input hits on one image cell with no third hit on
    that cell, if the higher of the two charges is strictly positive, then
    after the image builder has run the charge image holds at that cell the
    maximum of the two charges, the width image the width of the
    higher-charge hit (the earlier hit when the charges are equal), and the
    hit index resolves the cell to that hit. *)
Theorem charge_max_merge_of_two_hits (svc : Services) (hits l1 l2 l3 : list Hit)
    (h1 h2 : Hit) :
  hits = l1 ++ h1 :: l2 ++ h2 :: l3 →
  cell svc h2 = cell svc h1 →
  Forall (λ h, cell svc h ≠ cell svc h1) (l1 ++ l2 ++ l3) →
  (0 < Integral (higher_charge h1 h2))%Q →
  charge_max_merge svc hits h1 h2
  ∧ (Integral h1 <= Integral (higher_charge h1 h2))%Q
  ∧ (Integral h2 <= Integral (higher_charge h1 h2))%Q.
Proof.
  intros -> Hsame Hothers Hpos. split; [|apply higher_charge_max].
  apply Forall_app in Hothers as [Hl1 Hothers]. apply Forall_app in Hothers as [Hl2 Hl3].
  intros image widths m H. destruct (cell svc h1) as [wire tick] eqn:Hcell.
  unfold ConvertRecobHitsToVector in H.
  destruct (extent svc _) as [[[lowerTick upperTick] lowerWire] upperWire].
  inv_ok H. inv_ok H. inv_ok H. destruct a1 as [[img wid] hitmap].
  inversion H; subst image widths m; clear H. simpl.
  set (lowW := lowerWire - 20) in *. set (lowT := lowerTick - 20) in *.
  apply vector_n_replicate in Hok as [k ->]. apply vector_n_replicate in Hok0 as [n ->].
  rewrite foldM_app in Hok1. inv_ok Hok1. rename a into s1.
  simpl in Hok1. inv_ok Hok1. rename a into s2.
  rewrite foldM_app in Hok1. inv_ok Hok1. rename a into s3.
  simpl in Hok1. inv_ok Hok1. rename a into s4.
  pose proof (fill_others svc lowW lowT wire tick l1 Hl1 _ _ Hok) as V1.
  destruct (fill_step_same svc lowW lowT wire tick _ _ h1 Hcell Hok0)
    as (stored1 & Hst1 & V2).
  pose proof (fill_others svc lowW lowT wire tick l2 Hl2 _ _ Hok2) as V3.
  destruct (fill_step_same svc lowW lowT wire tick _ _ h2 Hsame Hok3)
    as (stored2 & Hst2 & V4).
  pose proof (fill_others svc lowW lowT wire tick l3 Hl3 _ _ Hok1) as V5.
  assert (Hfinal : cell_view lowW lowT wire tick (img, wid, hitmap)
                   = (Ok (Integral (higher_charge h1 h2)), Ok (RMS (higher_charge h1 h2)),
                      Some (higher_charge h1 h2))).
  { rewrite V5, V4. rewrite V1 in Hst1, V2. simpl in Hst1.
    apply at2_replicate in Hst1. subst stored1.
    rewrite V3, V2 in Hst2 |- *. apply Qltb_lt in Hpos. unfold higher_charge in *.
    destruct (Qltb 0 (Integral h1)) eqn:E1; simpl in Hst2.
    - inversion Hst2; subst stored2.
      destruct (Qltb (Integral h1) (Integral h2)); reflexivity.
    - apply at2_replicate in Hst2. subst stored2.
      destruct (Qltb (Integral h1) (Integral h2)); [|congruence].
      rewrite Hpos. reflexivity. }
  unfold cell_view in Hfinal. inversion Hfinal. auto.
Qed.

Lemma charge_max_merge_of_two_hits_witness :
  ∃ image widths m,
    ConvertRecobHitsToVector Examples.svc
      [Examples.hit_c10; Examples.hit_b; Examples.hit_c20] = Ok (image, widths, m)
    ∧ at2 image (100 - fLowerHistWire m) (500 - fLowerHistTick m)
      = Ok (Integral Examples.hit_c20)
    ∧ at2 widths (100 - fLowerHistWire m) (500 - fLowerHistTick m)
      = Ok (RMS Examples.hit_c20)
    ∧ hitmap_find (fHitMap m) 100 500 = Some Examples.hit_c20.
Proof.
  destruct (ConvertRecobHitsToVector Examples.svc
              [Examples.hit_c10; Examples.hit_b; Examples.hit_c20])
    as [[[image widths] m]|f] eqn:Hrun; [|vm_compute in Hrun; discriminate].
  exists image, widths, m. split; [reflexivity|].
  destruct (charge_max_merge_of_two_hits Examples.svc _ [] [Examples.hit_b] []
              Examples.hit_c10 Examples.hit_c20 eq_refl eq_refl
              ltac:(repeat constructor; vm_compute; discriminate)
              ltac:(vm_compute; reflexivity)) as [Hmerge _].
  exact (Hmerge image widths m Hrun).
Defined.

(** ** The kernels of the blur *)

Lemma Kernel_value_gaussian (sigmawire sigmatick_scaled i j : Z) :
  sigmawire ≠ 0 → sigmatick_scaled ≠ 0 →
  Kernel.value sigmawire sigmatick_scaled i j
  = Some (Kernel.gaussian_density (IZR sigmawire) i
          * Kernel.gaussian_density (IZR sigmatick_scaled) j)%R.
Proof.
  intros Hw Ht. unfold Kernel.value, Kernel.gaussian_density.
  destruct (Z.eqb_spec sigmawire 0) as [|_]; [contradiction|].
  destruct (Z.eqb_spec sigmatick_scaled 0) as [|_]; [contradiction|]. simpl. f_equal.
  replace (IZR (- i * i)) with (- (IZR i * IZR i))%R
    by (rewrite mult_IZR, opp_IZR; ring).
  replace (IZR (- j * j)) with (- (IZR j * IZR j))%R
    by (rewrite mult_IZR, opp_IZR; ring).
  replace (2 * IZR sigmawire * IZR sigmawire * PI)%R
    with (2 * PI * (IZR sigmawire * IZR sigmawire))%R by ring.
  replace (2 * IZR sigmatick_scaled * IZR sigmatick_scaled * PI)%R
    with (2 * PI * (IZR sigmatick_scaled * IZR sigmatick_scaled))%R by ring.
  replace (2 * IZR sigmawire * IZR sigmawire)%R
    with (2 * (IZR sigmawire * IZR sigmawire))%R by ring.
  replace (2 * IZR sigmatick_scaled * IZR sigmatick_scaled)%R
    with (2 * (IZR sigmatick_scaled * IZR sigmatick_scaled))%R by ring.
  unfold Rdiv. ring.
Qed.

Lemma Kernel_value_not_a_number (sigmawire sigmatick_scaled i j : Z) :
  sigmawire = 0 ∨ sigmatick_scaled = 0 →
  Kernel.value sigmawire sigmatick_scaled i j = None.
Proof.
  intros H. unfold Kernel.value.
  destruct (Z.eqb_spec sigmawire 0) as [|Hw]; [reflexivity|].
  destruct (Z.eqb_spec sigmatick_scaled 0) as [|Ht]; [reflexivity|].
  destruct H; contradiction.
Qed.

(** A loop of checked writes at distinct indices inside the vector succeeds,
    and leaves at each index the value written there. *)
Lemma foldM_set_at {W : Type} (keyf : Z * Z → Z) (val : Z * Z → W) (n : nat)
    (l : list (Z * Z)) :
  (∀ p, p ∈ l → 0 ≤ keyf p < Z.of_nat n) →
  (∀ p q, p ∈ l → q ∈ l → keyf p = keyf q → p = q) →
  ∀ k0 : list W, length k0 = n →
    ∃ k, foldM (λ kernel p, set_at kernel (keyf p) (val p)) l k0 = Ok k
         ∧ length k = n
         ∧ (∀ p, p ∈ l → k !! Z.to_nat (keyf p) = Some (val p))
         ∧ (∀ i, (∀ p, p ∈ l → Z.to_nat (keyf p) ≠ i) → k !! i = k0 !! i).
Proof.
  induction l as [|a l IH]; intros Hrange Hinj k0 Hlen; simpl.
  - exists k0. repeat split; auto. intros p Hp%elem_of_nil. contradiction.
  - assert (Ha : 0 ≤ keyf a < Z.of_nat n) by (apply Hrange, elem_of_cons; auto).
    assert (Hset : set_at k0 (keyf a) (val a) = Ok (<[Z.to_nat (keyf a) := val a]> k0)).
    { unfold set_at, at_. destruct (Z.ltb_spec (keyf a) 0); [lia|].
      destruct (k0 !! Z.to_nat (keyf a)) eqn:Hl; [reflexivity|].
      apply lookup_ge_None in Hl. lia. }
    rewrite Hset. simpl.
    destruct (IH (λ p Hp, Hrange p (proj2 (elem_of_cons _ _ _) (or_intror Hp)))
                 (λ p q Hp Hq, Hinj p q (proj2 (elem_of_cons _ _ _) (or_intror Hp))
                                        (proj2 (elem_of_cons _ _ _) (or_intror Hq)))
                 (<[Z.to_nat (keyf a) := val a]> k0))
      as (k & Hk & Hklen & Hin & Hout); [rewrite length_insert; exact Hlen|].
    exists k. split; [exact Hk|]. split; [exact Hklen|]. split.
    + intros p Hp. destruct (decide (p ∈ l)) as [Hpl|Hpl]; [auto|].
      apply elem_of_cons in Hp as [->|Hp]; [|contradiction].
      rewrite Hout.
      * apply list_lookup_insert_eq. lia.
      * intros q Hq Heq. apply Hpl.
        assert (q = a); [|subst; exact Hq].
        apply Hinj; [apply elem_of_cons; auto | apply elem_of_cons; auto |].
        assert (0 ≤ keyf q) by (apply Hrange, elem_of_cons; auto). lia.
    + intros i Hi. rewrite Hout.
      * apply list_lookup_insert_ne. apply Hi, elem_of_cons. auto.
      * intros p Hp. apply Hi, elem_of_cons. auto.
Qed.

Lemma kernel_key_range (blurwire half i j : Z) :
  0 ≤ blurwire → 0 ≤ half →
  - blurwire ≤ i ≤ blurwire → - half ≤ j ≤ half →
  0 ≤ (2 * blurwire + 1) * (j + half) + (i + blurwire)
    < (2 * blurwire + 1) * (2 * half + 1).
Proof. intros. nia. Qed.

Lemma kernel_key_injective (blurwire half i j i' j' : Z) :
  0 ≤ blurwire →
  - blurwire ≤ i ≤ blurwire → - blurwire ≤ i' ≤ blurwire →
  (2 * blurwire + 1) * (j + half) + (i + blurwire)
  = (2 * blurwire + 1) * (j' + half) + (i' + blurwire) →
  i = i' ∧ j = j'.
Proof.
  intros Hw Hi Hi' Heq.
  assert (j = j') by nia. subst j'. lia.
Qed.

(** The kernel loop succeeds and writes the weight of every offset of its
    window at the key of that offset. *)
Lemma make_kernel_spec {W : Type} (zero : W) (value : Z → Z → Z → Z → W)
    (blurwire blurtick kernel_scale sw st : Z) :
  0 ≤ blurwire → 0 ≤ blurtick * kernel_scale →
  (2 * blurwire + 1) * (2 * blurtick * kernel_scale + 1) < 2 ^ 31 →
  ∃ kernel,
    make_kernel zero value (2 * blurwire + 1) (2 * blurtick * kernel_scale + 1)
                blurwire blurtick kernel_scale sw st = Ok kernel
    ∧ length kernel
      = Z.to_nat ((2 * blurwire + 1) * (2 * blurtick * kernel_scale + 1))
    ∧ ∀ i j,
        - blurwire ≤ i ≤ blurwire →
        - (blurtick * kernel_scale) ≤ j ≤ blurtick * kernel_scale →
        kernel !! Z.to_nat (kernel_key (2 * blurwire + 1) blurwire blurtick kernel_scale i j)
        = Some (value sw st i j).
Proof.
  intros Hw Hh Hsize. unfold make_kernel.
  set (kw := 2 * blurwire + 1) in *. set (kh := 2 * blurtick * kernel_scale + 1) in *.
  assert (Hpos : 0 ≤ kw * kh) by (subst kw kh; nia).
  rewrite vector_n_nonneg by lia. simpl.
  rewrite (foldM_ext _
             (λ kernel p, set_at kernel
                            (kernel_key kw blurwire blurtick kernel_scale (fst p) (snd p))
                            (value sw st (fst p) (snd p))))
    by (intros s [i j]; reflexivity).
  destruct (foldM_set_at
              (λ p, kernel_key kw blurwire blurtick kernel_scale (fst p) (snd p))
              (λ p, value sw st (fst p) (snd p))
              (Z.to_nat (kw * kh))
              (grid (range_incl (- blurwire) blurwire)
                    (range_incl (- blurtick * kernel_scale) (blurtick * kernel_scale))))
    with (k0 := replicate (Z.to_nat (kw * kh)) zero)
    as (k & Hk & Hlen & Hin & _).
  - intros [i j] [Hi Hj]%elem_of_grid. apply elem_of_range_incl in Hi, Hj. simpl.
    unfold kernel_key. rewrite Z2Nat.id by exact Hpos.
    pose proof (kernel_key_range blurwire (blurtick * kernel_scale) i j) as Hr.
    subst kw kh. lia.
  - intros [i j] [i' j'] [Hi Hj]%elem_of_grid [Hi' Hj']%elem_of_grid Heq.
    apply elem_of_range_incl in Hi, Hi'. simpl in Heq. unfold kernel_key in Heq.
    destruct (kernel_key_injective blurwire (blurtick * kernel_scale) i j i' j')
      as [-> ->]; auto.
  - apply length_replicate.
  - exists k. split; [exact Hk|]. split; [exact Hlen|].
    intros i j Hi Hj. apply (Hin (i, j)). apply elem_of_grid.
    rewrite !elem_of_range_incl. lia.
Qed.

Lemma make_kernels_succeeds {W : Type} (zero : W) (value : Z → Z → Z → Z → W)
    (kernel_width kernel_height blurwire blurtick kernel_scale sw st : Z) (tiers : list Z) :
  (∀ tier, tier ∈ tiers →
     ∃ kernel, make_kernel zero value kernel_width kernel_height blurwire blurtick
                           kernel_scale sw (st * tier) = Ok kernel) →
  ∀ acc : gmap Z (list W),
    ∃ kernels,
      foldM (λ allKernels tier,
               kernel ← make_kernel zero value kernel_width kernel_height blurwire blurtick
                                    kernel_scale sw (st * tier);
               Ok (<[tier := kernel]> allKernels)) tiers acc = Ok kernels.
Proof.
  induction tiers as [|t tiers IH]; intros Hall acc; simpl; [eauto|].
  destruct (Hall t) as [k Hk]; [apply elem_of_cons; auto|]. rewrite Hk. simpl.
  apply IH. intros tier Ht. apply Hall, elem_of_cons. auto.
Qed.

(** C4 as stated fails on the height of the kernel: with a ceiling of 5 and
    a tick radius of 1 the kernel has 13 rows, tick offsets -6 to 6, not the
    11 rows of a window of -5 to 5. *)
Lemma kernel_tick_window_exceeds_ceiling :
  ¬ (∀ cfg blurwire blurtick kernel_scale width height kernel_width kernel_height,
       kernel_dims cfg blurwire blurtick
       = (kernel_scale, width, height, kernel_width, kernel_height) →
       kernel_height = 2 * (blurtick * fMaxTickWidthScale cfg) + 1).
Proof.
  intros H. specialize (H Examples.cfg_blur 6 1 6 13 3 13 13 eq_refl).
  vm_compute in H. discriminate.
Qed.

(** C4, amended: for every configured tier t the kernel built for t has the
    tick sigma [sigmatick * t], a window of [-blurwire .. blurwire] in the
    wire axis and of [-blurtick * (ceiling + 1) .. blurtick * (ceiling + 1)]
    in the tick axis, the same width and height for all tiers, and, when the
    wire sigma and the tick sigma [sigmatick * t] are not 0, at the offset
    (i, j) the weight
    [exp(-i^2 / 2 sw^2) / sqrt(2 pi sw^2) * exp(-j^2 / 2 st(t)^2) / sqrt(2 pi st(t)^2)],
    which is not renormalised; for a sigma of 0 (the tier 0, which
    [reconfigure] accepts, gives the tick sigma 0) every weight of the kernel
    is a NaN.  The convolver reads the weight of an offset at the key under
    which the kernel loop wrote it. *)
Theorem GaussianBlur_kernels_are_gaussian (cfg : Config)
    (blurwire blurtick sigmawire sigmatick : Z)
    (kernel_scale width height kernel_width kernel_height : Z) :
  0 ≤ blurwire → 0 ≤ blurtick → -1 ≤ fMaxTickWidthScale cfg →
  kernel_dims cfg blurwire blurtick
  = (kernel_scale, width, height, kernel_width, kernel_height) →
  kernel_width * kernel_height < 2 ^ 31 →
  kernel_width = 2 * blurwire + 1
  ∧ kernel_height = 2 * (blurtick * (fMaxTickWidthScale cfg + 1)) + 1
  ∧ (∀ i j, weight_index kernel_width kernel_height i j
            = kernel_key kernel_width blurwire blurtick kernel_scale i j)
  ∧ ∃ kernels,
      make_kernels (Some 0%R) Kernel.value (fKernels cfg) kernel_width kernel_height
                   blurwire blurtick kernel_scale sigmawire sigmatick = Ok kernels
      ∧ ∀ tier, tier ∈ fKernels cfg →
          ∃ kernel,
            kernels !! tier = Some kernel
            ∧ length kernel = Z.to_nat (kernel_width * kernel_height)
            ∧ ∀ i j,
                - blurwire ≤ i ≤ blurwire →
                - (blurtick * (fMaxTickWidthScale cfg + 1)) ≤ j
                  ≤ blurtick * (fMaxTickWidthScale cfg + 1) →
                (sigmawire ≠ 0 → sigmatick * tier ≠ 0 →
                 kernel !! Z.to_nat (kernel_key kernel_width blurwire blurtick
                                                kernel_scale i j)
                 = Some (Some (Kernel.gaussian_density (IZR sigmawire) i
                               * Kernel.gaussian_density (IZR sigmatick * IZR tier) j)%R))
                ∧ (sigmawire = 0 ∨ sigmatick * tier = 0 →
                   kernel !! Z.to_nat (kernel_key kernel_width blurwire blurtick
                                                  kernel_scale i j)
                   = Some None).
Proof.
  intros Hw Ht HM Hdims Hsize. unfold kernel_dims in Hdims.
  inversion Hdims; subst; clear Hdims.
  set (M := fMaxTickWidthScale cfg) in *.
  assert (Hh : 0 ≤ blurtick * (M + 1)) by nia.
  split; [reflexivity|]. split; [lia|]. split.
  { intros i j. unfold weight_index, kernel_key.
    replace (Z.quot (2 * blurtick * (M + 1) + 1) 2) with (blurtick * (M + 1))
      by (Z.to_euclidean_division_equations; lia).
    replace (Z.quot (2 * blurwire + 1) 2) with blurwire
      by (Z.to_euclidean_division_equations; lia).
    lia. }
  assert (Hone : ∀ tier,
            ∃ kernel,
              make_kernel (Some 0%R) Kernel.value (2 * blurwire + 1)
                          (2 * blurtick * (M + 1) + 1)
                          blurwire blurtick (M + 1) sigmawire (sigmatick * tier) = Ok kernel
              ∧ length kernel
                = Z.to_nat ((2 * blurwire + 1) * (2 * blurtick * (M + 1) + 1))
              ∧ ∀ i j,
                  - blurwire ≤ i ≤ blurwire →
                  - (blurtick * (M + 1)) ≤ j ≤ blurtick * (M + 1) →
                  kernel !! Z.to_nat (kernel_key (2 * blurwire + 1) blurwire blurtick
                                                 (M + 1) i j)
                  = Some (Kernel.value sigmawire (sigmatick * tier) i j)).
  { intros tier. apply make_kernel_spec; assumption. }
  destruct (make_kernels_succeeds (Some 0%R) Kernel.value (2 * blurwire + 1)
              (2 * blurtick * (M + 1) + 1) blurwire blurtick (M + 1)
              sigmawire sigmatick (fKernels cfg))
    with (acc := (∅ : gmap Z (list (option R))))
    as [kernels Hk].
  { intros tier _. destruct (Hone tier) as (k & Hk & _). eauto. }
  exists kernels. split; [exact Hk|].
  intros tier Htier.
  destruct (make_kernels_lookup _ _ _ _ _ _ _ _ _ _ _ _ Hk) as [Hin _].
  destruct (Hin tier Htier) as (kernel & Hlook & Hmake).
  destruct (Hone tier) as (kernel' & Hmake' & Hlen & Hval).
  rewrite Hmake in Hmake'. inversion Hmake'; subst kernel'.
  exists kernel. split; [exact Hlook|]. split; [exact Hlen|].
  intros i j Hi Hj. rewrite (Hval i j Hi Hj). split.
  - intros Hsw Hst. rewrite Kernel_value_gaussian by assumption.
    rewrite mult_IZR. reflexivity.
  - intros Hzero. rewrite Kernel_value_not_a_number by exact Hzero. reflexivity.
Qed.

Lemma GaussianBlur_kernels_are_gaussian_witness :
  ∃ kernels,
    make_kernels (Some 0%R) Kernel.value (fKernels Examples.cfg_tiers) 3 13 1 1 6 1 1
    = Ok kernels
    ∧ ∀ tier, tier ∈ fKernels Examples.cfg_tiers →
        ∃ kernel,
          kernels !! tier = Some kernel
          ∧ length kernel = Z.to_nat (3 * 13)
          ∧ ∀ i j,
              - 1 ≤ i ≤ 1 →
              - (1 * (fMaxTickWidthScale Examples.cfg_tiers + 1)) ≤ j
                ≤ 1 * (fMaxTickWidthScale Examples.cfg_tiers + 1) →
              (1 ≠ 0 → 1 * tier ≠ 0 →
               kernel !! Z.to_nat (kernel_key 3 1 1 6 i j)
               = Some (Some (Kernel.gaussian_density (IZR 1) i
                             * Kernel.gaussian_density (IZR 1 * IZR tier) j)%R))
              ∧ (1 = 0 ∨ 1 * tier = 0 →
                 kernel !! Z.to_nat (kernel_key 3 1 1 6 i j) = Some None).
Proof.
  destruct (GaussianBlur_kernels_are_gaussian Examples.cfg_tiers 1 1 1 1 6 3 3 3 13)
    as (_ & _ & _ & H); [lia | lia | simpl; lia | reflexivity | reflexivity |].
  exact H.
Defined.

(** ** The image builder does not throw on a non-empty input *)

Lemma Qltb_inject_Z_r (q : Q) (z : Z) :
  Qltb q (inject_Z z) = true ↔ Qnum q < z * Zpos (Qden q).
Proof.
  rewrite Qltb_lt. unfold Qlt, inject_Z. simpl. lia.
Qed.

Lemma Qltb_inject_Z_l (q : Q) (z : Z) :
  Qltb (inject_Z z) q = true ↔ z * Zpos (Qden q) < Qnum q.
Proof.
  rewrite Qltb_lt. unfold Qlt, inject_Z. simpl. lia.
Qed.

Lemma Qtrunc_below (q : Q) (z : Z) :
  (Qltb q (inject_Z z) = true → Qtrunc q ≤ z)
  ∧ (Qltb q (inject_Z z) = false → z ≤ Qtrunc q).
Proof.
  rewrite <- not_true_iff_false, Qltb_inject_Z_r. unfold Qtrunc.
  destruct q as [n d]. simpl. pose proof (Pos2Z.is_pos d).
  split; intros Hq; Z.to_euclidean_division_equations; nia.
Qed.

Lemma Qtrunc_above (q : Q) (z : Z) :
  (Qltb (inject_Z z) q = true → z ≤ Qtrunc q)
  ∧ (Qltb (inject_Z z) q = false → Qtrunc q ≤ z).
Proof.
  rewrite <- not_true_iff_false, Qltb_inject_Z_l. unfold Qtrunc.
  destruct q as [n d]. simpl. pose proof (Pos2Z.is_pos d).
  split; intros Hq; Z.to_euclidean_division_equations; nia.
Qed.

Lemma extent_step_spec (svc : Services) (B : Z) (b : Z * Z * Z * Z) (h : Hit) :
  widens b (extent_step svc b h)
  ∧ covers (extent_step svc b h) (cell svc h)
  ∧ (bounded B b →
     - B ≤ fst (cell svc h) ≤ B → - B ≤ snd (cell svc h) ≤ B →
     bounded B (extent_step svc b h)).
Proof.
  destruct b as [[[lowerTick upperTick] lowerWire] upperWire].
  unfold extent_step, widens, covers, bounded, cell. simpl.
  pose proof (Qtrunc_below (PeakTime h) lowerTick) as [Hb1 Hb2].
  pose proof (Qtrunc_above (PeakTime h) upperTick) as [Ha1 Ha2].
  destruct (Qltb (PeakTime h) (inject_Z lowerTick));
    destruct (Qltb (inject_Z upperTick) (PeakTime h));
    destruct (Z.ltb_spec (GlobalWire svc (HitWireID h)) lowerWire);
    destruct (Z.ltb_spec upperWire (GlobalWire svc (HitWireID h)));
    repeat match goal with
           | H : ?a = ?a → _ |- _ => specialize (H eq_refl)
           | H : true = false → _ |- _ => clear H
           | H : false = true → _ |- _ => clear H
           end;
    lia.
Qed.

Lemma widens_covers (b b' : Z * Z * Z * Z) (c : Z * Z) :
  widens b b' → covers b c → covers b' c.
Proof.
  destruct b as [[[? ?] ?] ?], b' as [[[? ?] ?] ?]. unfold widens, covers. lia.
Qed.

Lemma extent_fold_spec (svc : Services) (B : Z) (hits : list Hit) :
  ∀ b,
    widens b (fold_left (extent_step svc) hits b)
    ∧ (∀ h, h ∈ hits → covers (fold_left (extent_step svc) hits b) (cell svc h))
    ∧ (bounded B b →
       (∀ h, h ∈ hits → - B ≤ fst (cell svc h) ≤ B ∧ - B ≤ snd (cell svc h) ≤ B) →
       bounded B (fold_left (extent_step svc) hits b)).
Proof.
  induction hits as [|h hits IH]; intros b; simpl.
  - split; [|split; [|auto]].
    + destruct b as [[[? ?] ?] ?]. unfold widens. lia.
    + intros h Hh%elem_of_nil. contradiction.
  - destruct (extent_step_spec svc B b h) as (Hw & Hc & Hb).
    destruct (IH (extent_step svc b h)) as (Hw' & Hc' & Hb').
    split; [|split].
    + destruct b as [[[? ?] ?] ?], (extent_step svc _ h) as [[[? ?] ?] ?],
        (fold_left _ _ _) as [[[? ?] ?] ?]. unfold widens in *. lia.
    + intros h' [->|Hh']%elem_of_cons; [|auto].
      eapply widens_covers; eauto.
    + intros Hbb Hall. apply Hb'.
      * apply Hb; [exact Hbb|apply Hall, elem_of_cons; auto..].
      * intros h' Hh'. apply Hall, elem_of_cons. auto.
Qed.

Lemma shape_replicate (n k : nat) : shape n k (replicate n (replicate k 0%Q)).
Proof.
  split; [apply length_replicate|]. apply Forall_replicate, length_replicate.
Qed.

Lemma shape_at2 (n k : nat) (image : Image) (x y : Z) :
  shape n k image → 0 ≤ x < Z.of_nat n → 0 ≤ y < Z.of_nat k →
  ∃ q, at2 image x y = Ok q.
Proof.
  intros [Hn Hk] Hx Hy. unfold at2, at_.
  destruct (Z.ltb_spec x 0); [lia|].
  destruct (image !! Z.to_nat x) as [col|] eqn:Hcol;
    [|apply lookup_ge_None in Hcol; lia].
  simpl. destruct (Z.ltb_spec y 0); [lia|].
  rewrite Forall_forall in Hk. specialize (Hk col (list_elem_of_lookup_2 _ _ _ Hcol)).
  destruct (col !! Z.to_nat y) as [q|] eqn:Hq; [eauto|].
  apply lookup_ge_None in Hq. lia.
Qed.

Lemma shape_set_at2 (n k : nat) (image : Image) (x y : Z) (v : Q) :
  shape n k image → 0 ≤ x < Z.of_nat n → 0 ≤ y < Z.of_nat k →
  ∃ image', set_at2 image x y v = Ok image' ∧ shape n k image'.
Proof.
  intros [Hn Hk] Hx Hy. unfold set_at2, at_.
  destruct (Z.ltb_spec x 0); [lia|].
  destruct (image !! Z.to_nat x) as [col|] eqn:Hcol;
    [|apply lookup_ge_None in Hcol; lia].
  simpl. destruct (Z.ltb_spec y 0); [lia|].
  pose proof Hk as Hk'. rewrite Forall_forall in Hk'.
  specialize (Hk' col (list_elem_of_lookup_2 _ _ _ Hcol)).
  destruct (col !! Z.to_nat y) as [q|] eqn:Hq;
    [|apply lookup_ge_None in Hq; lia].
  simpl. eexists. split; [reflexivity|]. split.
  - rewrite length_insert. exact Hn.
  - apply Forall_insert; [exact Hk|]. rewrite length_insert. exact Hk'.
Qed.

Lemma fill_succeeds (svc : Services) (lowW lowT : Z) (n k : nat) (hits : list Hit) :
  (∀ h, h ∈ hits →
     0 ≤ fst (cell svc h) - lowW < Z.of_nat n ∧ 0 ≤ snd (cell svc h) - lowT < Z.of_nat k) →
  ∀ image widths hitmap,
    shape n k image → shape n k widths →
    ∃ s', foldM (fill_step svc lowW lowT) hits (image, widths, hitmap) = Ok s'.
Proof.
  induction hits as [|h hits IH]; intros Hall image widths hitmap Hi Hw; simpl; [eauto|].
  destruct (Hall h) as [Hx Hy]; [apply elem_of_cons; auto|]. unfold cell in Hx, Hy.
  simpl in Hx, Hy.
  assert (Hrest : ∀ h', h' ∈ hits →
            0 ≤ fst (cell svc h') - lowW < Z.of_nat n
            ∧ 0 ≤ snd (cell svc h') - lowT < Z.of_nat k).
  { intros h' Hh'. apply Hall, elem_of_cons. auto. }
  unfold fill_step at 1.
  destruct (shape_at2 n k image _ _ Hi Hx Hy) as [stored ->]. simpl.
  destruct (Qltb stored (Integral h)).
  - destruct (shape_set_at2 n k image _ _ (Integral h) Hi Hx Hy) as (image' & -> & Hi').
    destruct (shape_set_at2 n k widths _ _ (RMS h) Hw Hx Hy) as (widths' & -> & Hw').
    simpl. apply IH; assumption.
  - simpl. apply IH; assumption.
Qed.

(** With at least one hit, and wires, ticks and service values that are
    [int]s of magnitude below 2^30, the image builder returns its images. *)
Lemma ConvertRecobHitsToVector_succeeds (svc : Services) (hits : list Hit) :
  hits ≠ [] →
  - 2 ^ 30 ≤ ReadOutWindowSize svc ≤ 2 ^ 30 →
  - 2 ^ 30 ≤ MaxWires svc ≤ 2 ^ 30 →
  (∀ h, h ∈ hits →
     - 2 ^ 30 ≤ fst (cell svc h) ≤ 2 ^ 30 ∧ - 2 ^ 30 ≤ snd (cell svc h) ≤ 2 ^ 30) →
  ∃ image widths m, ConvertRecobHitsToVector svc hits = Ok (image, widths, m).
Proof.
  intros Hne Hr Hw Hall. unfold ConvertRecobHitsToVector, extent.
  destruct (extent_fold_spec svc (2 ^ 30) hits (ReadOutWindowSize svc, 0, MaxWires svc, 0))
    as (_ & Hcov & Hb).
  specialize (Hb ltac:(unfold bounded; lia) Hall).
  destruct (fold_left _ _ _) as [[[lowerTick upperTick] lowerWire] upperWire].
  unfold bounded in Hb. unfold covers in Hcov.
  assert (Hdims : lowerWire ≤ upperWire ∧ lowerTick ≤ upperTick).
  { destruct hits as [|h0 hits]; [congruence|].
    pose proof (Hcov h0 ltac:(apply elem_of_cons; auto)). lia. }
  rewrite vector_n_nonneg by lia. simpl. rewrite vector_n_nonneg by lia. simpl.
  destruct (fill_succeeds svc (lowerWire - 20) (lowerTick - 20)
              (Z.to_nat (upperWire + 20 - (lowerWire - 20)))
              (Z.to_nat (upperTick + 20 - (lowerTick - 20))) hits)
    with (image := replicate (Z.to_nat (upperWire + 20 - (lowerWire - 20)))
                     (replicate (Z.to_nat (upperTick + 20 - (lowerTick - 20))) 0%Q))
         (widths := replicate (Z.to_nat (upperWire + 20 - (lowerWire - 20)))
                      (replicate (Z.to_nat (upperTick + 20 - (lowerTick - 20))) 0%Q))
         (hitmap := (∅ : gmap Z (gmap Z Hit)))
    as [[[image widths] hitmap] Hfill].
  - intros h Hh. specialize (Hcov h Hh). lia.
  - apply shape_replicate.
  - apply shape_replicate.
  - rewrite Hfill. simpl. eauto.
Qed.

(** ** The loop budget of the region grower is never exhausted *)

Lemma bind_terminates {A B : Type} (r : result A) (k : A → result B) :
  terminates r → (∀ a, r = Ok a → terminates (k a)) → terminates (r ≫= k).
Proof.
  intros Hr Hk. destruct r as [a|f]; simpl; [apply Hk; reflexivity|].
  intros H. apply Hr. congruence.
Qed.

Lemma foldM_terminates {A S : Type} (f : S → A → result S) (l : list A) :
  (∀ s a, terminates (f s a)) → ∀ s, terminates (foldM f l s).
Proof.
  intros Hf. induction l as [|a l IH]; intros s; simpl; [discriminate|].
  apply bind_terminates; [apply Hf | intros s' _; apply IH].
Qed.

(** One step of the analysis of a computation built from accesses, tests
    and binds. *)
Ltac terminates_step :=
  match goal with
  | |- terminates (Ok _) => discriminate
  | |- terminates (Fail _) => discriminate
  | |- terminates (foldM _ _ _) => apply foldM_terminates; intros
  | |- terminates (_ ≫= _) => apply bind_terminates; [|intros ? _]
  | |- terminates (if ?c then _ else _) => destruct c
  | |- terminates (match ?x with _ => _ end) => destruct x
  end.

Lemma idx_terminates {A : Type} (v : list A) (i : Z) : terminates (idx v i).
Proof. unfold idx. repeat terminates_step. Qed.

Lemma at_terminates {A : Type} (v : list A) (i : Z) : terminates (at_ v i).
Proof. unfold at_. repeat terminates_step. Qed.

Lemma set_idx_terminates {A : Type} (v : list A) (i : Z) (a : A) :
  terminates (set_idx v i a).
Proof. unfold set_idx. repeat terminates_step. Qed.

Lemma ConvertBinToCharge_terminates (image : Image) (bin : Z) :
  terminates (ConvertBinToCharge image bin).
Proof.
  unfold ConvertBinToCharge, bin_xy, at2.
  repeat first [apply at_terminates | terminates_step].
Qed.

Lemma GetTimeOfBin_terminates (m : Members) (image : Image) (bin : Z) :
  terminates (GetTimeOfBin m image bin).
Proof.
  unfold GetTimeOfBin, ConvertBinToRecobHit, bin_xy. repeat terminates_step.
Qed.

Lemma add_bin_terminates (st : Grow) (bin : Z) (time : Q) :
  terminates (add_bin st bin time).
Proof. unfold add_bin. repeat first [apply set_idx_terminates | terminates_step]. Qed.

Lemma NumNeighbours_terminates (nbinsx : Z) (used : list bool) (bin : Z) :
  terminates (NumNeighbours nbinsx used bin).
Proof.
  unfold NumNeighbours. repeat first [apply at_terminates | terminates_step].
Qed.

Lemma unmark_all_terminates (used : list bool) (cluster : list Z) :
  terminates (unmark_all used cluster).
Proof. unfold unmark_all. repeat first [apply set_idx_terminates | terminates_step]. Qed.

Lemma grow_bin_terminates (cfg : Config) (m : Members) (blurred : Image)
    (nbinsx nbinsy : Z) (acc : Grow * nat) (bin : Z) :
  terminates (grow_bin cfg m blurred nbinsx nbinsy acc bin).
Proof.
  unfold grow_bin, grow_candidate.
  repeat first [apply idx_terminates | apply ConvertBinToCharge_terminates
               | apply GetTimeOfBin_terminates | apply add_bin_terminates
               | terminates_step].
Qed.

Lemma hole_bin_terminates (cfg : Config) (m : Members) (blurred : Image)
    (nbinsx nbinsy : Z) (st : Grow) (bin : Z) :
  terminates (hole_bin cfg m blurred nbinsx nbinsy st bin).
Proof.
  unfold hole_bin, hole_candidate, fills_hole.
  repeat first [apply idx_terminates | apply NumNeighbours_terminates
               | apply GetTimeOfBin_terminates | apply add_bin_terminates
               | terminates_step].
Qed.

Lemma prune_scan_terminates (cfg : Config) (blurred : Image) (nbinsx nbinsy : Z) (k : nat) :
  ∀ acc, terminates (prune_scan cfg blurred nbinsx nbinsy k acc).
Proof.
  induction k as [|clusBin IH]; intros [st nremoved]; simpl; [discriminate|].
  repeat first [apply IH | apply idx_terminates | apply NumNeighbours_terminates
               | apply set_idx_terminates | apply ConvertBinToCharge_terminates
               | terminates_step].
Qed.

Lemma free_cells_insert (used : list bool) (i : nat) (v x : bool) :
  used !! i = Some v →
  (free_cells (<[i := x]> used) + (if v then 0 else 1)
   = free_cells used + (if x then 0 else 1))%nat.
Proof.
  intros Hv. pose proof (lookup_lt_Some _ _ _ Hv) as Hlt.
  rewrite insert_take_drop by exact Hlt.
  rewrite <- (take_drop_middle used i v Hv) at 3.
  unfold free_cells. rewrite !List.filter_app, !length_app. simpl.
  destruct v, x; simpl; lia.
Qed.

Lemma add_bin_budget (st st' : Grow) (bin : Z) (time : Q) :
  idx (used st) bin = Ok false →
  add_bin st bin time = Ok st' →
  length (used st') = length (used st)
  ∧ (free_cells (used st') + 1 = free_cells (used st))%nat
  ∧ cluster st' = cluster st ++ [bin].
Proof.
  intros (_ & Hfree)%idx_Ok H. unfold add_bin in H. inv_ok H.
  inversion H; subst; clear H. simpl.
  apply set_idx_Ok in Hok as (_ & _ & ->).
  split; [apply length_insert|]. split; [|reflexivity].
  pose proof (free_cells_insert _ _ _ true Hfree) as Hcount. simpl in Hcount. lia.
Qed.

Lemma same_budget_refl (st : Grow) : same_budget st st.
Proof. unfold same_budget. auto. Qed.

Lemma same_budget_trans (st1 st2 st3 : Grow) :
  same_budget st1 st2 → same_budget st2 st3 → same_budget st1 st3.
Proof. unfold same_budget. lia. Qed.

Lemma add_bin_same_budget (st st' : Grow) (bin : Z) (time : Q) :
  idx (used st) bin = Ok false →
  add_bin st bin time = Ok st' →
  same_budget st st' ∧ length (cluster st') = S (length (cluster st)).
Proof.
  intros Hfree H. destruct (add_bin_budget _ _ _ _ Hfree H) as (Hlen & Hcount & Hcl).
  unfold same_budget. rewrite Hcl, length_app. simpl. lia.
Qed.

Lemma free_cells_le (used : list bool) : (free_cells used ≤ length used)%nat.
Proof. unfold free_cells. apply List.filter_length_le. Qed.

Section Budget.
Variable cfg : Config.
Variable m : Members.
Variable blurred : Image.
Variables nbinsx nbinsy : Z.

Lemma grow_candidate_grew (binx biny : Z) (acc acc' : Grow * nat) (xy : Z * Z) :
  grow_candidate cfg m blurred nbinsx nbinsy binx biny acc xy = Ok acc' → grew acc acc'.
Proof.
  destruct acc as [st nadded], xy as [x y]. intros H.
  assert (Hsame : grew (st, nadded) (st, nadded))
    by (split; [apply same_budget_refl | reflexivity]).
  unfold grow_candidate in H.
  destruct (_ || _) in H; [inversion H; subst; exact Hsame|].
  destruct (_ || _) in H; [inversion H; subst; exact Hsame|].
  inv_ok H. destruct a; [inversion H; subst; exact Hsame|].
  inv_ok H. inv_ok H.
  destruct (fails_growing_time_cut _ _ _) in H; [inversion H; subst; exact Hsame|].
  destruct (Qltb _ _) in H; [|inversion H; subst; exact Hsame].
  inv_ok H. inversion H; subst; clear H.
  destruct (add_bin_same_budget _ _ _ _ Hok Hok2) as [Hb Hl].
  split; [exact Hb|]. simpl. lia.
Qed.

Lemma grew_trans (a1 a2 a3 : Grow * nat) : grew a1 a2 → grew a2 a3 → grew a1 a3.
Proof.
  intros [Hb1 Hn1] [Hb2 Hn2]. split; [eapply same_budget_trans; eauto | lia].
Qed.

Lemma grow_bin_grew (acc acc' : Grow * nat) (bin : Z) :
  grow_bin cfg m blurred nbinsx nbinsy acc bin = Ok acc' → grew acc acc'.
Proof.
  unfold grow_bin. intros H.
  eapply (foldM_preserves (grew acc)); [| |exact H].
  - intros s a s' Hs Hstep. eapply grew_trans; [exact Hs|].
    eapply grow_candidate_grew; eauto.
  - split; [apply same_budget_refl | reflexivity].
Qed.

Lemma grow_scan_grew (fuel : nat) :
  ∀ clusBin acc acc',
    grow_scan cfg m blurred nbinsx nbinsy fuel clusBin acc = Ok acc' → grew acc acc'.
Proof.
  induction fuel as [|fuel IH]; intros clusBin acc acc' H; simpl in H; [discriminate|].
  destruct (cluster (fst acc) !! clusBin) as [bin|].
  - inv_ok H. eapply grew_trans; [eapply grow_bin_grew; eauto | eapply IH; eauto].
  - inversion H; subst. split; [apply same_budget_refl | reflexivity].
Qed.

Lemma grow_scan_terminates (fuel : nat) :
  ∀ clusBin acc,
    (free_cells (used (fst acc)) + length (cluster (fst acc)) - clusBin < fuel)%nat →
    terminates (grow_scan cfg m blurred nbinsx nbinsy fuel clusBin acc).
Proof.
  induction fuel as [|fuel IH]; intros clusBin acc Hfuel; [lia|]. simpl.
  destruct (cluster (fst acc) !! clusBin) as [bin|] eqn:Hbin; [|discriminate].
  apply lookup_lt_Some in Hbin.
  apply bind_terminates; [apply grow_bin_terminates|].
  intros acc' Hstep. apply IH.
  apply grow_bin_grew in Hstep as [(_ & Hsum & Hlen) _]. lia.
Qed.

Lemma grow_loop_same_budget (scan_fuel fuel : nat) :
  ∀ st st',
    grow_loop cfg m blurred nbinsx nbinsy fuel scan_fuel st = Ok st' → same_budget st st'.
Proof.
  induction fuel as [|fuel IH]; intros st st' H; simpl in H; [discriminate|].
  inv_ok H. destruct a as [st1 nadded].
  apply grow_scan_grew in Hok as [Hb _]. simpl in Hb.
  destruct nadded; [inversion H; subst; exact Hb|].
  eapply same_budget_trans; [exact Hb | eapply IH; eauto].
Qed.

Lemma grow_loop_terminates (scan_fuel fuel : nat) :
  ∀ st,
    (free_cells (used st) + length (cluster st) < scan_fuel)%nat →
    (free_cells (used st) < fuel)%nat →
    terminates (grow_loop cfg m blurred nbinsx nbinsy fuel scan_fuel st).
Proof.
  induction fuel as [|fuel IH]; intros st Hscan Hfuel; [lia|]. simpl.
  apply bind_terminates; [apply grow_scan_terminates; simpl; lia|].
  intros [st1 nadded] Hpass. destruct nadded; [discriminate|].
  apply grow_scan_grew in Hpass as [(_ & Hsum & Hlen) Hn]. simpl in *.
  apply IH; lia.
Qed.

Lemma hole_candidate_same_budget (bin : Z) (st st' : Grow) (xy : Z * Z) :
  hole_candidate cfg m blurred nbinsx nbinsy bin st xy = Ok st' → same_budget st st'.
Proof.
  destruct xy as [x y]. intros H. unfold hole_candidate in H.
  destruct (_ && _) in H; [inversion H; subst; apply same_budget_refl|].
  destruct (on_border _ _ _) in H; [inversion H; subst; apply same_budget_refl|].
  inv_ok H. inv_ok H. destruct a0; [|inversion H; subst; apply same_budget_refl].
  apply fills_hole_free in Hok0.
  apply (add_bin_same_budget _ _ _ _ Hok0 H).
Qed.

Lemma hole_bin_same_budget (st st' : Grow) (bin : Z) :
  hole_bin cfg m blurred nbinsx nbinsy st bin = Ok st' → same_budget st st'.
Proof.
  unfold hole_bin. intros H.
  eapply (foldM_preserves (same_budget st)); [| |exact H].
  - intros s a s' Hs Hstep. eapply same_budget_trans; [exact Hs|].
    eapply hole_candidate_same_budget; eauto.
  - apply same_budget_refl.
Qed.

Lemma hole_scan_same_budget (fuel : nat) :
  ∀ clusBin st st',
    hole_scan cfg m blurred nbinsx nbinsy fuel clusBin st = Ok st' → same_budget st st'.
Proof.
  induction fuel as [|fuel IH]; intros clusBin st st' H; simpl in H; [discriminate|].
  destruct (cluster st !! clusBin) as [bin|].
  - inv_ok H. eapply same_budget_trans; [eapply hole_bin_same_budget; eauto|].
    eapply IH; eauto.
  - inversion H; subst. apply same_budget_refl.
Qed.

Lemma hole_scan_terminates (fuel : nat) :
  ∀ clusBin st,
    (free_cells (used st) + length (cluster st) - clusBin < fuel)%nat →
    terminates (hole_scan cfg m blurred nbinsx nbinsy fuel clusBin st).
Proof.
  induction fuel as [|fuel IH]; intros clusBin st Hfuel; [lia|]. simpl.
  destruct (cluster st !! clusBin) as [bin|] eqn:Hbin; [|discriminate].
  apply lookup_lt_Some in Hbin.
  apply bind_terminates; [apply hole_bin_terminates|].
  intros st' Hstep. apply IH.
  apply hole_bin_same_budget in Hstep as (_ & Hsum & Hlen). lia.
Qed.

Lemma prune_scan_length (k : nat) :
  ∀ st nremoved st' nremoved',
    (k ≤ length (cluster st))%nat →
    prune_scan cfg blurred nbinsx nbinsy k (st, nremoved) = Ok (st', nremoved') →
    length (used st') = length (used st)
    ∧ (length (cluster st') + nremoved' = length (cluster st) + nremoved)%nat.
Proof.
  induction k as [|clusBin IH]; intros st nremoved st' nremoved' Hk H; simpl in H.
  - inversion H; subst. auto.
  - inv_ok H. destruct (on_border _ _ _) in H; [eapply IH; eauto; lia|].
    inv_ok H. destruct (_ <? _) in H; [|eapply IH; eauto; lia].
    inv_ok H. inv_ok H.
    apply IH in H; simpl; [|rewrite length_delete; [lia|]].
    + simpl in H. apply set_idx_Ok in Hok1 as (_ & _ & ->).
      rewrite length_insert in H. rewrite length_delete in H; [lia|].
      apply lookup_lt_is_Some. lia.
    + apply lookup_lt_is_Some. lia.
Qed.

Lemma prune_loop_length (fuel : nat) :
  ∀ st st',
    prune_loop cfg blurred nbinsx nbinsy fuel st = Ok st' →
    length (used st') = length (used st).
Proof.
  induction fuel as [|fuel IH]; intros st st' H; simpl in H; [discriminate|].
  inv_ok H. destruct a as [st1 nremoved].
  apply prune_scan_length in Hok as [Hu _]; [|lia].
  destruct nremoved; [inversion H; subst; exact Hu|].
  rewrite (IH _ _ H). exact Hu.
Qed.

Lemma prune_loop_terminates (fuel : nat) :
  ∀ st, (length (cluster st) < fuel)%nat →
        terminates (prune_loop cfg blurred nbinsx nbinsy fuel st).
Proof.
  induction fuel as [|fuel IH]; intros st Hfuel; [lia|]. simpl.
  apply bind_terminates; [apply prune_scan_terminates|].
  intros [st1 nremoved] Hpass. destruct nremoved; [discriminate|].
  apply prune_scan_length in Hpass as [_ Hlen]; [|lia]. apply IH. lia.
Qed.
End Budget.

Lemma marked_cells_count (cells : list Z) :
  ∀ used,
    NoDup cells → (∀ b, b ∈ cells → marked used b) →
    (length cells + free_cells used ≤ length used)%nat.
Proof.
  induction cells as [|c cells IH]; intros used Hnd Hm; simpl.
  - apply free_cells_le.
  - apply NoDup_cons in Hnd as [Hnotin Hnd].
    destruct (Hm c) as [Hc Hlook]; [apply elem_of_cons; auto|].
    specialize (IH (<[Z.to_nat c := false]> used) Hnd).
    rewrite length_insert in IH.
    pose proof (free_cells_insert _ _ _ false Hlook) as Hcount. simpl in Hcount.
    assert (length cells + free_cells (<[Z.to_nat c := false]> used) ≤ length used)%nat;
      [|lia].
    apply IH. intros b Hb. destruct (Hm b) as [Hb0 Hbl]; [apply elem_of_cons; auto|].
    split; [exact Hb0|]. rewrite list_lookup_insert_ne; [exact Hbl|].
    intros Heq. apply Hnotin. assert (b = c) by lia. subst. exact Hb.
Qed.

Lemma grower_inv_budget (allcluster : list (list Z)) (st : Grow) :
  grower_inv allcluster st →
  (free_cells (used st) + length (cluster st) ≤ length (used st))%nat.
Proof.
  intros [Hnd Hm]. apply NoDup_app in Hnd as (Hc & _ & _).
  pose proof (marked_cells_count (cluster st) (used st) Hc) as H.
  assert (length (cluster st) + free_cells (used st) ≤ length (used st))%nat; [|lia].
  apply H. intros b Hb. apply Hm, elem_of_app. auto.
Qed.

Lemma unmark_all_length (cells : list Z) :
  ∀ used used', unmark_all used cells = Ok used' → length used' = length used.
Proof.
  unfold unmark_all. induction cells as [|c cells IH]; intros used used' H; simpl in H.
  - inversion H; subst. reflexivity.
  - inv_ok H. rewrite (IH _ _ H). apply set_idx_Ok in Hok as (_ & _ & ->).
    apply length_insert.
Qed.

Lemma seed_and_grow_length (cfg : Config) (m : Members) (blurred : Image)
    (nbinsx nbinsy : Z) (fuel : nat) (used0 : list bool) (bin : Z) (st : Grow) :
  seed_and_grow cfg m blurred nbinsx nbinsy fuel used0 bin = Ok st →
  length (used st) = length used0.
Proof.
  intros H. unfold seed_and_grow in H. inv_ok H. inv_ok H.
  apply grow_loop_same_budget in H as (Hlen & _). simpl in Hlen. rewrite Hlen.
  apply set_idx_Ok in Hok as (_ & _ & ->). apply length_insert.
Qed.

Lemma seed_and_grow_terminates (cfg : Config) (m : Members) (blurred : Image)
    (nbinsx nbinsy : Z) (fuel : nat) (used0 : list bool) (bin : Z) :
  idx used0 bin = Ok false →
  (length used0 < fuel)%nat →
  terminates (seed_and_grow cfg m blurred nbinsx nbinsy fuel used0 bin).
Proof.
  intros Hfree Hfuel. unfold seed_and_grow.
  apply bind_terminates; [apply set_idx_terminates|]. intros used' Hset.
  apply bind_terminates; [apply GetTimeOfBin_terminates|]. intros time _.
  apply idx_Ok in Hfree as (_ & Hlook).
  apply set_idx_Ok in Hset as (_ & _ & ->).
  pose proof (free_cells_insert _ _ _ true Hlook) as Hcount. simpl in Hcount.
  pose proof (free_cells_le used0).
  apply grow_loop_terminates; simpl; lia.
Qed.

(** With a budget above the number of cells, the clustering loop ends as the
    code does: it returns, or it fails with a failure of the code. *)
Lemma cluster_loop_terminates (cfg : Config) (m : Members) (blurred : Image)
    (nbinsx nbinsy : Z) (fuel : nat) (values : list (Q * Z)) :
  ∀ used0 allcluster,
    marks_exactly used0 (concat allcluster) →
    (length used0 < fuel)%nat →
    terminates (cluster_loop cfg m blurred nbinsx nbinsy fuel values used0 allcluster).
Proof.
  induction values as [|[blurred_binval bin] values IH];
    intros used0 allcluster Hinv Hfuel; simpl; [discriminate|].
  destruct (Qltb _ _); [discriminate|].
  apply bind_terminates; [apply idx_terminates|]. intros [|] Hu; [apply IH; assumption|].
  apply bind_terminates; [apply seed_and_grow_terminates; assumption|]. intros st Hst.
  pose proof (seed_and_grow_inv _ _ _ _ _ _ _ _ _ _ Hinv Hu Hst) as Hgi.
  pose proof (seed_and_grow_length _ _ _ _ _ _ _ _ _ Hst) as Hlen.
  destruct (_ <? _)%nat.
  { apply bind_terminates; [apply unmark_all_terminates|]. intros used' Hun.
    apply IH; [eapply discard_inv; eauto|].
    rewrite (unmark_all_length _ _ _ Hun). lia. }
  pose proof (grower_inv_budget _ _ Hgi) as Hb.
  apply bind_terminates; [apply hole_scan_terminates; lia|]. intros st1 Hhole.
  pose proof (hole_scan_inv _ _ _ _ _ _ _ _ _ _ Hgi Hhole) as Hgi1.
  pose proof (hole_scan_same_budget _ _ _ _ _ _ _ _ _ Hhole) as (Hlen1 & _).
  pose proof (grower_inv_budget _ _ Hgi1) as Hb1.
  apply bind_terminates; [apply prune_loop_terminates; lia|]. intros st2 Hprune.
  pose proof (prune_loop_inv _ _ _ _ _ _ _ _ Hgi1 Hprune) as Hgi2.
  pose proof (prune_loop_length _ _ _ _ _ _ _ Hprune) as Hlen2.
  destruct (_ <? _)%nat.
  { apply bind_terminates; [apply unmark_all_terminates|]. intros used' Hun.
    apply IH; [eapply (discard_inv _ st2); eauto|].
    rewrite (unmark_all_length _ _ _ Hun). lia. }
  apply IH; [apply accept_inv; exact Hgi2 | lia].
Qed.

(** With a budget above the number of cells of the image, [FindClusters]
    never ends for want of budget. *)
Theorem FindClusters_run_terminates (cfg : Config) (m : Members) (fuel : nat)
    (blurred : Image) (col0 : list Q) :
  blurred !! 0%nat = Some col0 →
  (length blurred * length col0 < fuel)%nat →
  terminates (FindClusters_run cfg m fuel blurred []).
Proof.
  intros Hcol Hfuel. unfold FindClusters_run.
  assert (Hat : at_ blurred 0 = Ok col0) by (apply at_Ok; split; [lia | exact Hcol]).
  rewrite Hat. simpl.
  apply bind_terminates.
  { unfold vector_n. repeat terminates_step. }
  intros used0 Hused.
  apply bind_terminates.
  { unfold bin_values.
    repeat first [apply ConvertBinToCharge_terminates | terminates_step]. }
  intros values _.
  unfold vector_n in Hused. destruct (_ <? _) in Hused; [discriminate|].
  inversion Hused; subst used0; clear Hused.
  apply cluster_loop_terminates.
  - split; [constructor|]. intros b. split.
    + intros Hb. exfalso. eapply replicate_unmarked; eauto.
    + intros Hb%elem_of_nil. contradiction.
  - rewrite length_replicate. unfold to_size_t.
    assert (Z.to_nat ((Z.of_nat (length blurred) * Z.of_nat (length col0)) mod 2 ^ 64)
            ≤ length blurred * length col0)%nat; [|lia].
    pose proof (Z.mod_le (Z.of_nat (length blurred) * Z.of_nat (length col0)) (2 ^ 64)).
    lia.
Qed.

(** ** The image builder: shape, margin and hit index *)

Lemma set_at2_shape (n k : nat) (image image' : Image) (x y : Z) (v : Q) :
  set_at2 image x y v = Ok image' → shape n k image → shape n k image'.
Proof.
  intros H [Hn Hk]. unfold set_at2 in H. inv_ok H. inv_ok H.
  inversion H; subst; clear H.
  apply at_Ok in Hok as (_ & Hcol).
  split; [apply length_insert|].
  apply Forall_insert; [exact Hk|]. rewrite length_insert.
  rewrite Forall_forall in Hk. apply Hk. eapply list_elem_of_lookup_2; eauto.
Qed.

Lemma fill_shape (svc : Services) (lowW lowT : Z) (n k : nat) (hits : list Hit) :
  ∀ s s', foldM (fill_step svc lowW lowT) hits s = Ok s' →
          shape n k (fst (fst s)) ∧ shape n k (snd (fst s)) →
          shape n k (fst (fst s')) ∧ shape n k (snd (fst s')).
Proof.
  intros s s' H Hs. revert H.
  apply (foldM_preserves
           (λ s : Image * Image * gmap Z (gmap Z Hit),
              shape n k (fst (fst s)) ∧ shape n k (snd (fst s)))); [|exact Hs].
  clear. intros [[image widths] hitmap] h s' [Hi Hw] H. unfold fill_step in H.
  inv_ok H. destruct (Qltb a (Integral h)); [|inversion H; subst; auto].
  inv_ok H. inv_ok H. inversion H; subst; clear H. simpl in *.
  split; eapply set_at2_shape; eauto.
Qed.

Lemma fill_step_consistent (svc : Services) (lowW lowT : Z) (done : list Hit)
    (s s' : Image * Image * gmap Z (gmap Z Hit)) (h : Hit) :
  index_consistent svc lowW lowT done s →
  keeps_highest svc done (snd s) →
  fill_step svc lowW lowT s h = Ok s' →
  index_consistent svc lowW lowT (done ++ [h]) s'
  ∧ keeps_highest svc (done ++ [h]) (snd s').
Proof.
  intros Hc Hk H.
  (* the charge stored on any cell is not negative *)
  assert (Hpos : ∀ wire tick stored,
            fst (fst (cell_view lowW lowT wire tick s)) = Ok stored → (0 <= stored)%Q).
  { intros wire tick stored Hst. specialize (Hc wire tick).
    destruct (cell_view lowW lowT wire tick s) as [[charge width] [h0|]]; simpl in Hst.
    - destruct Hc as (_ & _ & Hp & -> & _). inversion Hst; subst.
      apply Qlt_le_weak, Hp.
    - rewrite (Hc _ Hst). apply Qle_refl. }
  split.
  - intros wire tick. destruct (decide (cell svc h = (wire, tick))) as [Heq|Hne].
    + destruct (fill_step_same svc lowW lowT wire tick s s' h Heq H) as (stored & Hst & Hv).
      rewrite Hv. destruct (Qltb stored (Integral h)) eqn:Hlt.
      * apply Qltb_lt in Hlt. split; [apply elem_of_app; right; apply list_elem_of_singleton; reflexivity|].
        split; [exact Heq|]. split; [|auto].
        eapply Qle_lt_trans; [eapply Hpos; exact Hst | exact Hlt].
      * specialize (Hc wire tick).
        destruct (cell_view lowW lowT wire tick s) as [[charge width] [h0|]]; [|exact Hc].
        destruct Hc as (Hin & ?). split; [apply elem_of_app; auto | assumption].
    + rewrite (fill_step_other svc lowW lowT wire tick s s' h Hne H).
      specialize (Hc wire tick).
      destruct (cell_view lowW lowT wire tick s) as [[charge width] [h0|]]; [|exact Hc].
      destruct Hc as (Hin & ?). split; [apply elem_of_app; auto | assumption].
  - assert (Hview : ∀ wire tick,
              snd (cell_view lowW lowT wire tick s') = hitmap_find (snd s') wire tick).
    { intros. destruct s' as [[? ?] ?]. reflexivity. }
    assert (Hview0 : ∀ wire tick,
              snd (cell_view lowW lowT wire tick s) = hitmap_find (snd s) wire tick).
    { intros. destruct s as [[? ?] ?]. reflexivity. }
    intros h1 Hin1 Hp1. destruct (cell svc h1) as [wire tick] eqn:Hcell1. simpl.
    rewrite <- Hview.
    destruct (decide (cell svc h = (wire, tick))) as [Heq|Hne].
    + destruct (fill_step_same svc lowW lowT wire tick s s' h Heq H) as (stored & Hst & Hv).
      rewrite Hv. pose proof (Hc wire tick) as Hcw. pose proof (Hview0 wire tick) as Hv0.
      apply elem_of_app in Hin1 as [Hin1|Hin1].
      * destruct (Hk h1 Hin1 Hp1) as (h' & Hf & Hle). rewrite Hcell1 in Hf. simpl in Hf.
        rewrite <- Hv0 in Hf.
        destruct (cell_view lowW lowT wire tick s) as [[charge width] o].
        simpl in Hf, Hst. subst o charge. destruct Hcw as (_ & _ & _ & Hch & _).
        inversion Hch; subst stored.
        destruct (Qltb (Integral h') (Integral h)) eqn:Hlt; simpl.
        -- apply Qltb_lt in Hlt. exists h. split; [reflexivity|].
           eapply Qle_trans; [exact Hle | apply Qlt_le_weak, Hlt].
        -- exists h'. split; [reflexivity | exact Hle].
      * apply list_elem_of_singleton in Hin1. subst h1.
        destruct (Qltb stored (Integral h)) eqn:Hlt; simpl.
        -- exists h. split; [reflexivity | apply Qle_refl].
        -- apply Qltb_nlt in Hlt.
           destruct (cell_view lowW lowT wire tick s) as [[charge width] [h0|]];
             simpl in Hst; subst charge.
           ++ destruct Hcw as (_ & _ & _ & Hch & _). inversion Hch; subst stored.
              exists h0. split; [reflexivity | exact Hlt].
           ++ rewrite (Hcw _ eq_refl) in Hlt. exfalso.
              eapply Qlt_irrefl, Qlt_le_trans; eauto.
    + rewrite (fill_step_other svc lowW lowT wire tick s s' h Hne H).
      apply elem_of_app in Hin1 as [Hin1|Hin1].
      * destruct (Hk h1 Hin1 Hp1) as (h' & Hf & Hle). rewrite Hcell1 in Hf. simpl in Hf.
        rewrite Hview0. eauto.
      * apply list_elem_of_singleton in Hin1. subst h1. congruence.
Qed.

Lemma fill_consistent (svc : Services) (lowW lowT : Z) (hits : list Hit) :
  ∀ done s s',
    index_consistent svc lowW lowT done s →
    keeps_highest svc done (snd s) →
    foldM (fill_step svc lowW lowT) hits s = Ok s' →
    index_consistent svc lowW lowT (done ++ hits) s'
    ∧ keeps_highest svc (done ++ hits) (snd s').
Proof.
  induction hits as [|h hits IH]; intros done s s' Hc Hk H; simpl in H.
  - inversion H; subst. rewrite app_nil_r. auto.
  - inv_ok H.
    destruct (fill_step_consistent svc lowW lowT done s a h Hc Hk Hok) as [Hc' Hk'].
    replace (done ++ h :: hits) with ((done ++ [h]) ++ hits)
      by (rewrite <- app_assoc; reflexivity).
    eapply IH; eauto.
Qed.

(** What a successful run of the image builder leaves behind. *)
Lemma ConvertRecobHitsToVector_inv (svc : Services) (hits : list Hit)
    (image widths : Image) (m : Members) :
  ConvertRecobHitsToVector svc hits = Ok (image, widths, m) →
  (∃ n k, shape n k image ∧ shape n k widths)
  ∧ index_consistent svc (fLowerHistWire m) (fLowerHistTick m) hits (image, widths, fHitMap m)
  ∧ keeps_highest svc hits (fHitMap m)
  ∧ (∀ h, h ∈ hits →
       20 ≤ fst (cell svc h) - fLowerHistWire m ≤ fUpperHistWire m - fLowerHistWire m - 20
       ∧ 20 ≤ snd (cell svc h) - fLowerHistTick m
              ≤ fUpperHistTick m - fLowerHistTick m - 20).
Proof.
  intros H. unfold ConvertRecobHitsToVector, extent in H.
  destruct (extent_fold_spec svc 0 hits (ReadOutWindowSize svc, 0, MaxWires svc, 0))
    as (_ & Hcov & _).
  destruct (fold_left _ _ _) as [[[lowerTick upperTick] lowerWire] upperWire].
  inv_ok H. inv_ok H. inv_ok H. destruct a1 as [[image' widths'] hitmap].
  inversion H; subst; clear H. simpl.
  apply vector_n_replicate in Hok as [k ->]. apply vector_n_replicate in Hok0 as [n ->].
  split; [|split; [|split]].
  - exists n, k.
    apply (fill_shape svc _ _ n k hits _ _ Hok1). simpl.
    split; apply shape_replicate.
  - apply (fill_consistent svc _ _ hits [] _ _) in Hok1 as [Hc _]; [exact Hc| |].
    + intros wire tick. unfold cell_view, hitmap_find. rewrite lookup_empty.
      intros q Hq. eapply at2_replicate; eauto.
    + intros h Hh%elem_of_nil. contradiction.
  - apply (fill_consistent svc _ _ hits [] _ _) in Hok1 as [_ Hk]; [exact Hk| |].
    + intros wire tick. unfold cell_view, hitmap_find. rewrite lookup_empty.
      intros q Hq. eapply at2_replicate; eauto.
    + intros h Hh%elem_of_nil. contradiction.
  - intros h Hh. specialize (Hcov h Hh). unfold covers in Hcov. simpl in Hcov.
    unfold cell in *. simpl in *. lia.
Qed.

(** The exact size of the images, for inputs within the [int] range. *)
Lemma ConvertRecobHitsToVector_dims (svc : Services) (hits : list Hit)
    (image widths : Image) (m : Members) :
  hits ≠ [] →
  - 2 ^ 30 ≤ ReadOutWindowSize svc ≤ 2 ^ 30 →
  - 2 ^ 30 ≤ MaxWires svc ≤ 2 ^ 30 →
  (∀ h, h ∈ hits →
     - 2 ^ 30 ≤ fst (cell svc h) ≤ 2 ^ 30 ∧ - 2 ^ 30 ≤ snd (cell svc h) ≤ 2 ^ 30) →
  ConvertRecobHitsToVector svc hits = Ok (image, widths, m) →
  shape (Z.to_nat (fUpperHistWire m - fLowerHistWire m))
        (Z.to_nat (fUpperHistTick m - fLowerHistTick m)) image
  ∧ shape (Z.to_nat (fUpperHistWire m - fLowerHistWire m))
          (Z.to_nat (fUpperHistTick m - fLowerHistTick m)) widths
  ∧ 40 ≤ fUpperHistWire m - fLowerHistWire m < 2 ^ 32
  ∧ 40 ≤ fUpperHistTick m - fLowerHistTick m < 2 ^ 32.
Proof.
  intros Hne Hr Hw Hall Hrun.
  unfold ConvertRecobHitsToVector, extent in Hrun.
  destruct (extent_fold_spec svc (2 ^ 30) hits
              (ReadOutWindowSize svc, 0, MaxWires svc, 0)) as (_ & Hcov & Hb).
  specialize (Hb ltac:(unfold bounded; lia) Hall).
  destruct (fold_left _ _ _) as [[[lowerTick upperTick] lowerWire] upperWire].
  unfold bounded in Hb; unfold covers in Hcov.
  assert (Hdims : lowerWire ≤ upperWire ∧ lowerTick ≤ upperTick)
    by (destruct hits as [|h0 hits']; [congruence|];
        pose proof (Hcov h0 ltac:(apply elem_of_cons; auto)); lia).
  rewrite vector_n_nonneg in Hrun by lia; simpl in Hrun.
  rewrite vector_n_nonneg in Hrun by lia; simpl in Hrun.
  inv_ok Hrun; destruct a as [[image' widths'] hitmap].
  inversion Hrun; subst; clear Hrun; simpl.
  assert (Hs : shape (Z.to_nat (upperWire + 20 - (lowerWire - 20)))
                     (Z.to_nat (upperTick + 20 - (lowerTick - 20))) image
               ∧ shape (Z.to_nat (upperWire + 20 - (lowerWire - 20)))
                       (Z.to_nat (upperTick + 20 - (lowerTick - 20))) widths).
  { apply (fill_shape svc _ _ _ _ hits _ _ Hok); simpl.
    split; apply shape_replicate. }
  destruct Hs as [Hi Hwd].
  split; [exact Hi|]. split; [exact Hwd|]. lia.
Qed.

(** X1.  With at least one hit, and wires, ticks and service values of
    magnitude at most 2^24 (the range in which the conversion of the [int]
    bounds to [float] for the comparison with the peak time is exact, and in
    which the sizes do not overflow), [ConvertRecobHitsToVector] returns; the
    charge image and the width image have [fUpperHistWire - fLowerHistWire]
    rows of [fUpperHistTick - fLowerHistTick] cells, and the cell of every
    input hit lies at least 20 cells inside each edge. *)
Theorem ConvertRecobHitsToVector_shape_and_margin (svc : Services) (hits : list Hit) :
  hits ≠ [] →
  - 2 ^ 24 ≤ ReadOutWindowSize svc ≤ 2 ^ 24 →
  - 2 ^ 24 ≤ MaxWires svc ≤ 2 ^ 24 →
  (∀ h, h ∈ hits →
     - 2 ^ 24 ≤ fst (cell svc h) ≤ 2 ^ 24 ∧ - 2 ^ 24 ≤ snd (cell svc h) ≤ 2 ^ 24) →
  ∃ image widths m,
    ConvertRecobHitsToVector svc hits = Ok (image, widths, m)
    ∧ shape (Z.to_nat (fUpperHistWire m - fLowerHistWire m))
            (Z.to_nat (fUpperHistTick m - fLowerHistTick m)) image
    ∧ shape (Z.to_nat (fUpperHistWire m - fLowerHistWire m))
            (Z.to_nat (fUpperHistTick m - fLowerHistTick m)) widths
    ∧ 40 ≤ fUpperHistWire m - fLowerHistWire m ≤ 2 ^ 25 + 40
    ∧ 40 ≤ fUpperHistTick m - fLowerHistTick m ≤ 2 ^ 25 + 40
    ∧ ∀ h, h ∈ hits →
        20 ≤ fst (cell svc h) - fLowerHistWire m ≤ fUpperHistWire m - fLowerHistWire m - 20
        ∧ 20 ≤ snd (cell svc h) - fLowerHistTick m
               ≤ fUpperHistTick m - fLowerHistTick m - 20.
Proof.
  intros Hne Hr Hw Hall.
  assert (Hall' : ∀ h, h ∈ hits →
            - 2 ^ 30 ≤ fst (cell svc h) ≤ 2 ^ 30 ∧ - 2 ^ 30 ≤ snd (cell svc h) ≤ 2 ^ 30).
  { intros h Hh. specialize (Hall h Hh). lia. }
  destruct (ConvertRecobHitsToVector_succeeds svc hits Hne ltac:(lia) ltac:(lia) Hall')
    as (image & widths & m & Hrun).
  exists image, widths, m. split; [exact Hrun|].
  destruct (ConvertRecobHitsToVector_inv svc hits image widths m Hrun)
    as (_ & _ & _ & Hmargin).
  destruct (ConvertRecobHitsToVector_dims svc hits image widths m Hne
              ltac:(lia) ltac:(lia) Hall' Hrun) as (Hi & Hwd & HN & HK).
  split; [exact Hi|]. split; [exact Hwd|].
  assert (Hspan : fUpperHistWire m - fLowerHistWire m ≤ 2 ^ 25 + 40
                  ∧ fUpperHistTick m - fLowerHistTick m ≤ 2 ^ 25 + 40).
  { unfold ConvertRecobHitsToVector, extent in Hrun.
    destruct (extent_fold_spec svc (2 ^ 24) hits
                (ReadOutWindowSize svc, 0, MaxWires svc, 0)) as (_ & _ & Hb).
    specialize (Hb ltac:(unfold bounded; lia) Hall).
    destruct (fold_left _ _ _) as [[[lowerTick upperTick] lowerWire] upperWire].
    unfold bounded in Hb.
    inv_ok Hrun. inv_ok Hrun. inv_ok Hrun. destruct a1 as [[image' widths'] hitmap].
    inversion Hrun; subst; clear Hrun. simpl. lia. }
  split; [lia|]. split; [lia|]. exact Hmargin.
Qed.

Lemma ConvertRecobHitsToVector_shape_and_margin_witness :
  ∃ image widths m,
    ConvertRecobHitsToVector Examples.svc [Examples.hit_a; Examples.hit_b]
    = Ok (image, widths, m)
    ∧ shape (Z.to_nat (fUpperHistWire m - fLowerHistWire m))
            (Z.to_nat (fUpperHistTick m - fLowerHistTick m)) image
    ∧ shape (Z.to_nat (fUpperHistWire m - fLowerHistWire m))
            (Z.to_nat (fUpperHistTick m - fLowerHistTick m)) widths
    ∧ 40 ≤ fUpperHistWire m - fLowerHistWire m ≤ 2 ^ 25 + 40
    ∧ 40 ≤ fUpperHistTick m - fLowerHistTick m ≤ 2 ^ 25 + 40
    ∧ ∀ h, h ∈ [Examples.hit_a; Examples.hit_b] →
        20 ≤ fst (cell Examples.svc h) - fLowerHistWire m
           ≤ fUpperHistWire m - fLowerHistWire m - 20
        ∧ 20 ≤ snd (cell Examples.svc h) - fLowerHistTick m
               ≤ fUpperHistTick m - fLowerHistTick m - 20.
Proof.
  apply (ConvertRecobHitsToVector_shape_and_margin Examples.svc
           [Examples.hit_a; Examples.hit_b]).
  - discriminate.
  - vm_compute. split; discriminate.
  - vm_compute. split; discriminate.
  - intros h Hh. repeat (apply elem_of_cons in Hh as [->|Hh]);
      [| |apply elem_of_nil in Hh; contradiction];
      vm_compute; repeat split; discriminate.
Defined.

(** X2.  After [ConvertRecobHitsToVector], the hit index and the images
    agree cell by cell: a hit indexed under (wire, tick) is an input hit
    that lies on that cell and has a positive charge, and the cell holds its
    charge in the charge image and its width in the width image; a cell with
    no indexed hit holds the charge 0. *)
Theorem ConvertRecobHitsToVector_index_matches_image (svc : Services) (hits : list Hit)
    (image widths : Image) (m : Members) :
  ConvertRecobHitsToVector svc hits = Ok (image, widths, m) →
  ∀ wire tick,
    match hitmap_find (fHitMap m) wire tick with
    | Some h =>
        h ∈ hits ∧ cell svc h = (wire, tick) ∧ (0 < Integral h)%Q
        ∧ at2 image (wire - fLowerHistWire m) (tick - fLowerHistTick m) = Ok (Integral h)
        ∧ at2 widths (wire - fLowerHistWire m) (tick - fLowerHistTick m) = Ok (RMS h)
    | None =>
        ∀ q, at2 image (wire - fLowerHistWire m) (tick - fLowerHistTick m) = Ok q → q = 0%Q
    end.
Proof.
  intros Hrun wire tick.
  destruct (ConvertRecobHitsToVector_inv svc hits image widths m Hrun) as (_ & Hc & _).
  exact (Hc wire tick).
Qed.

Lemma ConvertRecobHitsToVector_index_matches_image_witness :
  ∃ image widths m,
    ConvertRecobHitsToVector Examples.svc [Examples.hit_c10; Examples.hit_c30; Examples.hit_b]
    = Ok (image, widths, m)
    ∧ hitmap_find (fHitMap m) 100 500 = Some Examples.hit_c30
    ∧ at2 image (100 - fLowerHistWire m) (500 - fLowerHistTick m) = Ok (30 # 1)%Q
    ∧ at2 widths (100 - fLowerHistWire m) (500 - fLowerHistTick m) = Ok (3 # 1)%Q.
Proof.
  eexists _, _, _. split; [vm_compute; reflexivity|].
  pose proof (ConvertRecobHitsToVector_index_matches_image Examples.svc
                [Examples.hit_c10; Examples.hit_c30; Examples.hit_b] _ _ _
                ltac:(vm_compute; reflexivity) 100 500) as H.
  change (hitmap_find _ 100 500) with (Some Examples.hit_c30) in H |- *.
  destruct H as (_ & _ & _ & Hi & Hw). split; [reflexivity|]. split; [exact Hi | exact Hw].
Defined.

(** X3.  After [ConvertRecobHitsToVector], every input hit of positive
    charge finds on its own cell an indexed hit whose charge is at least
    its own, and the charge image holds that charge: the image shows, on
    each cell, the highest charge of the hits that fall on it. *)
Theorem ConvertRecobHitsToVector_keeps_highest_charge (svc : Services) (hits : list Hit)
    (image widths : Image) (m : Members) (h : Hit) :
  ConvertRecobHitsToVector svc hits = Ok (image, widths, m) →
  h ∈ hits → (0 < Integral h)%Q →
  ∃ h', hitmap_find (fHitMap m) (fst (cell svc h)) (snd (cell svc h)) = Some h'
        ∧ h' ∈ hits
        ∧ (Integral h <= Integral h')%Q
        ∧ at2 image (fst (cell svc h) - fLowerHistWire m)
                    (snd (cell svc h) - fLowerHistTick m) = Ok (Integral h').
Proof.
  intros Hrun Hin Hpos.
  destruct (ConvertRecobHitsToVector_inv svc hits image widths m Hrun) as (_ & Hc & Hk & _).
  destruct (Hk h Hin Hpos) as (h' & Hf & Hle).
  specialize (Hc (fst (cell svc h)) (snd (cell svc h))).
  unfold cell_view in Hc. rewrite Hf in Hc. destruct Hc as (Hin' & _ & _ & Hi & _).
  exists h'. auto.
Qed.

Lemma ConvertRecobHitsToVector_keeps_highest_charge_witness :
  ∃ image widths m h',
    ConvertRecobHitsToVector Examples.svc [Examples.hit_c10; Examples.hit_c30; Examples.hit_c20]
    = Ok (image, widths, m)
    ∧ hitmap_find (fHitMap m) 100 500 = Some h'
    ∧ (Integral Examples.hit_c20 <= Integral h')%Q.
Proof.
  eexists _, _, _.
  destruct (ConvertRecobHitsToVector_keeps_highest_charge Examples.svc
              [Examples.hit_c10; Examples.hit_c30; Examples.hit_c20] _ _ _ Examples.hit_c20
              ltac:(vm_compute; reflexivity)
              ltac:(apply elem_of_cons; right; apply elem_of_cons; right;
                    apply elem_of_cons; left; reflexivity)
              ltac:(vm_compute; reflexivity)) as (h' & Hf & _ & Hle & _).
  exists h'. split; [reflexivity|]. split; [exact Hf | exact Hle].
Defined.

(** ** Bins and cells *)

(** X4.  Bins and cells determine each other: a cell (x, y) of the image
    whose bin [ybin * image.size() + xbin] is below 2^31, so that neither
    the product in the size type nor the conversion to [int] wraps, is
    encoded to a non-negative [int] that decodes back to (x, y), and it is
    the only bin among the non-negative [int]s that decodes to (x, y). *)
Theorem bin_cell_round_trip (image : Image) (x y : Z) :
  0 ≤ x < Z.of_nat (length image) → 0 ≤ y →
  y * Z.of_nat (length image) + x < 2 ^ 31 →
  0 ≤ ConvertWireTickToBin image x y < 2 ^ 31
  ∧ bin_xy image (ConvertWireTickToBin image x y) = Ok (x, y)
  ∧ ∀ bin, 0 ≤ bin < 2 ^ 31 → bin_xy image bin = Ok (x, y) →
           bin = ConvertWireTickToBin image x y.
Proof.
  intros Hx Hy Hsmall.
  assert (Hbin : 0 ≤ ConvertWireTickToBin image x y < 2 ^ 31)
    by (unfold ConvertWireTickToBin; nia).
  split; [exact Hbin|]. split; [apply bin_xy_of_cell; [exact Hx | exact Hy | lia]|].
  intros bin Hb. unfold bin_xy, ConvertWireTickToBin.
  set (n := Z.of_nat (length image)) in *.
  destruct (Z.eqb_spec n 0) as [Hz|Hnz]; [discriminate|].
  rewrite to_size_t_nonneg by lia.
  pose proof (Z.mod_pos_bound bin n ltac:(lia)).
  pose proof (Z.div_pos bin n ltac:(lia) ltac:(lia)).
  assert (bin / n ≤ bin) by (apply Z.div_le_upper_bound; nia).
  pose proof (Z.mod_le bin n ltac:(lia) ltac:(lia)).
  rewrite !to_int_small by lia.
  intros Heq. inversion Heq; subst.
  pose proof (Z.div_mod bin n Hnz). lia.
Qed.

Lemma bin_cell_round_trip_witness :
  0 ≤ ConvertWireTickToBin Examples.blurred7x5 2 1 < 2 ^ 31
  ∧ bin_xy Examples.blurred7x5 (ConvertWireTickToBin Examples.blurred7x5 2 1) = Ok (2, 1)
  ∧ ∀ bin, 0 ≤ bin < 2 ^ 31 → bin_xy Examples.blurred7x5 bin = Ok (2, 1) →
           bin = ConvertWireTickToBin Examples.blurred7x5 2 1.
Proof.
  apply (bin_cell_round_trip Examples.blurred7x5 2 1).
  - vm_compute. split; [discriminate | reflexivity].
  - discriminate.
  - vm_compute. reflexivity.
Defined.

(** X5.  The image builder followed by the materialiser: for an image of
    fewer than 2^31 cells, the charge of an indexed hit is read back from
    the bin of the hit's cell, while the hit itself and its peak time are
    returned for the bin of the cell one wire and one tick further up. *)
Theorem indexed_hit_read_back (svc : Services) (hits : list Hit)
    (image widths : Image) (m : Members) (wire tick : Z) (h : Hit) :
  hits ≠ [] →
  - 2 ^ 30 ≤ ReadOutWindowSize svc ≤ 2 ^ 30 →
  - 2 ^ 30 ≤ MaxWires svc ≤ 2 ^ 30 →
  (∀ h, h ∈ hits →
     - 2 ^ 30 ≤ fst (cell svc h) ≤ 2 ^ 30 ∧ - 2 ^ 30 ≤ snd (cell svc h) ≤ 2 ^ 30) →
  ConvertRecobHitsToVector svc hits = Ok (image, widths, m) →
  (fUpperHistWire m - fLowerHistWire m) * (fUpperHistTick m - fLowerHistTick m) < 2 ^ 31 →
  hitmap_find (fHitMap m) wire tick = Some h →
  ConvertBinToCharge image
    (ConvertWireTickToBin image (wire - fLowerHistWire m) (tick - fLowerHistTick m))
  = Ok (Integral h)
  ∧ ConvertBinToRecobHit m image
      (ConvertWireTickToBin image (wire - fLowerHistWire m + 1) (tick - fLowerHistTick m + 1))
    = Ok (Some h)
  ∧ GetTimeOfBin m image
      (ConvertWireTickToBin image (wire - fLowerHistWire m + 1) (tick - fLowerHistTick m + 1))
    = Ok (PeakTime h).
Proof.
  intros Hne Hr Hw Hall Hrun Hsize Hfind.
  destruct (ConvertRecobHitsToVector_inv svc hits image widths m Hrun)
    as (_ & Hc & _ & Hmargin).
  destruct (ConvertRecobHitsToVector_dims svc hits image widths m Hne Hr Hw Hall Hrun)
    as ([Hlen _] & _ & HN & HK).
  specialize (Hc wire tick). unfold cell_view in Hc. rewrite Hfind in Hc.
  destruct Hc as (Hin & Hcell & _ & Hcharge & _).
  specialize (Hmargin h Hin). rewrite Hcell in Hmargin. simpl in Hmargin.
  set (x := wire - fLowerHistWire m) in *. set (y := tick - fLowerHistTick m) in *.
  set (N := fUpperHistWire m - fLowerHistWire m) in *.
  set (K := fUpperHistTick m - fLowerHistTick m) in *.
  assert (HlenZ : Z.of_nat (length image) = N) by lia.
  assert (Hb0 : ConvertWireTickToBin image x y < 2 ^ 31)
    by (unfold ConvertWireTickToBin; rewrite HlenZ; nia).
  assert (Hb1 : ConvertWireTickToBin image (x + 1) (y + 1) < 2 ^ 31)
    by (unfold ConvertWireTickToBin; rewrite HlenZ; nia).
  assert (Hhit : ConvertBinToRecobHit m image (ConvertWireTickToBin image (x + 1) (y + 1))
                 = Ok (Some h)).
  { rewrite ConvertBinToRecobHit_of_cell by lia.
    replace (x + 1 + fLowerHistWire m - 1) with wire by lia.
    replace (y + 1 + fLowerHistTick m - 1) with tick by lia.
    rewrite Hfind. reflexivity. }
  split; [|split; [exact Hhit|]].
  - unfold ConvertBinToCharge. rewrite bin_xy_of_cell by lia. exact Hcharge.
  - unfold GetTimeOfBin. rewrite Hhit. reflexivity.
Qed.

Lemma indexed_hit_read_back_witness :
  ∃ image widths m,
    ConvertRecobHitsToVector Examples.svc [Examples.hit_a; Examples.hit_b]
    = Ok (image, widths, m)
    ∧ ConvertBinToCharge image (ConvertWireTickToBin image 20 20) = Ok (50 # 1)%Q
    ∧ ConvertBinToRecobHit m image (ConvertWireTickToBin image 21 21)
      = Ok (Some Examples.hit_a).
Proof.
  eexists _, _, _. split; [vm_compute; reflexivity|].
  pose proof (indexed_hit_read_back Examples.svc [Examples.hit_a; Examples.hit_b]
                _ _ _ 100 500 Examples.hit_a
                ltac:(discriminate)
                ltac:(vm_compute; split; discriminate)
                ltac:(vm_compute; split; discriminate)
                ltac:(intros h Hh; repeat (apply elem_of_cons in Hh as [->|Hh]);
                      [| |apply elem_of_nil in Hh; contradiction];
                      vm_compute; repeat split; discriminate)
                ltac:(vm_compute; reflexivity)
                ltac:(vm_compute; reflexivity)
                ltac:(vm_compute; reflexivity)) as (Hq & Hh & _).
  split; [exact Hq | exact Hh].
Defined.

(** ** When the gradient is defined *)

Lemma deviation_nonneg (x : Z) (xs : list Z) :
  0 ≤ Z.of_nat (length xs) * (x * x) - 2 * x * sum_wires xs + sum_squares xs
  ∧ (Z.of_nat (length xs) * (x * x) - 2 * x * sum_wires xs + sum_squares xs = 0 →
     Forall (λ y, y = x) xs).
Proof.
  induction xs as [|y ys [IH0 IH1]].
  - simpl. split; [lia | constructor].
  - change (sum_wires (y :: ys)) with (y + sum_wires ys).
    change (sum_squares (y :: ys)) with (y * y + sum_squares ys).
    change (length (y :: ys)) with (S (length ys)). rewrite Nat2Z.inj_succ.
    set (n := Z.of_nat (length ys)) in *. set (s1 := sum_wires ys) in *.
    set (s2 := sum_squares ys) in *.
    assert (Hsq : 0 ≤ (x - y) * (x - y)) by apply Z.square_nonneg.
    assert (Heq : Z.succ n * (x * x) - 2 * x * (y + s1) + (y * y + s2)
                  = (n * (x * x) - 2 * x * s1 + s2) + (x - y) * (x - y)) by ring.
    rewrite Heq. split; [lia|]. intros Hz.
    constructor; [nia | apply IH1; lia].
Qed.

Lemma wire_spread_zero (xs : list Z) :
  0 ≤ wire_spread xs ∧ (wire_spread xs = 0 → ∃ w, Forall (λ y, y = w) xs).
Proof.
  induction xs as [|x xs [IH0 IH1]].
  - split; [reflexivity|]. intros _. exists 0. constructor.
  - destruct (deviation_nonneg x xs) as [D0 D1].
    assert (Heq : wire_spread (x :: xs)
                  = wire_spread xs
                    + (Z.of_nat (length xs) * (x * x) - 2 * x * sum_wires xs + sum_squares xs)).
    { unfold wire_spread.
      change (sum_wires (x :: xs)) with (x + sum_wires xs).
      change (sum_squares (x :: xs)) with (x * x + sum_squares xs).
      change (length (x :: xs)) with (S (length xs)). rewrite Nat2Z.inj_succ. ring. }
    rewrite Heq. split; [lia|]. intros Hz. exists x.
    constructor; [reflexivity | apply D1; lia].
Qed.

Lemma sums_wires (pts : list (Z * Z)) :
  ∀ nhits sumx sumy sumx2 sumxy n s1 s2,
    (nhits == inject_Z n)%Q → (sumx == inject_Z s1)%Q → (sumx2 == inject_Z s2)%Q →
    ∃ nhits' sumx' sumy' sumx2' sumxy',
      fold_left sums_step pts (nhits, sumx, sumy, sumx2, sumxy)
        = (nhits', sumx', sumy', sumx2', sumxy')
      ∧ (nhits' == inject_Z (n + Z.of_nat (length pts)))%Q
      ∧ (sumx' == inject_Z (s1 + sum_wires (map fst pts)))%Q
      ∧ (sumx2' == inject_Z (s2 + sum_squares (map fst pts)))%Q.
Proof.
  induction pts as [|[x y] pts IH]; intros nhits sumx sumy sumx2 sumxy n s1 s2 Hn H1 H2.
  - simpl. exists nhits, sumx, sumy, sumx2, sumxy. split; [reflexivity|].
    rewrite !Z.add_0_r. auto.
  - simpl fold_left.
    destruct (IH (nhits + 1)%Q (sumx + inject_Z x)%Q (sumy + inject_Z y)%Q
                 (sumx2 + inject_Z (x * x))%Q (sumxy + inject_Z (x * y))%Q
                 (n + 1) (s1 + x) (s2 + x * x))
      as (n' & sx' & sy' & sx2' & sxy' & Hf & Hn' & H1' & H2').
    + rewrite Hn, inject_Z_plus. reflexivity.
    + rewrite H1, inject_Z_plus. reflexivity.
    + rewrite H2, inject_Z_plus. reflexivity.
    + exists n', sx', sy', sx2', sxy'. split; [exact Hf|].
      change (length ((x, y) :: pts)) with (S (length pts)). rewrite Nat2Z.inj_succ.
      simpl map. change (sum_wires (x :: map fst pts)) with (x + sum_wires (map fst pts)).
      change (sum_squares (x :: map fst pts)) with (x * x + sum_squares (map fst pts)).
      replace (n + Z.succ (Z.of_nat (length pts))) with (n + 1 + Z.of_nat (length pts)) by lia.
      replace (s1 + (x + sum_wires (map fst pts))) with (s1 + x + sum_wires (map fst pts))
        by lia.
      replace (s2 + (x * x + sum_squares (map fst pts)))
        with (s2 + x * x + sum_squares (map fst pts)) by lia.
      auto.
Qed.

(** The divisor of the gradient is the spread of the wires. *)
Lemma gradient_denominator_spread (pts : list (Z * Z)) :
  (gradient_denominator pts == inject_Z (wire_spread (map fst pts)))%Q.
Proof.
  unfold gradient_denominator, sums.
  destruct (sums_wires pts 0 0 0 0 0 0 0 0)%Q
    as (n & sx & sy & sx2 & sxy & -> & Hn & H1 & H2); [reflexivity..|].
  rewrite Hn, H1, H2. unfold wire_spread. rewrite length_map.
  rewrite !Z.add_0_l. unfold Z.sub.
  rewrite inject_Z_plus, inject_Z_opp, !inject_Z_mult. ring.
Qed.

Lemma gradient_defined (pts : list (Z * Z)) :
  (∃ g, gradient pts = Ok g) ↔ ∃ p q, p ∈ pts ∧ q ∈ pts ∧ fst p ≠ fst q.
Proof.
  split.
  - intros [g Hg].
    destruct pts as [|p pts]; [vm_compute in Hg; discriminate|].
    destruct (decide (Forall (λ q, fst q = fst p) (p :: pts))) as [Hall|Hex].
    + rewrite (gradient_single_wire (fst p)) in Hg by exact Hall. discriminate.
    + apply not_Forall_Exists in Hex; [|intros q; apply _].
      apply Exists_exists in Hex as (q & Hq & Hne).
      exists q, p. split; [exact Hq|]. split; [apply elem_of_cons; auto | exact Hne].
  - intros (p & q & Hp & Hq & Hne).
    pose proof (gradient_denominator_spread pts) as Hden.
    unfold gradient. unfold gradient_denominator in Hden.
    destruct (sums pts) as [[[[nhits sumx] sumy] sumx2] sumxy].
    destruct (Qeq_bool (nhits * sumx2 - sumx * sumx) 0) eqn:Hz; [|eauto].
    exfalso. apply Qeq_bool_iff in Hz. rewrite Hden in Hz.
    assert (Hs : wire_spread (map fst pts) = 0).
    { unfold Qeq in Hz. simpl in Hz. lia. }
    destruct (wire_spread_zero (map fst pts)) as [_ Hw].
    destruct (Hw Hs) as [w Hall]. rewrite Forall_forall in Hall.
    apply Hne. rewrite (Hall (fst p)), (Hall (fst q)); [reflexivity|..].
    + apply list_elem_of_In, in_map, list_elem_of_In, Hq.
    + apply list_elem_of_In, in_map, list_elem_of_In, Hp.
Qed.

Lemma elem_of_hit_points (hitmap : gmap Z (gmap Z Hit)) (wire tick : Z) :
  (wire, tick) ∈ hit_points hitmap ↔ is_Some (hitmap_find hitmap wire tick).
Proof.
  unfold hit_points, hitmap_find. rewrite list_elem_of_In, in_flat_map. split.
  - intros ([w row] & Hrow & Hin). apply in_map_iff in Hin as ([t h] & Heq & Hin).
    simpl in Heq. inversion Heq; subst.
    apply list_elem_of_In, elem_of_map_to_list in Hrow, Hin.
    rewrite Hrow. eauto.
  - intros [h Hh]. destruct (hitmap !! wire) as [row|] eqn:Hrow; [|discriminate].
    exists (wire, row). split; [apply list_elem_of_In, elem_of_map_to_list; exact Hrow|].
    apply in_map_iff. exists (tick, h). split; [reflexivity|].
    apply list_elem_of_In, elem_of_map_to_list. exact Hh.
Qed.

(** X6.  [FindBlurringParameters] returns exactly when the hit index holds
    hits on two different wires; otherwise the divisor of the gradient is 0
    and the division is undefined. *)
Theorem FindBlurringParameters_defined_iff (cfg : Config) (Unit : Q → Q * Q) (m : Members) :
  ((∃ r, FindBlurringParameters cfg Unit m = Ok r)
   ↔ ∃ w1 t1 w2 t2,
       w1 ≠ w2 ∧ is_Some (hitmap_find (fHitMap m) w1 t1)
       ∧ is_Some (hitmap_find (fHitMap m) w2 t2))
  ∧ ((∀ r, FindBlurringParameters cfg Unit m ≠ Ok r)
     → FindBlurringParameters cfg Unit m = Fail undefined_behaviour).
Proof.
  assert (Hg : (∃ r, FindBlurringParameters cfg Unit m = Ok r)
               ↔ ∃ g, gradient (hit_points (fHitMap m)) = Ok g).
  { unfold FindBlurringParameters. split.
    - intros [r Hr]. inv_ok Hr. eauto.
    - intros [g ->]. simpl. destruct (Unit g). eauto. }
  split.
  - rewrite Hg, gradient_defined. split.
    + intros ([w1 t1] & [w2 t2] & H1 & H2 & Hne). exists w1, t1, w2, t2.
      rewrite <- !elem_of_hit_points. auto.
    + intros (w1 & t1 & w2 & t2 & Hne & H1 & H2). exists (w1, t1), (w2, t2).
      rewrite !elem_of_hit_points. auto.
  - intros Hno. unfold FindBlurringParameters in *. unfold gradient in *.
    destruct (sums _) as [[[[nhits sumx] sumy] sumx2] sumxy].
    destruct (Qeq_bool _ 0); [reflexivity|]. simpl in Hno.
    destruct (Unit _). exfalso. eapply Hno. reflexivity.
Qed.

(** ** What [FindClusters] returns *)

Lemma cluster_loop_appends (cfg : Config) (m : Members) (blurred : Image) (nbinsx nbinsy : Z)
    (fuel : nat) (values : list (Q * Z)) :
  ∀ used0 allcluster allcluster' used',
    cluster_loop cfg m blurred nbinsx nbinsy fuel values used0 allcluster
      = Ok (allcluster', used') →
    ∃ new, allcluster' = allcluster ++ new
           ∧ Forall (λ c, (fMinSize cfg ≤ length c)%nat) new.
Proof.
  induction values as [|[blurred_binval bin] values IH];
    intros used0 allcluster allcluster' used' H; simpl in H; [discriminate|].
  destruct (Qltb _ _) in H.
  { inversion H; subst. exists []. rewrite app_nil_r. split; [reflexivity | constructor]. }
  inv_ok H. destruct a; [eapply IH; eauto|].
  inv_ok H. rename a into st.
  destruct (_ <? _)%nat in H.
  { inv_ok H. eapply IH; eauto. }
  inv_ok H. rename a into st1. inv_ok H. rename a into st2.
  destruct (Nat.ltb_spec (length (cluster st2)) (fMinSize cfg)).
  { inv_ok H. eapply IH; eauto. }
  apply IH in H as (new & -> & Hnew).
  exists (cluster st2 :: new). split; [rewrite <- app_assoc; reflexivity|].
  constructor; [lia | exact Hnew].
Qed.

Lemma cluster_loop_length (cfg : Config) (m : Members) (blurred : Image) (nbinsx nbinsy : Z)
    (fuel : nat) (values : list (Q * Z)) :
  ∀ used0 allcluster allcluster' used',
    cluster_loop cfg m blurred nbinsx nbinsy fuel values used0 allcluster
      = Ok (allcluster', used') →
    length used' = length used0.
Proof.
  induction values as [|[blurred_binval bin] values IH];
    intros used0 allcluster allcluster' used' H; simpl in H; [discriminate|].
  destruct (Qltb _ _) in H; [inversion H; subst; reflexivity|].
  inv_ok H. destruct a; [eapply IH; eauto|].
  inv_ok H. rename a into st.
  pose proof (seed_and_grow_length _ _ _ _ _ _ _ _ _ Hok0) as Hlen.
  destruct (_ <? _)%nat in H.
  { inv_ok H. apply IH in H. rewrite H, (unmark_all_length _ _ _ Hok1). exact Hlen. }
  inv_ok H. rename a into st1. inv_ok H. rename a into st2.
  pose proof (hole_scan_same_budget _ _ _ _ _ _ _ _ _ Hok1) as (Hlen1 & _).
  pose proof (prune_loop_length _ _ _ _ _ _ _ Hok2) as Hlen2.
  destruct (_ <? _)%nat in H.
  { inv_ok H. apply IH in H. rewrite H, (unmark_all_length _ _ _ Hok3). lia. }
  apply IH in H. lia.
Qed.

(** X7.  [FindClusters] keeps the clusters it is given and appends the new
    ones; every cluster it appends has at least [fMinSize] cells, and the
    returned count is the size of the whole list. *)
Theorem FindClusters_appends_clusters_of_min_size (cfg : Config) (m : Members) (fuel : nat)
    (blurred : Image) (allcluster0 allcluster : list (list Z)) (count : Z) :
  FindClusters cfg m fuel blurred allcluster0 = Ok (allcluster, count) →
  count = Z.of_nat (length allcluster)
  ∧ ∃ new, allcluster = allcluster0 ++ new
           ∧ Forall (λ c, (fMinSize cfg ≤ length c)%nat) new.
Proof.
  intros H. unfold FindClusters in H. inv_ok H. destruct a as [acc mask].
  inversion H; subst; clear H. split; [reflexivity|].
  unfold FindClusters_run in Hok. inv_ok Hok. inv_ok Hok. inv_ok Hok.
  eapply cluster_loop_appends; eauto.
Qed.

Lemma FindClusters_appends_clusters_of_min_size_witness :
  ∃ allcluster count,
    FindClusters Examples.cfg_grow Examples.no_hits 10 Examples.blurred7x5 [[0]]
      = Ok (allcluster, count)
    ∧ count = 3
    ∧ ∃ new, allcluster = [[0]] ++ new ∧ Forall (λ c, (2 ≤ length c)%nat) new.
Proof.
  eexists _, _. split; [vm_compute; reflexivity|].
  destruct (FindClusters_appends_clusters_of_min_size
              Examples.cfg_grow Examples.no_hits 10 Examples.blurred7x5 [[0]] _ _
              ltac:(vm_compute; reflexivity)) as (_ & Hnew).
  split; [reflexivity | exact Hnew].
Defined.

(** X8.  On an image of fewer than 2^31 cells, the mask of [FindClusters]
    has one entry per cell, and every cell of every returned cluster is the
    index of a cell of the image. *)
Theorem FindClusters_cells_in_range (cfg : Config) (m : Members) (fuel : nat)
    (blurred : Image) (col0 : list Q) (allcluster : list (list Z)) (mask : list bool) :
  blurred !! 0%nat = Some col0 →
  Z.of_nat (length blurred) * Z.of_nat (length col0) < 2 ^ 31 →
  FindClusters_run cfg m fuel blurred [] = Ok (allcluster, mask) →
  length mask = (length blurred * length col0)%nat
  ∧ ∀ c b, c ∈ allcluster → b ∈ c →
      0 ≤ b < Z.of_nat (length blurred) * Z.of_nat (length col0).
Proof.
  intros Hcol Hsize H. unfold FindClusters_run in H.
  assert (Hat : at_ blurred 0 = Ok col0) by (apply at_Ok; split; [lia | exact Hcol]).
  rewrite Hat in H. simpl in H. rewrite vector_n_nonneg in H by lia. simpl in H.
  inv_ok H.
  assert (Hinit : marks_exactly
                    (replicate (Z.to_nat (Z.of_nat (length blurred) * Z.of_nat (length col0)))
                               false) (concat [])).
  { split; [constructor|]. intros b. split.
    - intros Hb. exfalso. eapply replicate_unmarked; eauto.
    - intros Hb%elem_of_nil. contradiction. }
  pose proof (cluster_loop_inv _ _ _ _ _ _ _ _ _ _ _ Hinit H) as [_ Hm].
  apply cluster_loop_length in H. rewrite length_replicate in H.
  split; [lia|]. intros c b Hc Hb.
  assert (Hmarked : marked mask b).
  { apply Hm, elem_of_concat. eauto. }
  destruct Hmarked as [Hb0 Hlook]. apply lookup_lt_Some in Hlook. lia.
Qed.

Lemma FindClusters_cells_in_range_witness :
  ∃ allcluster mask,
    FindClusters_run Examples.cfg_grow Examples.no_hits 10 Examples.blurred7x5 []
      = Ok (allcluster, mask)
    ∧ length mask = 35%nat
    ∧ ∀ c b, c ∈ allcluster → b ∈ c → 0 ≤ b < 35.
Proof.
  eexists _, _. split; [vm_compute; reflexivity|].
  exact (FindClusters_cells_in_range
           Examples.cfg_grow Examples.no_hits 10 Examples.blurred7x5 [0; 0; 0; 0; 0]%Q _ _
           ltac:(reflexivity) ltac:(vm_compute; reflexivity) ltac:(vm_compute; reflexivity)).
Defined.

(** ** The accesses of the region grower are in range *)

Lemma outcome_bind {A B : Type} (E : failure → Prop) (P : A → Prop) (Q : B → Prop)
    (r : result A) (k : A → result B) :
  outcome E P r → (∀ a, P a → outcome E Q (k a)) → outcome E Q (r ≫= k).
Proof. destruct r as [a|f]; simpl; auto. Qed.

Lemma outcome_foldM {A S : Type} (E : failure → Prop) (P : S → Prop)
    (f : S → A → result S) (l : list A) :
  (∀ s a, a ∈ l → P s → outcome E P (f s a)) →
  ∀ s, P s → outcome E P (foldM f l s).
Proof.
  induction l as [|a l IH]; intros Hstep s Hs; simpl; [exact Hs|].
  apply outcome_bind with (P := P).
  - apply Hstep; [apply elem_of_cons; auto | exact Hs].
  - intros s' Hs'. apply IH; [|exact Hs'].
    intros s0 a0 Ha0. apply Hstep, elem_of_cons. auto.
Qed.

Lemma outcome_weaken {A : Type} (E E' : failure → Prop) (P Q : A → Prop) (r : result A) :
  (∀ f, E f → E' f) → (∀ a, P a → Q a) → outcome E P r → outcome E' Q r.
Proof. destruct r; simpl; auto. Qed.

Lemma outcome_returns {A : Type} (P : A → Prop) (r : result A) :
  outcome budget_only P r → terminates r → ∃ a, r = Ok a ∧ P a.
Proof.
  destruct r as [a|f]; simpl; [eauto|]. unfold budget_only, terminates.
  intros -> H. congruence.
Qed.

Lemma idx_in_range {A : Type} (v : list A) (i : Z) :
  0 ≤ i < Z.of_nat (length v) → ∃ a, idx v i = Ok a.
Proof.
  intros Hi. destruct (lookup_lt_is_Some_2 v (Z.to_nat i) ltac:(lia)) as [a Ha].
  exists a. apply idx_Ok. split; [lia | exact Ha].
Qed.

Lemma at_in_range {A : Type} (v : list A) (i : Z) :
  0 ≤ i < Z.of_nat (length v) → ∃ a, at_ v i = Ok a.
Proof.
  intros Hi. destruct (lookup_lt_is_Some_2 v (Z.to_nat i) ltac:(lia)) as [a Ha].
  exists a. apply at_Ok. split; [lia | exact Ha].
Qed.

Lemma set_idx_in_range {A : Type} (v : list A) (i : Z) (a : A) :
  0 ≤ i < Z.of_nat (length v) → set_idx v i a = Ok (<[Z.to_nat i := a]> v).
Proof. intros Hi. apply set_idx_Ok. split; [lia|]. split; [lia | reflexivity]. Qed.

(** A cell off the border has its eight neighbours inside the image. *)
Lemma off_border_range (nbinsx nbinsy bin : Z) :
  0 < nbinsx → on_border nbinsx nbinsy bin = false →
  nbinsx + 1 ≤ bin ∧ bin + nbinsx + 1 < nbinsx * nbinsy.
Proof.
  intros Hx H. unfold on_border in H.
  apply orb_false_iff in H as [H H4]. apply orb_false_iff in H as [H H3].
  apply orb_false_iff in H as [H1 H2].
  apply Z.ltb_ge in H1. apply Z.eqb_neq in H2, H3. apply Z.leb_gt in H4.
  rewrite Z.rem_mod_nonneg in H2, H3 by lia.
  pose proof (Z.mod_pos_bound bin nbinsx Hx) as Hr.
  pose proof (Z.div_mod bin nbinsx ltac:(lia)) as Hdm.
  assert (1 ≤ bin / nbinsx) by (apply Z.div_le_lower_bound; lia).
  assert (bin / nbinsx < nbinsy - 1) by (apply Z.div_lt_upper_bound; lia).
  nia.
Qed.

Lemma NumNeighbours_fold (nbinsx : Z) (used : list bool) (bin : Z) (l : list (Z * Z)) :
  Forall (λ xy, 0 ≤ bin + fst xy + snd xy * nbinsx < Z.of_nat (length used)) l →
  ∀ c0, ∃ c,
    foldM (λ neighbours xy,
             let '(x, y) := xy in
             if (x =? 0) && (y =? 0) then Ok neighbours
             else
               let neighbouringBin := bin + x + y * nbinsx in
               u ← at_ used neighbouringBin;
               Ok (if u : bool then S neighbours else neighbours)) l c0 = Ok c
    ∧ (c ≤ c0 + length (List.filter
                          (λ xy : Z * Z, negb ((fst xy =? 0)%Z && (snd xy =? 0)%Z)) l))%nat.
Proof.
  induction 1 as [|[x y] l Hxy _ IH]; intros c0.
  - exists c0. split; [reflexivity | simpl; lia].
  - simpl in Hxy. destruct ((x =? 0) && (y =? 0)) eqn:Hcentre.
    + destruct (IH c0) as (c & Heq & Hc). exists c. split.
      * simpl. rewrite Hcentre. exact Heq.
      * simpl. rewrite Hcentre. simpl. exact Hc.
    + destruct (at_in_range used _ Hxy) as [u Hu].
      destruct (IH (if u then S c0 else c0)) as (c & Heq & Hc). exists c. split.
      * simpl. rewrite Hcentre. simpl. rewrite Hu. exact Heq.
      * simpl. rewrite Hcentre. simpl. destruct u; lia.
Qed.

Lemma NumNeighbours_off_border_defined (nbinsx nbinsy : Z) (used : list bool) (bin : Z) :
  0 < nbinsx →
  Z.of_nat (length used) = nbinsx * nbinsy →
  on_border nbinsx nbinsy bin = false →
  ∃ c, NumNeighbours nbinsx used bin = Ok c.
Proof.
  intros Hx Hlen Hb. apply off_border_range in Hb as [Hlo Hhi]; [|exact Hx].
  unfold NumNeighbours.
  destruct (NumNeighbours_fold nbinsx used bin
              (grid (range_incl (-1) 1) (range_incl (-1) 1))) with (c0 := O)
    as (c & Hc & _); [|eauto].
  apply Forall_forall. intros [x y] Hxy. apply elem_of_grid in Hxy as [Hxr Hyr].
  apply elem_of_range_incl in Hxr, Hyr. simpl. nia.
Qed.

(** X9.  For a cell off the border of the image, [NumNeighbours] reads the
    mask within its bounds, returns, and counts at most 8 neighbours. *)
Theorem NumNeighbours_off_border (nbinsx nbinsy : Z) (used : list bool) (bin : Z) :
  0 < nbinsx →
  Z.of_nat (length used) = nbinsx * nbinsy →
  on_border nbinsx nbinsy bin = false →
  ∃ c, NumNeighbours nbinsx used bin = Ok c ∧ (c ≤ 8)%nat.
Proof.
  intros Hx Hlen Hb. apply off_border_range in Hb as [Hlo Hhi]; [|exact Hx].
  unfold NumNeighbours.
  destruct (NumNeighbours_fold nbinsx used bin
              (grid (range_incl (-1) 1) (range_incl (-1) 1))) with (c0 := O)
    as (c & Hc & Hle).
  - apply Forall_forall. intros [x y] Hxy. apply elem_of_grid in Hxy as [Hxr Hyr].
    apply elem_of_range_incl in Hxr, Hyr. simpl. nia.
  - exists c. split; [exact Hc | exact Hle].
Qed.

Lemma NumNeighbours_off_border_witness :
  ∃ c, NumNeighbours 3 Examples.ring3x3 4 = Ok c ∧ (c ≤ 8)%nat.
Proof.
  apply (NumNeighbours_off_border 3 3 Examples.ring3x3 4).
  - reflexivity.
  - reflexivity.
  - reflexivity.
Defined.

Section GrowerSafety.
Variable cfg : Config.
Variable m : Members.
Variable blurred : Image.
Variables n k : nat.
Hypothesis Hshape : shape n k blurred.
Hypothesis Hn : (0 < n)%nat.
Hypothesis Hk : (0 < k)%nat.
Hypothesis Hsize : Z.of_nat n * Z.of_nat k < 2 ^ 31.

Lemma bin_xy_in_range (bin : Z) :
  0 ≤ bin < Z.of_nat n * Z.of_nat k →
  bin_xy blurred bin = Ok (bin mod Z.of_nat n, bin / Z.of_nat n)
  ∧ 0 ≤ bin mod Z.of_nat n < Z.of_nat n ∧ 0 ≤ bin / Z.of_nat n < Z.of_nat k.
Proof.
  intros Hbin. destruct Hshape as [Hlen _]. unfold bin_xy. rewrite Hlen.
  destruct (Z.eqb_spec (Z.of_nat n) 0) as [|Hnz]; [lia|].
  rewrite to_size_t_nonneg by lia.
  pose proof (Z.mod_pos_bound bin (Z.of_nat n) ltac:(lia)).
  pose proof (Z.div_pos bin (Z.of_nat n) ltac:(lia) ltac:(lia)).
  assert (bin / Z.of_nat n < Z.of_nat k) by (apply Z.div_lt_upper_bound; lia).
  rewrite !to_int_small by nia. auto.
Qed.

Lemma ConvertBinToCharge_in_range (bin : Z) :
  0 ≤ bin < Z.of_nat n * Z.of_nat k → ∃ q, ConvertBinToCharge blurred bin = Ok q.
Proof.
  intros Hbin. destruct (bin_xy_in_range bin Hbin) as (Hxy & Hx & Hy).
  unfold ConvertBinToCharge. rewrite Hxy. simpl.
  exact (shape_at2 n k blurred _ _ Hshape Hx Hy).
Qed.

Lemma GetTimeOfBin_defined (bin : Z) : ∃ t, GetTimeOfBin m blurred bin = Ok t.
Proof.
  destruct Hshape as [Hlen _].
  unfold GetTimeOfBin, ConvertBinToRecobHit, bin_xy. rewrite Hlen.
  destruct (Z.eqb_spec (Z.of_nat n) 0) as [|Hnz]; [lia|]. simpl.
  destruct (hitmap_find _ _ _); eauto.
Qed.

Lemma add_bin_fits (st : Grow) (bin : Z) (time : Q) :
  fits (Z.of_nat n * Z.of_nat k) st → 0 ≤ bin < Z.of_nat n * Z.of_nat k →
  ∃ st', add_bin st bin time = Ok st' ∧ fits (Z.of_nat n * Z.of_nat k) st'.
Proof.
  intros [Hlen Hall] Hbin. unfold add_bin.
  rewrite set_idx_in_range by lia. simpl. eexists. split; [reflexivity|].
  split; simpl.
  - rewrite length_insert. exact Hlen.
  - apply Forall_app. split; [exact Hall|]. constructor; [exact Hbin | constructor].
Qed.

Lemma grow_candidate_safe (binx biny : Z) (acc : Grow * nat) (xy : Z * Z) :
  fits (Z.of_nat n * Z.of_nat k) (fst acc) →
  outcome budget_only (λ acc', fits (Z.of_nat n * Z.of_nat k) (fst acc'))
          (grow_candidate cfg m blurred (Z.of_nat n) (Z.of_nat k) binx biny acc xy).
Proof.
  destruct acc as [st nadded], xy as [x y]. simpl. intros Hfit.
  unfold grow_candidate.
  destruct (_ || _); [exact Hfit|].
  destruct (Z.leb_spec (Z.of_nat n * Z.of_nat k) (ConvertWireTickToBin blurred x y));
    [exact Hfit|].
  destruct (Z.ltb_spec (ConvertWireTickToBin blurred x y) 0); [exact Hfit|]. simpl.
  destruct (idx_in_range (used st) (ConvertWireTickToBin blurred x y)) as [u ->];
    [destruct Hfit; lia|]. simpl.
  destruct u; [exact Hfit|].
  destruct (ConvertBinToCharge_in_range (ConvertWireTickToBin blurred x y)) as [q ->];
    [lia|]. simpl.
  destruct (GetTimeOfBin_defined (ConvertWireTickToBin blurred x y)) as [t ->]. simpl.
  destruct (fails_growing_time_cut _ _ _); [exact Hfit|].
  destruct (Qltb _ _); [|exact Hfit].
  destruct (add_bin_fits st (ConvertWireTickToBin blurred x y) t Hfit) as (st' & -> & Hfit');
    [lia|]. exact Hfit'.
Qed.

Lemma grow_bin_safe (acc : Grow * nat) (bin : Z) :
  fits (Z.of_nat n * Z.of_nat k) (fst acc) →
  outcome budget_only (λ acc', fits (Z.of_nat n * Z.of_nat k) (fst acc'))
          (grow_bin cfg m blurred (Z.of_nat n) (Z.of_nat k) acc bin).
Proof.
  intros Hfit. unfold grow_bin.
  apply outcome_foldM with (P := λ acc', fits (Z.of_nat n * Z.of_nat k) (fst acc'));
    [|exact Hfit].
  intros acc' xy _ Hfit'. apply grow_candidate_safe. exact Hfit'.
Qed.

Lemma grow_scan_safe (fuel : nat) :
  ∀ clusBin acc,
    fits (Z.of_nat n * Z.of_nat k) (fst acc) →
    outcome budget_only (λ acc', fits (Z.of_nat n * Z.of_nat k) (fst acc'))
            (grow_scan cfg m blurred (Z.of_nat n) (Z.of_nat k) fuel clusBin acc).
Proof.
  induction fuel as [|fuel IH]; intros clusBin acc Hfit; simpl; [reflexivity|].
  destruct (cluster (fst acc) !! clusBin); [|exact Hfit].
  eapply outcome_bind; [apply grow_bin_safe; exact Hfit|].
  intros acc' Hfit'. apply IH. exact Hfit'.
Qed.

Lemma grow_loop_safe (scan_fuel fuel : nat) :
  ∀ st,
    fits (Z.of_nat n * Z.of_nat k) st →
    outcome budget_only (fits (Z.of_nat n * Z.of_nat k))
            (grow_loop cfg m blurred (Z.of_nat n) (Z.of_nat k) fuel scan_fuel st).
Proof.
  induction fuel as [|fuel IH]; intros st Hfit; simpl; [reflexivity|].
  eapply outcome_bind; [apply (grow_scan_safe scan_fuel 0 (st, O)); exact Hfit|].
  intros [st' nadded] Hfit'. simpl in Hfit'.
  destruct nadded; [exact Hfit' | apply IH; exact Hfit'].
Qed.

Lemma seed_and_grow_safe (fuel : nat) (used0 : list bool) (bin : Z) :
  Z.of_nat (length used0) = Z.of_nat n * Z.of_nat k →
  0 ≤ bin < Z.of_nat n * Z.of_nat k →
  outcome budget_only (fits (Z.of_nat n * Z.of_nat k))
          (seed_and_grow cfg m blurred (Z.of_nat n) (Z.of_nat k) fuel used0 bin).
Proof.
  intros Hlen Hbin. unfold seed_and_grow.
  rewrite set_idx_in_range by lia. simpl.
  destruct (GetTimeOfBin_defined bin) as [t ->]. simpl.
  apply grow_loop_safe. split; simpl.
  - rewrite length_insert. exact Hlen.
  - constructor; [exact Hbin | constructor].
Qed.

Lemma hole_candidate_safe (bin : Z) (st : Grow) (xy : Z * Z) :
  fits (Z.of_nat n * Z.of_nat k) st →
  outcome budget_only (fits (Z.of_nat n * Z.of_nat k))
          (hole_candidate cfg m blurred (Z.of_nat n) (Z.of_nat k) bin st xy).
Proof.
  destruct xy as [x y]. intros Hfit. unfold hole_candidate.
  destruct (_ && _); [exact Hfit|].
  destruct (on_border _ _ _) eqn:Hb; [exact Hfit|].
  pose proof (off_border_range (Z.of_nat n) (Z.of_nat k) _ ltac:(lia) Hb) as [Hlo Hhi].
  destruct (GetTimeOfBin_defined (bin + x + y * Z.of_nat n)) as [t ->]. simpl.
  unfold fills_hole.
  destruct (idx_in_range (used st) (bin + x + y * Z.of_nat n)) as [u ->];
    [destruct Hfit; lia|]. simpl.
  destruct u; simpl; [exact Hfit|].
  destruct (NumNeighbours_off_border_defined (Z.of_nat n) (Z.of_nat k) (used st)
              (bin + x + y * Z.of_nat n)) as (c & ->);
    [lia | destruct Hfit; assumption | exact Hb |]. simpl.
  destruct (_ && _); [|exact Hfit].
  destruct (add_bin_fits st (bin + x + y * Z.of_nat n) t Hfit) as (st' & -> & Hfit');
    [lia|]. exact Hfit'.
Qed.

Lemma hole_scan_safe (fuel : nat) :
  ∀ clusBin st,
    fits (Z.of_nat n * Z.of_nat k) st →
    outcome budget_only (fits (Z.of_nat n * Z.of_nat k))
            (hole_scan cfg m blurred (Z.of_nat n) (Z.of_nat k) fuel clusBin st).
Proof.
  induction fuel as [|fuel IH]; intros clusBin st Hfit; simpl; [reflexivity|].
  destruct (cluster st !! clusBin) as [bin|]; [|exact Hfit].
  eapply outcome_bind.
  - unfold hole_bin.
    apply outcome_foldM with (P := fits (Z.of_nat n * Z.of_nat k)); [|exact Hfit].
    intros st' xy _ Hfit'. apply hole_candidate_safe. exact Hfit'.
  - intros st' Hfit'. apply IH. exact Hfit'.
Qed.

Lemma prune_scan_safe (i : nat) :
  ∀ st nremoved,
    (i ≤ length (cluster st))%nat →
    fits (Z.of_nat n * Z.of_nat k) st →
    outcome budget_only (λ acc', fits (Z.of_nat n * Z.of_nat k) (fst acc'))
            (prune_scan cfg blurred (Z.of_nat n) (Z.of_nat k) i (st, nremoved)).
Proof.
  induction i as [|clusBin IH]; intros st nremoved Hi Hfit; simpl; [exact Hfit|].
  destruct (lookup_lt_is_Some_2 (cluster st) clusBin ltac:(lia)) as [bin Hbin].
  assert (Hidx : idx (cluster st) (Z.of_nat clusBin) = Ok bin).
  { apply idx_Ok. rewrite Nat2Z.id. split; [lia | exact Hbin]. }
  rewrite Hidx. simpl.
  destruct (on_border _ _ _) eqn:Hb; [apply IH; [lia | exact Hfit]|].
  destruct Hfit as [Hlen Hall].
  destruct (NumNeighbours_off_border_defined (Z.of_nat n) (Z.of_nat k) (used st) bin)
    as (c & ->); [lia | exact Hlen | exact Hb |]. simpl.
  destruct (_ <? _); [|apply IH; [lia | split; assumption]].
  assert (Hvalid : 0 ≤ bin < Z.of_nat n * Z.of_nat k).
  { rewrite Forall_forall in Hall. apply Hall. eapply list_elem_of_lookup_2; eauto. }
  rewrite set_idx_in_range by lia. simpl.
  destruct (ConvertBinToCharge_in_range bin Hvalid) as [q ->]. simpl.
  apply IH; simpl.
  - rewrite length_delete by eauto. lia.
  - split; simpl; [rewrite length_insert; exact Hlen|].
    apply Forall_delete. exact Hall.
Qed.

Lemma prune_loop_safe (fuel : nat) :
  ∀ st,
    fits (Z.of_nat n * Z.of_nat k) st →
    outcome budget_only (fits (Z.of_nat n * Z.of_nat k))
            (prune_loop cfg blurred (Z.of_nat n) (Z.of_nat k) fuel st).
Proof.
  induction fuel as [|fuel IH]; intros st Hfit; simpl; [reflexivity|].
  eapply outcome_bind; [apply prune_scan_safe; [lia | exact Hfit]|].
  intros [st' nremoved] Hfit'. simpl in Hfit'.
  destruct nremoved; [exact Hfit' | apply IH; exact Hfit'].
Qed.

Lemma unmark_all_safe (cells : list Z) :
  ∀ used0,
    Z.of_nat (length used0) = Z.of_nat n * Z.of_nat k →
    Forall (λ b, 0 ≤ b < Z.of_nat n * Z.of_nat k) cells →
    outcome budget_only (λ used', Z.of_nat (length used') = Z.of_nat n * Z.of_nat k)
            (unmark_all used0 cells).
Proof.
  intros used0 Hlen Hall. unfold unmark_all.
  apply outcome_foldM
    with (P := λ used' : list bool, Z.of_nat (length used') = Z.of_nat n * Z.of_nat k);
    [|exact Hlen].
  intros used' b Hb Hlen'. rewrite Forall_forall in Hall. specialize (Hall b Hb).
  rewrite set_idx_in_range by lia. simpl. rewrite length_insert. exact Hlen'.
Qed.

Lemma cluster_loop_outcome (fuel : nat) (values : list (Q * Z)) :
  ∀ used0 allcluster,
    Forall (λ v, 0 ≤ snd v < Z.of_nat n * Z.of_nat k) values →
    Z.of_nat (length used0) = Z.of_nat n * Z.of_nat k →
    outcome (λ f, f = out_of_fuel
                  ∨ (f = undefined_behaviour
                     ∧ Forall (λ v, Qltb (fst v) (fMinSeed cfg) = false) values))
            (λ _, Exists (λ v, Qltb (fst v) (fMinSeed cfg) = true) values)
            (cluster_loop cfg m blurred (Z.of_nat n) (Z.of_nat k) fuel values used0 allcluster).
Proof.
  induction values as [|[blurred_binval bin] values IH]; intros used0 allcluster Hall Hlen.
  { simpl. right. split; [reflexivity | constructor]. }
  apply Forall_cons in Hall as [Hbin Hall]. simpl in Hbin.
  simpl. destruct (Qltb blurred_binval (fMinSeed cfg)) eqn:Hseed.
  { simpl. apply Exists_cons_hd. exact Hseed. }
  assert (Hrec : ∀ used1 allcluster1,
            Z.of_nat (length used1) = Z.of_nat n * Z.of_nat k →
            outcome (λ f, f = out_of_fuel
                          ∨ (f = undefined_behaviour
                             ∧ Forall (λ v, Qltb (fst v) (fMinSeed cfg) = false)
                                      ((blurred_binval, bin) :: values)))
                    (λ _, Exists (λ v, Qltb (fst v) (fMinSeed cfg) = true)
                                 ((blurred_binval, bin) :: values))
                    (cluster_loop cfg m blurred (Z.of_nat n) (Z.of_nat k) fuel values
                                  used1 allcluster1)).
  { intros used1 allcluster1 Hlen1.
    eapply outcome_weaken; [| |apply (IH used1 allcluster1 Hall Hlen1)].
    - intros f [->|[-> Hf]]; [left; reflexivity|]. right. split; [reflexivity|].
      constructor; [exact Hseed | exact Hf].
    - intros ? Hex. apply Exists_cons_tl. exact Hex. }
  assert (Hdiscard : ∀ st allcluster1,
            fits (Z.of_nat n * Z.of_nat k) st →
            outcome (λ f, f = out_of_fuel
                          ∨ (f = undefined_behaviour
                             ∧ Forall (λ v, Qltb (fst v) (fMinSeed cfg) = false)
                                      ((blurred_binval, bin) :: values)))
                    (λ _, Exists (λ v, Qltb (fst v) (fMinSeed cfg) = true)
                                 ((blurred_binval, bin) :: values))
                    (used' ← unmark_all (used st) (cluster st);
                     cluster_loop cfg m blurred (Z.of_nat n) (Z.of_nat k) fuel values
                                  used' allcluster1)).
  { intros st allcluster1 [Hl Hc].
    eapply outcome_bind.
    - eapply outcome_weaken; [| |apply (unmark_all_safe (cluster st) (used st) Hl Hc)].
      + intros f ->. left. reflexivity.
      + intros a Ha. exact Ha.
    - intros used' Hlen'. apply Hrec. exact Hlen'. }
  destruct (idx_in_range used0 bin) as [u ->]; [lia|]. simpl.
  destruct u; [apply Hrec; exact Hlen|].
  eapply outcome_bind.
  { eapply outcome_weaken; [| |apply (seed_and_grow_safe fuel used0 bin Hlen Hbin)].
    - intros f ->. left. reflexivity.
    - intros a Ha. exact Ha. }
  intros st Hfit. simpl in Hfit.
  destruct (_ <? _)%nat; [apply Hdiscard; exact Hfit|].
  eapply outcome_bind.
  { eapply outcome_weaken; [| |apply (hole_scan_safe fuel 0 st Hfit)].
    - intros f ->. left. reflexivity.
    - intros a Ha. exact Ha. }
  intros st1 Hfit1. simpl in Hfit1.
  eapply outcome_bind.
  { eapply outcome_weaken; [| |apply (prune_loop_safe fuel st1 Hfit1)].
    - intros f ->. left. reflexivity.
    - intros a Ha. exact Ha. }
  intros st2 Hfit2. simpl in Hfit2.
  destruct (_ <? _)%nat; [apply Hdiscard; exact Hfit2|].
  apply Hrec. destruct Hfit2 as [Hl _]. exact Hl.
Qed.

Lemma foldM_collect {A B : Type} (f : A → result B) (l : list A) :
  (∀ a, a ∈ l → ∃ b, f a = Ok b) →
  ∀ acc, ∃ bs,
    foldM (λ vs a, b ← f a; Ok (vs ++ [b])) l acc = Ok (acc ++ bs)
    ∧ ∀ b, b ∈ bs ↔ ∃ a, a ∈ l ∧ f a = Ok b.
Proof.
  induction l as [|a l IH]; intros Hall acc.
  - exists []. simpl. rewrite app_nil_r. split; [reflexivity|].
    intros b. split; [intros Hb%elem_of_nil; contradiction|].
    intros (a & Ha%elem_of_nil & _). contradiction.
  - destruct (Hall a) as [b Hb]; [apply elem_of_cons; auto|].
    destruct (IH (λ a' Ha', Hall a' ltac:(apply elem_of_cons; auto)) (acc ++ [b]))
      as (bs & Hbs & Hmem).
    exists (b :: bs). split.
    + simpl. rewrite Hb. simpl. rewrite Hbs, <- app_assoc. reflexivity.
    + intros b'. rewrite elem_of_cons, Hmem. split.
      * intros [->|(a' & Ha' & Hf)]; [exists a | exists a']; rewrite elem_of_cons; auto.
      * intros (a' & [->|Ha']%elem_of_cons & Hf); [left; congruence | right; eauto].
Qed.

Lemma bin_values_cells :
  ∃ values,
    bin_values blurred (Z.of_nat n) (Z.of_nat k) = Ok values
    ∧ ∀ q b, (q, b) ∈ values ↔
             ∃ x y, 0 ≤ x < Z.of_nat n ∧ 0 ≤ y < Z.of_nat k
                    ∧ b = ConvertWireTickToBin blurred x y ∧ at2 blurred x y = Ok q.
Proof.
  pose proof Hshape as [Hlen _].
  assert (Hcell : ∀ x y, 0 ≤ x < Z.of_nat n → 0 ≤ y < Z.of_nat k →
            ConvertBinToCharge blurred (ConvertWireTickToBin blurred x y) = at2 blurred x y).
  { intros x y Hx Hy. unfold ConvertBinToCharge. rewrite bin_xy_of_cell; [reflexivity|lia|lia|].
    unfold ConvertWireTickToBin. rewrite Hlen. nia. }
  set (f := λ xy : Z * Z,
              charge ← ConvertBinToCharge blurred
                         (ConvertWireTickToBin blurred (fst xy) (snd xy));
              Ok (charge, ConvertWireTickToBin blurred (fst xy) (snd xy))).
  destruct (foldM_collect f (grid (range_excl 0 (Z.of_nat n)) (range_excl 0 (Z.of_nat k))))
    with (acc := @nil (Q * Z)) as (values & Hrun & Hmem).
  - intros [x y] Hxy. apply elem_of_grid in Hxy as [Hx Hy].
    apply elem_of_range_excl in Hx, Hy. unfold f. simpl. rewrite Hcell by assumption.
    destruct (shape_at2 n k blurred x y Hshape Hx Hy) as [q ->]. simpl. eauto.
  - exists values. split.
    + rewrite app_nil_l in Hrun. unfold bin_values. rewrite <- Hrun. apply foldM_ext.
      intros vs [x y]. unfold f. simpl.
      destruct (ConvertBinToCharge _ _); reflexivity.
    + intros q b. rewrite Hmem. split.
      * intros ([x y] & Hxy & Hf). apply elem_of_grid in Hxy as [Hx Hy].
        apply elem_of_range_excl in Hx, Hy. unfold f in Hf. simpl in Hf.
        rewrite Hcell in Hf by assumption.
        inv_ok Hf. inversion Hf; subst. exists x, y. auto.
      * intros (x & y & Hx & Hy & -> & Hq). exists (x, y). split.
        -- apply elem_of_grid. rewrite !elem_of_range_excl. auto.
        -- unfold f. simpl. rewrite Hcell by assumption. rewrite Hq. reflexivity.
Qed.

Lemma insert_desc_elem (a x : Q * Z) (l : list (Q * Z)) :
  x ∈ insert_desc a l ↔ x = a ∨ x ∈ l.
Proof.
  induction l as [|b l IH]; simpl.
  - rewrite list_elem_of_singleton, elem_of_nil. tauto.
  - destruct (pair_ltb a b); rewrite !elem_of_cons; [rewrite IH|]; tauto.
Qed.

Lemma sort_desc_elem (x : Q * Z) (l : list (Q * Z)) : x ∈ sort_desc l ↔ x ∈ l.
Proof.
  induction l as [|a l IH]; simpl; [reflexivity|].
  rewrite insert_desc_elem, elem_of_cons, IH. reflexivity.
Qed.

Lemma at2_in_shape (x y : Z) (q : Q) :
  at2 blurred x y = Ok q → 0 ≤ x < Z.of_nat n ∧ 0 ≤ y < Z.of_nat k.
Proof.
  destruct Hshape as [Hlen Hcols]. unfold at2. intros H. inv_ok H.
  apply at_Ok in Hok as [Hx Hcol]. apply at_Ok in H as [Hy Hq].
  rewrite Forall_forall in Hcols.
  pose proof (Hcols a (list_elem_of_lookup_2 _ _ _ Hcol)) as Hk'.
  apply lookup_lt_Some in Hcol, Hq. lia.
Qed.

Lemma FindClusters_run_outcome (fuel : nat) (allcluster : list (list Z)) :
  outcome (λ f, f = out_of_fuel
                ∨ (f = undefined_behaviour
                   ∧ ∀ x y q, at2 blurred x y = Ok q → Qltb q (fMinSeed cfg) = false))
          (λ _, ∃ x y q, at2 blurred x y = Ok q ∧ Qltb q (fMinSeed cfg) = true)
          (FindClusters_run cfg m fuel blurred allcluster).
Proof.
  pose proof Hshape as [Hlen Hcols]. unfold FindClusters_run.
  destruct (at_in_range blurred 0) as [col0 Hcol0]; [lia|]. rewrite Hcol0. simpl.
  assert (Hk0 : length col0 = k).
  { apply at_Ok in Hcol0 as [_ Hl]. rewrite Forall_forall in Hcols.
    apply Hcols. eapply list_elem_of_lookup_2; eauto. }
  rewrite Hlen, Hk0. rewrite vector_n_nonneg by lia. simpl.
  destruct bin_values_cells as (values & -> & Hmem). simpl.
  eapply outcome_weaken; [| |apply cluster_loop_outcome].
  - intros f [->|[-> Hall]]; [left; reflexivity|]. right. split; [reflexivity|].
    intros x y q Hq. destruct (at2_in_shape x y q Hq) as [Hx Hy].
    rewrite Forall_forall in Hall.
    apply (Hall (q, ConvertWireTickToBin blurred x y)).
    apply sort_desc_elem, Hmem. exists x, y. auto.
  - intros ? Hex. apply Exists_exists in Hex as ([q b] & Hin & Hq).
    apply sort_desc_elem, Hmem in Hin as (x & y & _ & _ & _ & Hat). eauto.
  - apply Forall_forall. intros [q b] Hin.
    apply sort_desc_elem, Hmem in Hin as (x & y & Hx & Hy & -> & _).
    simpl. unfold ConvertWireTickToBin. rewrite Hlen. nia.
  - rewrite length_replicate. lia.
Qed.
End GrowerSafety.

(** X10.  On a rectangular image of at least one cell and fewer than 2^31
    cells, with a loop budget above the number of cells, [FindClusters]
    returns whenever some cell lies below the seed threshold [fMinSeed]: no
    access of the growing, the hole filling or the pruning is out of
    range. *)
Theorem FindClusters_returns (cfg : Config) (m : Members) (fuel : nat) (blurred : Image)
    (n k : nat) (x y : Z) (q : Q) :
  shape n k blurred → (0 < n)%nat → (0 < k)%nat →
  Z.of_nat n * Z.of_nat k < 2 ^ 31 →
  (n * k < fuel)%nat →
  at2 blurred x y = Ok q → Qltb q (fMinSeed cfg) = true →
  ∃ allcluster mask, FindClusters_run cfg m fuel blurred [] = Ok (allcluster, mask).
Proof.
  intros Hshape Hn Hk Hsize Hfuel Hq Hseed.
  pose proof (FindClusters_run_outcome cfg m blurred n k Hshape Hn Hk Hsize fuel [])
    as Hout.
  destruct Hshape as [Hlen Hcols].
  destruct (lookup_lt_is_Some_2 blurred 0 ltac:(lia)) as [col0 Hcol0].
  assert (Hk0 : length col0 = k).
  { rewrite Forall_forall in Hcols. apply Hcols. eapply list_elem_of_lookup_2; eauto. }
  pose proof (FindClusters_run_terminates cfg m fuel blurred col0 Hcol0
                ltac:(rewrite Hlen, Hk0; exact Hfuel)) as Hterm.
  destruct (FindClusters_run cfg m fuel blurred []) as [[allcluster mask]|f]; [eauto|].
  simpl in Hout. destruct Hout as [->|[_ Hall]]; [exfalso; apply Hterm; reflexivity|].
  rewrite (Hall x y q Hq) in Hseed. discriminate.
Qed.

Lemma FindClusters_returns_witness :
  ∃ allcluster mask,
    FindClusters_run Examples.cfg_grow Examples.no_hits 36 Examples.blurred7x5 []
    = Ok (allcluster, mask).
Proof.
  apply (FindClusters_returns Examples.cfg_grow Examples.no_hits 36 Examples.blurred7x5
           7 5 0 0 0%Q).
  - split; [reflexivity | repeat constructor].
  - lia.
  - lia.
  - reflexivity.
  - simpl. lia.
  - reflexivity.
  - reflexivity.
Defined.

Lemma at2_elem (image : Image) (x y : Z) (q : Q) :
  at2 image x y = Ok q → ∃ col, col ∈ image ∧ q ∈ col.
Proof.
  unfold at2. intros H. inv_ok H.
  apply at_Ok in Hok as [_ Hcol]. apply at_Ok in H as [_ Hq].
  exists a. split; eapply list_elem_of_lookup_2; eauto.
Qed.

(** X11.  The clustering loop has no test for the end of the sorted values:
    on a rectangular image in which no cell lies below the seed threshold
    [fMinSeed], [FindClusters] reads [values] past its end, which is
    undefined. *)
Theorem FindClusters_reads_past_values (cfg : Config) (m : Members) (fuel : nat)
    (blurred : Image) (n k : nat) :
  shape n k blurred → (0 < n)%nat → (0 < k)%nat →
  Z.of_nat n * Z.of_nat k < 2 ^ 31 →
  (n * k < fuel)%nat →
  Forall (Forall (λ q, Qltb q (fMinSeed cfg) = false)) blurred →
  FindClusters_run cfg m fuel blurred [] = Fail undefined_behaviour.
Proof.
  intros Hshape Hn Hk Hsize Hfuel Hall.
  pose proof (FindClusters_run_outcome cfg m blurred n k Hshape Hn Hk Hsize fuel [])
    as Hout.
  destruct Hshape as [Hlen Hcols].
  destruct (lookup_lt_is_Some_2 blurred 0 ltac:(lia)) as [col0 Hcol0].
  assert (Hk0 : length col0 = k).
  { rewrite Forall_forall in Hcols. apply Hcols. eapply list_elem_of_lookup_2; eauto. }
  pose proof (FindClusters_run_terminates cfg m fuel blurred col0 Hcol0
                ltac:(rewrite Hlen, Hk0; exact Hfuel)) as Hterm.
  destruct (FindClusters_run cfg m fuel blurred []) as [[allcluster mask]|f].
  - simpl in Hout. destruct Hout as (x & y & q & Hq & Hseed).
    apply at2_elem in Hq as (col & Hcol & Hq).
    rewrite Forall_forall in Hall. specialize (Hall col Hcol).
    rewrite Forall_forall in Hall. rewrite (Hall q Hq) in Hseed. discriminate.
  - simpl in Hout. destruct Hout as [->|[-> _]]; [exfalso; apply Hterm|]; reflexivity.
Qed.

Lemma FindClusters_reads_past_values_witness :
  FindClusters_run Examples.cfg_grow Examples.no_hits 5 Examples.flat2x2 []
  = Fail undefined_behaviour.
Proof.
  apply (FindClusters_reads_past_values Examples.cfg_grow Examples.no_hits 5
           Examples.flat2x2 2 2).
  - split; [reflexivity | repeat constructor].
  - lia.
  - lia.
  - reflexivity.
  - simpl. lia.
  - repeat constructor.
Defined.

(** ** What the growing, the hole filling and the pruning do to a cluster *)

Section Stages.
Variable cfg : Config.
Variable m : Members.
Variable blurred : Image.
Variables nbinsx nbinsy : Z.

Lemma grow_candidate_grown (seed binx biny bin0 : Z) (acc acc' : Grow * nat) (xy : Z * Z) :
  binx = Z.rem bin0 nbinsx →
  biny = Z.rem (Z.quot (bin0 - binx) nbinsx) nbinsy →
  binx - fClusterWireDistance cfg ≤ fst xy ≤ binx + fClusterWireDistance cfg →
  biny - fClusterTickDistance cfg ≤ snd xy ≤ biny + fClusterTickDistance cfg →
  grown cfg blurred nbinsx nbinsy seed (cluster (fst acc)) ∧ bin0 ∈ cluster (fst acc) →
  grow_candidate cfg m blurred nbinsx nbinsy binx biny acc xy = Ok acc' →
  grown cfg blurred nbinsx nbinsy seed (cluster (fst acc')) ∧ bin0 ∈ cluster (fst acc').
Proof.
  destruct acc as [st nadded], xy as [x y]. simpl.
  intros Hbx Hby Hx Hy [Hg Hin] H. unfold grow_candidate in H.
  destruct (_ || _) eqn:Hguard in H; [inversion H; subst; auto|].
  destruct (_ || _) in H; [inversion H; subst; auto|].
  inv_ok H. destruct a; [inversion H; subst; auto|].
  inv_ok H. inv_ok H.
  destruct (fails_growing_time_cut _ _ _) in H; [inversion H; subst; auto|].
  destruct (Qltb _ _) eqn:Hthr in H; [|inversion H; subst; auto].
  inv_ok H. inversion H; subst acc'; clear H. simpl.
  rename a into q, a0 into time.
  unfold add_bin in Hok2. inv_ok Hok2. inversion Hok2; subst a1; clear Hok2. simpl.
  split; [|apply elem_of_app; auto].
  apply grown_add; [exact Hg|].
  apply orb_false_iff in Hguard as [Hguard H3]. apply orb_false_iff in Hguard as [_ H2].
  apply orb_false_iff in H2 as [H2x H2y]. apply orb_false_iff in H3 as [H3x H3y].
  apply Z.leb_gt in H2x, H2y. apply Z.ltb_ge in H3x, H3y.
  exists bin0, x, y, q. rewrite <- Hbx, <- Hby. apply Qltb_lt in Hthr.
  repeat split; try assumption; lia.
Qed.

Lemma grow_fold_grown (seed bin : Z) (l : list (Z * Z)) :
  Forall (λ xy,
            Z.rem bin nbinsx - fClusterWireDistance cfg ≤ fst xy
              ≤ Z.rem bin nbinsx + fClusterWireDistance cfg
            ∧ Z.rem (Z.quot (bin - Z.rem bin nbinsx) nbinsx) nbinsy
              - fClusterTickDistance cfg ≤ snd xy
              ≤ Z.rem (Z.quot (bin - Z.rem bin nbinsx) nbinsx) nbinsy
                + fClusterTickDistance cfg) l →
  ∀ acc acc',
    grown cfg blurred nbinsx nbinsy seed (cluster (fst acc)) ∧ bin ∈ cluster (fst acc) →
    foldM (grow_candidate cfg m blurred nbinsx nbinsy (Z.rem bin nbinsx)
             (Z.rem (Z.quot (bin - Z.rem bin nbinsx) nbinsx) nbinsy)) l acc = Ok acc' →
    grown cfg blurred nbinsx nbinsy seed (cluster (fst acc')) ∧ bin ∈ cluster (fst acc').
Proof.
  induction 1 as [|xy l [Hx Hy] _ IH]; intros acc acc' Hinv H; simpl in H.
  - inversion H; subst. exact Hinv.
  - inv_ok H. eapply IH; [|exact H].
    eapply (grow_candidate_grown seed _ _ bin); eauto.
Qed.

Lemma grow_bin_grown (seed : Z) (acc acc' : Grow * nat) (bin : Z) :
  grown cfg blurred nbinsx nbinsy seed (cluster (fst acc)) ∧ bin ∈ cluster (fst acc) →
  grow_bin cfg m blurred nbinsx nbinsy acc bin = Ok acc' →
  grown cfg blurred nbinsx nbinsy seed (cluster (fst acc')) ∧ bin ∈ cluster (fst acc').
Proof.
  intros Hinv H. unfold grow_bin in H.
  eapply grow_fold_grown; [|exact Hinv|exact H].
  apply Forall_forall. intros [x y] Hxy. apply elem_of_grid in Hxy as [Hx Hy].
  apply elem_of_range_incl in Hx, Hy. simpl. auto.
Qed.

Lemma grow_scan_grown (seed : Z) (fuel : nat) :
  ∀ clusBin acc acc',
    grown cfg blurred nbinsx nbinsy seed (cluster (fst acc)) →
    grow_scan cfg m blurred nbinsx nbinsy fuel clusBin acc = Ok acc' →
    grown cfg blurred nbinsx nbinsy seed (cluster (fst acc')).
Proof.
  induction fuel as [|fuel IH]; intros clusBin acc acc' Hg H; simpl in H; [discriminate|].
  destruct (cluster (fst acc) !! clusBin) as [bin|] eqn:Hbin;
    [|inversion H; subst; exact Hg].
  inv_ok H. eapply IH; [|exact H].
  eapply (grow_bin_grown seed acc a bin); [|exact Hok].
  split; [exact Hg | eapply list_elem_of_lookup_2; eauto].
Qed.

Lemma grow_loop_grown (seed : Z) (scan_fuel fuel : nat) :
  ∀ st st',
    grown cfg blurred nbinsx nbinsy seed (cluster st) →
    grow_loop cfg m blurred nbinsx nbinsy fuel scan_fuel st = Ok st' →
    grown cfg blurred nbinsx nbinsy seed (cluster st').
Proof.
  induction fuel as [|fuel IH]; intros st st' Hg H; simpl in H; [discriminate|].
  inv_ok H. destruct a as [st1 nadded].
  apply (grow_scan_grown seed) in Hok; [|exact Hg]. simpl in Hok.
  destruct nadded; [inversion H; subst; exact Hok | eapply IH; eauto].
Qed.

(** X12.  The growing builds a cluster from its seed one cell at a time:
    every cell after the seed is the bin of a cell of the image that lies
    within [fClusterWireDistance] wires and [fClusterTickDistance] ticks of
    a cell already in the cluster, and its blurred charge is above
    [fChargeThreshold]. *)
Theorem seed_and_grow_builds_from_seed (fuel : nat) (used0 : list bool) (bin : Z)
    (st : Grow) :
  seed_and_grow cfg m blurred nbinsx nbinsy fuel used0 bin = Ok st →
  grown cfg blurred nbinsx nbinsy bin (cluster st).
Proof.
  intros H. unfold seed_and_grow in H. inv_ok H. inv_ok H.
  eapply grow_loop_grown; [|exact H]. simpl. constructor.
Qed.
End Stages.

Lemma seed_and_grow_builds_from_seed_witness :
  ∃ st,
    seed_and_grow Examples.cfg_grow Examples.no_hits Examples.blurred7x5 7 5 10
                  (replicate 35 false) 8 = Ok st
    ∧ cluster st = [8; 9]
    ∧ grown Examples.cfg_grow Examples.blurred7x5 7 5 8 (cluster st).
Proof.
  eexists. split; [vm_compute; reflexivity|]. split; [reflexivity|].
  apply (seed_and_grow_builds_from_seed Examples.cfg_grow Examples.no_hits
           Examples.blurred7x5 7 5 10 (replicate 35 false) 8).
  vm_compute. reflexivity.
Defined.

Section Pruning.
Variable cfg : Config.
Variable blurred : Image.
Variables nbinsx nbinsy : Z.

(** A pass of the pruning that removes nothing changes nothing, and then
    every cell it visited is one the pruning leaves in place. *)
Lemma prune_scan_count (i : nat) :
  ∀ st nremoved st' nremoved',
    prune_scan cfg blurred nbinsx nbinsy i (st, nremoved) = Ok (st', nremoved') →
    (nremoved ≤ nremoved')%nat
    ∧ (nremoved' = nremoved →
       st' = st
       ∧ ∀ j b, (j < i)%nat → cluster st !! j = Some b →
                unpruned cfg nbinsx nbinsy (used st) b).
Proof.
  induction i as [|clusBin IH]; intros st nremoved st' nremoved' H; simpl in H.
  - inversion H; subst. split; [lia|]. intros _. split; [reflexivity|]. intros j b Hj. lia.
  - inv_ok H. rename a into bin.
    apply idx_Ok in Hok as [_ Hbin]. rewrite Nat2Z.id in Hbin.
    assert (Hkeep : unpruned cfg nbinsx nbinsy (used st) bin →
              prune_scan cfg blurred nbinsx nbinsy clusBin (st, nremoved)
                = Ok (st', nremoved') →
              (nremoved ≤ nremoved')%nat
              ∧ (nremoved' = nremoved →
                 st' = st
                 ∧ ∀ j b, (j < S clusBin)%nat → cluster st !! j = Some b →
                          unpruned cfg nbinsx nbinsy (used st) b)).
    { intros Hun Hrec. apply IH in Hrec as [Hle Heq]. split; [exact Hle|].
      intros E. destruct (Heq E) as [-> Hall]. split; [reflexivity|].
      intros j b Hj Hb. destruct (decide (j = clusBin)) as [->|Hne].
      - rewrite Hbin in Hb. inversion Hb; subst. exact Hun.
      - apply (Hall j b); [lia | exact Hb]. }
    destruct (on_border nbinsx nbinsy bin) eqn:Hb; [apply Hkeep; [left; exact Hb | exact H]|].
    inv_ok H. rename a into c.
    destruct (Z.ltb_spec (Z.of_nat c) (fMinNeighbours cfg)).
    + inv_ok H. inv_ok H. apply IH in H as [Hle _]. split; [lia|]. intros E. lia.
    + apply Hkeep; [|exact H]. right. exists c. split; [exact Hok | lia].
Qed.

Lemma prune_scan_keeps (i : nat) :
  ∀ st nremoved st' nremoved',
    prune_scan cfg blurred nbinsx nbinsy i (st, nremoved) = Ok (st', nremoved') →
    times st' = times st
    ∧ sublist (cluster st') (cluster st)
    ∧ ∀ b, b ∈ cluster st → on_border nbinsx nbinsy b = true → b ∈ cluster st'.
Proof.
  induction i as [|clusBin IH]; intros st nremoved st' nremoved' H; simpl in H.
  - inversion H; subst. split; [reflexivity|]. split; [reflexivity | auto].
  - inv_ok H. rename a into bin.
    destruct (on_border nbinsx nbinsy bin) eqn:Hb; [eapply IH; exact H|].
    inv_ok H. destruct (_ <? _) in H; [|eapply IH; exact H].
    inv_ok H. inv_ok H. apply IH in H as (Ht & Hsub & Hbord). simpl in *.
    apply idx_Ok in Hok as [_ Hbin]. rewrite Nat2Z.id in Hbin.
    split; [exact Ht|]. split.
    + etransitivity; [exact Hsub | apply sublist_delete].
    + intros b Hin Hbb. apply Hbord; [|exact Hbb].
      apply list_elem_of_lookup in Hin as [j Hj].
      destruct (decide (j = clusBin)) as [->|Hne]; [congruence|].
      apply list_elem_of_lookup.
      destruct (decide (j < clusBin)%nat).
      * exists j. rewrite list_lookup_delete_lt by lia. exact Hj.
      * exists (j - 1)%nat. rewrite list_lookup_delete_ge by lia.
        replace (S (j - 1)) with j by lia. exact Hj.
Qed.

(** X13.  When the pruning returns, a further pass removes nothing: every
    cell left in the cluster is on the border or has at least
    [fMinNeighbours] used neighbours.  The pruning only removes cells, never
    one on the border, and leaves the recorded times as they are. *)
Theorem prune_loop_fixed_point (fuel : nat) (st st' : Grow) :
  prune_loop cfg blurred nbinsx nbinsy fuel st = Ok st' →
  (∀ b, b ∈ cluster st' → unpruned cfg nbinsx nbinsy (used st') b)
  ∧ (∀ fuel', prune_loop cfg blurred nbinsx nbinsy (S fuel') st' = Ok st')
  ∧ sublist (cluster st') (cluster st)
  ∧ (∀ b, b ∈ cluster st → on_border nbinsx nbinsy b = true → b ∈ cluster st')
  ∧ times st' = times st.
Proof.
  revert st. induction fuel as [|fuel IH]; intros st H; simpl in H; [discriminate|].
  inv_ok H. destruct a as [st1 nremoved].
  pose proof (prune_scan_keeps _ _ _ _ _ Hok) as (Ht & Hsub & Hbord).
  destruct nremoved as [|nremoved].
  - inversion H; subst st1; clear H.
    pose proof (prune_scan_count _ _ _ _ _ Hok) as [_ Heq].
    destruct (Heq eq_refl) as [-> Hall].
    split; [|split; [|split; [|split]]].
    + intros b Hin. apply list_elem_of_lookup in Hin as [j Hj].
      apply (Hall j b); [apply lookup_lt_Some in Hj; exact Hj | exact Hj].
    + intros fuel'. simpl. rewrite Hok. reflexivity.
    + reflexivity.
    + auto.
    + reflexivity.
  - destruct (IH _ H) as (Hun & Hfix & Hsub' & Hbord' & Ht').
    split; [exact Hun|]. split; [exact Hfix|]. split; [etransitivity; eauto|].
    split; [auto | congruence].
Qed.
End Pruning.

Lemma prune_loop_fixed_point_witness :
  ∃ st',
    prune_loop Examples.cfg_prune Examples.blurred5x5 5 5 10 Examples.peninsula = Ok st'
    ∧ cluster st' = [6; 7; 12]
    ∧ (∀ b, b ∈ cluster st' → unpruned Examples.cfg_prune 5 5 (used st') b)
    ∧ ∀ fuel', prune_loop Examples.cfg_prune Examples.blurred5x5 5 5 (S fuel') st' = Ok st'.
Proof.
  eexists. split; [vm_compute; reflexivity|]. split; [reflexivity|].
  destruct (prune_loop_fixed_point Examples.cfg_prune Examples.blurred5x5 5 5 10
              Examples.peninsula _ ltac:(vm_compute; reflexivity)) as (Hun & Hfix & _).
  split; [exact Hun | exact Hfix].
Defined.

Section HoleFilling.
Variable cfg : Config.
Variable m : Members.
Variable blurred : Image.
Variables nbinsx nbinsy : Z.

Lemma hole_filled_refl (st : Grow) : hole_filled nbinsx nbinsy st st.
Proof.
  split; [|auto]. exists []. rewrite app_nil_r. split; [reflexivity | constructor].
Qed.

Lemma hole_filled_trans (st1 st2 st3 : Grow) :
  hole_filled nbinsx nbinsy st1 st2 → hole_filled nbinsx nbinsy st2 st3 →
  hole_filled nbinsx nbinsy st1 st3.
Proof.
  intros [(a1 & E1 & F1) M1] [(a2 & E2 & F2) M2]. split; [|auto].
  exists (a1 ++ a2). split; [rewrite E2, E1, app_assoc; reflexivity|].
  apply Forall_app. split; [exact F1|].
  eapply Forall_impl; [exact F2|]. intros b [Hb Hm]. split; [exact Hb|]. auto.
Qed.

Lemma hole_candidate_filled (bin : Z) (st st' : Grow) (xy : Z * Z) :
  hole_candidate cfg m blurred nbinsx nbinsy bin st xy = Ok st' →
  hole_filled nbinsx nbinsy st st'.
Proof.
  destruct xy as [x y]. intros H. unfold hole_candidate in H.
  destruct (_ && _) in H; [inversion H; subst; apply hole_filled_refl|].
  destruct (on_border _ _ _) eqn:Hb in H; [inversion H; subst; apply hole_filled_refl|].
  inv_ok H. inv_ok H. destruct a0; [|inversion H; subst; apply hole_filled_refl].
  apply fills_hole_free in Hok0.
  unfold add_bin in H. inv_ok H. inversion H; subst st'; clear H.
  split; simpl.
  - exists [bin + x + y * nbinsx]. split; [reflexivity|].
    constructor; [|constructor]. split; [exact Hb|].
    apply idx_false_unmarked. exact Hok0.
  - intros b Hm. apply (marked_set_true _ _ _ Hok1). auto.
Qed.

Lemma hole_fold_filled (bin : Z) (l : list (Z * Z)) :
  ∀ st st',
    foldM (hole_candidate cfg m blurred nbinsx nbinsy bin) l st = Ok st' →
    hole_filled nbinsx nbinsy st st'.
Proof.
  induction l as [|xy l IHl]; intros st st' Hf; simpl in Hf.
  - inversion Hf; subst. apply hole_filled_refl.
  - inv_ok Hf. eapply hole_filled_trans; [eapply hole_candidate_filled; eauto|].
    apply IHl. exact Hf.
Qed.

Lemma hole_scan_filled (fuel : nat) :
  ∀ clusBin st st',
    hole_scan cfg m blurred nbinsx nbinsy fuel clusBin st = Ok st' →
    hole_filled nbinsx nbinsy st st'.
Proof.
  induction fuel as [|fuel IH]; intros clusBin st st' H; simpl in H; [discriminate|].
  destruct (cluster st !! clusBin) as [bin|];
    [|inversion H; subst; apply hole_filled_refl].
  inv_ok H. eapply hole_filled_trans; [|eapply IH; exact H].
  unfold hole_bin in Hok. eapply hole_fold_filled; eauto.
Qed.

(** X14.  The hole filling only appends to the cluster: the cells it adds
    are off the border of the image and were not marked in the mask, and
    every cell marked before it stays marked; the cluster is neither
    reordered nor shortened, and the mask keeps its size. *)
Theorem hole_filling_appends_inner_cells (fuel : nat) (st st' : Grow) :
  hole_scan cfg m blurred nbinsx nbinsy fuel 0 st = Ok st' →
  (∃ added, cluster st' = cluster st ++ added
            ∧ Forall (λ b, on_border nbinsx nbinsy b = false ∧ ¬ marked (used st) b) added)
  ∧ (∀ b, marked (used st) b → marked (used st') b)
  ∧ length (used st') = length (used st).
Proof.
  intros H.
  pose proof (hole_scan_same_budget _ _ _ _ _ _ _ _ _ H) as (Hlen & _).
  apply hole_scan_filled in H as [Hadd Hkeep].
  split; [exact Hadd|]. split; [exact Hkeep | exact Hlen].
Qed.
End HoleFilling.

Lemma hole_filling_appends_inner_cells_witness :
  ∃ st',
    hole_scan Examples.cfg_hole Examples.members_t1 Examples.blurred5x5 5 5 20 0
              (mkGrow (<[7%nat := true]> (replicate 25 false)) [7] [(1 # 1)%Q]) = Ok st'
    ∧ ∃ added, cluster st' = [7] ++ added
               ∧ Forall (λ b, on_border 5 5 b = false
                              ∧ ¬ marked (<[7%nat := true]> (replicate 25 false)) b) added.
Proof.
  eexists. split; [vm_compute; reflexivity|].
  pose proof (hole_filling_appends_inner_cells Examples.cfg_hole Examples.members_t1
                Examples.blurred5x5 5 5 20
                (mkGrow (<[7%nat := true]> (replicate 25 false)) [7] [(1 # 1)%Q])) as H.
  match goal with
  | |- ∃ added, cluster ?s = _ ∧ _ => specialize (H s)
  end.
  specialize (H ltac:(vm_compute; reflexivity)).
  exact (proj1 H).
Defined.

(** ** The convolution returns an image of the same shape *)

Lemma idx2_in_shape (n k : nat) (image : Image) (x y : Z) :
  shape n k image → 0 ≤ x < Z.of_nat n → 0 ≤ y < Z.of_nat k →
  ∃ q, idx2 image x y = Ok q.
Proof.
  intros [Hn Hk] Hx Hy. unfold idx2.
  destruct (lookup_lt_is_Some_2 image (Z.to_nat x) ltac:(lia)) as [col Hcol].
  assert (Hidx : idx image x = Ok col) by (apply idx_Ok; split; [lia | exact Hcol]).
  rewrite Hidx. simpl. apply idx_in_range.
  rewrite Forall_forall in Hk. rewrite (Hk col (list_elem_of_lookup_2 _ _ _ Hcol)). lia.
Qed.

Lemma add_idx2_in_shape (n k : nat) (copy : Image) (x y : Z) (v : Q) :
  shape n k copy → 0 ≤ x < Z.of_nat n → 0 ≤ y < Z.of_nat k →
  ∃ copy', add_idx2 copy x y v = Ok copy' ∧ shape n k copy'.
Proof.
  intros [Hn Hk] Hx Hy. unfold add_idx2.
  destruct (lookup_lt_is_Some_2 copy (Z.to_nat x) ltac:(lia)) as [col Hcol].
  assert (Hidx : idx copy x = Ok col) by (apply idx_Ok; split; [lia | exact Hcol]).
  rewrite Hidx. simpl.
  pose proof Hk as Hk'. rewrite Forall_forall in Hk'.
  specialize (Hk' col (list_elem_of_lookup_2 _ _ _ Hcol)).
  destruct (idx_in_range col y ltac:(lia)) as [old ->]. simpl.
  eexists. split; [reflexivity|]. split.
  - rewrite length_insert. exact Hn.
  - apply Forall_insert; [exact Hk|]. rewrite length_insert. exact Hk'.
Qed.

Section ConvolveSafety.
Variable cfg : Config.
Variables n k : nat.
Variables image widths : Image.
Variable kernels : gmap Z (list Q).
Variables blurwire blurtick : Z.
Variable fuel : nat.
Hypothesis Hi : shape n k image.
Hypothesis Hw : shape n k widths.
Hypothesis Hn : (0 < n)%nat.
Hypothesis Hn31 : Z.of_nat n < 2 ^ 31.
Hypothesis Hk31 : Z.of_nat k < 2 ^ 31.
Hypothesis Hresc : Qeq_bool (fTickWidthRescale cfg) 0 = false.
Hypothesis Hbw : 0 ≤ blurwire.
Hypothesis Hbt : 0 ≤ blurtick.
Hypothesis HM : 1 ≤ fMaxTickWidthScale cfg ≤ blurtick + 1.
Hypothesis Hfuel : (Z.to_nat (fMaxTickWidthScale cfg) ≤ fuel)%nat.
Hypothesis Hone : 1 ∈ fKernels cfg.
Hypothesis Hkern :
  ∀ t, t ∈ fKernels cfg →
    ∃ kern, kernels !! t = Some kern
            ∧ length kern
              = Z.to_nat ((2 * blurwire + 1)
                          * (2 * blurtick * (fMaxTickWidthScale cfg + 1) + 1)).

Lemma smear_in_shape (correct_kernel : list Q) (tick_scale x y : Z) (charge : Q)
    (copy : Image) (b : Z * Z) :
  length correct_kernel
  = Z.to_nat ((2 * blurwire + 1) * (2 * blurtick * (fMaxTickWidthScale cfg + 1) + 1)) →
  1 ≤ tick_scale ≤ fMaxTickWidthScale cfg →
  b ∈ blur_window (2 * blurwire + 1) (2 * blurtick + 1) tick_scale →
  shape n k copy →
  outcome (λ _, False) (shape n k)
          (smear correct_kernel (2 * blurwire + 1)
                 (2 * blurtick * (fMaxTickWidthScale cfg + 1) + 1)
                 (Z.of_nat n) (Z.of_nat k) x y charge copy b).
Proof.
  destruct b as [blurx blury]. intros Hlen Hts Hb Hcopy. unfold smear.
  pose proof (weight_index_in_bounds cfg blurwire blurtick tick_scale blurx blury
                _ _ _ _ _ Hbw Hbt Hts
                (tier_ceiling_fits cfg blurtick tick_scale Hbt Hts ltac:(lia))
                eq_refl Hb) as Hidx.
  destruct (at_in_range correct_kernel
              (weight_index (2 * blurwire + 1)
                 (2 * blurtick * (fMaxTickWidthScale cfg + 1) + 1) blurx blury))
    as [weight ->]; [rewrite Hlen; lia|]. simpl.
  destruct (_ && _) eqn:Hguard; [|exact Hcopy].
  apply andb_true_iff in Hguard as [Hguard H4]. apply andb_true_iff in Hguard as [Hguard H3].
  apply andb_true_iff in Hguard as [H1 H2].
  apply Z.leb_le in H1, H3. apply Z.ltb_lt in H2, H4.
  destruct (add_idx2_in_shape n k copy (x + blurx) (y + blury) (weight * charge)%Q Hcopy)
    as (copy' & -> & Hcopy'); [lia..|]. exact Hcopy'.
Qed.

Lemma convolve_cell_in_shape (copy : Image) (xy : Z * Z) :
  0 ≤ fst xy < Z.of_nat n → 0 ≤ snd xy < Z.of_nat k →
  shape n k copy →
  outcome (λ _, False) (shape n k)
          (convolve_cell cfg fuel image widths kernels (2 * blurwire + 1)
                         (2 * blurtick * (fMaxTickWidthScale cfg + 1) + 1)
                         (2 * blurwire + 1) (2 * blurtick + 1)
                         (Z.of_nat n) (Z.of_nat k) copy xy).
Proof.
  destruct xy as [x y]. simpl. intros Hx Hy Hcopy. unfold convolve_cell.
  destruct (idx2_in_shape n k image x y Hi Hx Hy) as [charge ->]. simpl.
  destruct (Qeq_bool charge 0); [exact Hcopy|].
  destruct (idx2_in_shape n k widths x y Hw Hx Hy) as [w ->]. simpl.
  unfold raw_tick_scale. rewrite Hresc. simpl.
  set (ts := clamp_tick_scale cfg (Qtrunc (w / fTickWidthRescale cfg))).
  destruct (clamp_tick_scale_range cfg (Qtrunc (w / fTickWidthRescale cfg)))
    as [Hlo Hhi]. fold ts in Hlo, Hhi. specialize (Hhi ltac:(lia)).
  destruct (find_kernel_finds cfg kernels) with (fuel := fuel) (kernelIndex := ts)
    as (tier & correct_kernel & Hfind & _ & Htier & Hlook & _); [|exact Hone|exact Hlo|lia|].
  { intros t Ht. destruct (Hkern t Ht) as (kern & Hk & Hlen). exists kern.
    split; [exact Hk|]. intros ->. simpl in Hlen. nia. }
  rewrite Hfind. simpl.
  destruct (Hkern tier Htier) as (kern & Hk & Hlen).
  rewrite Hlook in Hk. inversion Hk; subst kern; clear Hk.
  apply outcome_foldM with (P := shape n k); [|exact Hcopy].
  intros copy' b Hb Hcopy'.
  apply smear_in_shape with (tick_scale := ts);
    [exact Hlen | split; assumption | exact Hb | exact Hcopy'].
Qed.

Lemma Convolve_in_shape :
  ∃ copy,
    Convolve cfg fuel image widths kernels (2 * blurwire + 1)
             (2 * blurtick * (fMaxTickWidthScale cfg + 1) + 1)
             (2 * blurwire + 1) (2 * blurtick + 1) = Ok copy
    ∧ shape n k copy.
Proof.
  pose proof Hi as [Hlen Hcols]. unfold Convolve.
  destruct (at_in_range image 0) as [col0 Hcol0]; [lia|]. rewrite Hcol0. simpl.
  assert (Hk0 : length col0 = k).
  { apply at_Ok in Hcol0 as [_ Hl]. rewrite Forall_forall in Hcols.
    apply Hcols. eapply list_elem_of_lookup_2; eauto. }
  rewrite Hlen, Hk0. rewrite vector_n_nonneg by lia. simpl.
  rewrite vector_n_nonneg by lia. simpl. rewrite !Nat2Z.id.
  pose proof (outcome_foldM (λ _, False) (shape n k)
                (convolve_cell cfg fuel image widths kernels (2 * blurwire + 1)
                   (2 * blurtick * (fMaxTickWidthScale cfg + 1) + 1)
                   (2 * blurwire + 1) (2 * blurtick + 1) (Z.of_nat n) (Z.of_nat k))
                (grid (range_excl 0 (Z.of_nat n)) (range_excl 0 (Z.of_nat k)))) as Hfold.
  specialize (Hfold ltac:(intros copy [x y] Hxy Hcopy;
                          apply elem_of_grid in Hxy as [Hx Hy];
                          apply elem_of_range_excl in Hx, Hy;
                          apply convolve_cell_in_shape; assumption)
                    (replicate n (replicate k 0%Q)) (shape_replicate n k)).
  destruct (foldM _ _ _) as [copy|f]; simpl in Hfold; [eauto | contradiction].
Qed.
End ConvolveSafety.

Lemma FindBlurringParameters_radii (cfg : Config) (Unit : Q → Q * Q) (m : Members)
    (blurwire blurtick sigmawire sigmatick : Z) :
  FindBlurringParameters cfg Unit m = Ok (blurwire, blurtick, sigmawire, sigmatick) →
  1 ≤ blurwire ∧ 1 ≤ blurtick ∧ 1 ≤ sigmawire ∧ 1 ≤ sigmatick.
Proof.
  intros H. unfold FindBlurringParameters in H. inv_ok H.
  destruct (Unit a) as [ux uy]. inversion H; subst. unfold radius. lia.
Qed.

(** X15.  [GaussianBlur] returns an image of the shape of its input: for
    rectangular images of equal shape with at least one wire, a non-zero
    [fTickWidthRescale], the tier 1 among [fKernels], defined blurring
    parameters and a ceiling [fMaxTickWidthScale] between 1 and the tick
    radius plus 1, every kernel is built, every kernel look-up of
    [Convolve] finds a kernel, every kernel index is within the kernel, and
    the blurred image has as many wires and ticks as the input. *)
Theorem GaussianBlur_returns (cfg : Config) (density : Z → Z → Q) (Unit : Q → Q * Q)
    (fuel : nat) (m : Members) (image widths : Image) (n k : nat)
    (blurwire blurtick sigmawire sigmatick : Z) :
  shape n k image → shape n k widths → (0 < n)%nat →
  Z.of_nat n < 2 ^ 31 → Z.of_nat k < 2 ^ 31 →
  Qeq_bool (fTickWidthRescale cfg) 0 = false →
  1 ∈ fKernels cfg →
  FindBlurringParameters cfg Unit m = Ok (blurwire, blurtick, sigmawire, sigmatick) →
  1 ≤ fMaxTickWidthScale cfg ≤ blurtick + 1 →
  (2 * blurwire + 1) * (2 * blurtick * (fMaxTickWidthScale cfg + 1) + 1) < 2 ^ 31 →
  (Z.to_nat (fMaxTickWidthScale cfg) ≤ fuel)%nat →
  ∃ blurred,
    GaussianBlur cfg density Unit fuel m image widths = Ok blurred ∧ shape n k blurred.
Proof.
  intros Hi Hw Hn Hn31 Hk31 Hresc Hone Hpar HM Hsize Hfuel. unfold GaussianBlur.
  destruct (_ && _); [eauto|].
  rewrite Hpar. simpl.
  apply FindBlurringParameters_radii in Hpar as (Hbw & Hbt & _ & _).
  unfold make_kernels.
  set (value := λ sw st i j : Z, (density sw i * density st j)%Q).
  assert (Hmk : ∀ tier,
            ∃ kernel,
              make_kernel 0%Q value (2 * blurwire + 1)
                (2 * blurtick * (fMaxTickWidthScale cfg + 1) + 1) blurwire blurtick
                (fMaxTickWidthScale cfg + 1) sigmawire (sigmatick * tier) = Ok kernel
              ∧ length kernel
                = Z.to_nat ((2 * blurwire + 1)
                            * (2 * blurtick * (fMaxTickWidthScale cfg + 1) + 1))).
  { intros tier.
    destruct (make_kernel_spec 0%Q value blurwire blurtick (fMaxTickWidthScale cfg + 1)
                sigmawire (sigmatick * tier)) as (kernel & Hk & Hlen & _);
      [lia | nia | exact Hsize |]. eauto. }
  destruct (make_kernels_succeeds 0%Q value (2 * blurwire + 1)
              (2 * blurtick * (fMaxTickWidthScale cfg + 1) + 1) blurwire blurtick
              (fMaxTickWidthScale cfg + 1) sigmawire sigmatick (fKernels cfg))
    with (acc := (∅ : gmap Z (list Q))) as [kernels Hkernels].
  { intros tier _. destruct (Hmk tier) as (kernel & Hk & _). eauto. }
  rewrite Hkernels. simpl.
  apply make_kernels_lookup in Hkernels as [Hlook _].
  apply (Convolve_in_shape cfg n k image widths kernels blurwire blurtick fuel);
    try assumption; try lia.
  intros t Ht. destruct (Hlook t Ht) as (kernel & Hk & Hmake).
  destruct (Hmk t) as (kernel' & Hmake' & Hlen).
  exists kernel. split; [exact Hk | congruence].
Qed.

Lemma GaussianBlur_returns_witness :
  ∃ blurred,
    GaussianBlur Examples.cfg_small Examples.flat_density Examples.Unit_level 2
                 Examples.members_two Examples.blurred5x5 Examples.blurred5x5 = Ok blurred
    ∧ shape 5 5 blurred.
Proof.
  apply (GaussianBlur_returns Examples.cfg_small Examples.flat_density Examples.Unit_level 2
           Examples.members_two Examples.blurred5x5 Examples.blurred5x5 5 5 1 1 1 1).
  - split; [reflexivity | repeat constructor].
  - split; [reflexivity | repeat constructor].
  - lia.
  - reflexivity.
  - reflexivity.
  - reflexivity.
  - apply elem_of_cons. left. reflexivity.
  - vm_compute. reflexivity.
  - vm_compute. split; discriminate.
  - reflexivity.
  - simpl. lia.
Defined.

(** ** The materialiser *)

Lemma ConvertBinsToRecobHits_fold (m : Members) (image : Image) (bins : list Z) :
  ∀ acc hits,
    foldM (λ hits bin,
             hit ← ConvertBinToRecobHit m image bin;
             match hit with
             | Some h => Ok (hits ++ [h])
             | None => Ok hits
             end) bins acc = Ok hits →
    ∃ new, hits = acc ++ new
           ∧ (length new ≤ length bins)%nat
           ∧ Forall (λ h, ∃ bin, bin ∈ bins
                                 ∧ ConvertBinToRecobHit m image bin = Ok (Some h)) new.
Proof.
  induction bins as [|bin bins IH]; intros acc hits H; simpl in H.
  - inversion H; subst. exists []. rewrite app_nil_r.
    split; [reflexivity|]. split; [reflexivity | constructor].
  - inv_ok H. rename a into s1. inv_ok Hok. destruct a as [h|];
      inversion Hok; subst s1; clear Hok; rename Hok0 into Hok.
    + apply IH in H as (new & -> & Hlen & Hall). exists (h :: new).
      split; [rewrite <- app_assoc; reflexivity|]. split; [simpl; lia|].
      constructor; [exists bin; split; [apply elem_of_cons; auto | exact Hok]|].
      eapply Forall_impl; [exact Hall|]. intros h' (b & Hb & Hh).
      exists b. split; [apply elem_of_cons; auto | exact Hh].
    + apply IH in H as (new & -> & Hlen & Hall). exists new.
      split; [reflexivity|]. split; [simpl; lia|].
      eapply Forall_impl; [exact Hall|]. intros h' (b & Hb & Hh).
      exists b. split; [apply elem_of_cons; auto | exact Hh].
Qed.

Lemma ConvertBinsToClusters_fold (cfg : Config) (m : Members) (image : Image)
    (allClusterBins : list (list Z)) :
  ∀ clusters out,
    ConvertBinsToClusters cfg m image allClusterBins clusters = Ok out →
    ∃ new, out = clusters ++ new
           ∧ (length new ≤ length allClusterBins)%nat
           ∧ Forall (λ g, (fMinSize cfg ≤ length g)%nat
                          ∧ ∃ bins, bins ∈ allClusterBins
                                    ∧ ConvertBinsToRecobHits m image bins = Ok g) new.
Proof.
  unfold ConvertBinsToClusters.
  induction allClusterBins as [|bins rest IH]; intros clusters out H; simpl in H.
  - inversion H; subst. exists []. rewrite app_nil_r.
    split; [reflexivity|]. split; [reflexivity | constructor].
  - inv_ok H. rename a into s1. inv_ok Hok. rename a into clusHits.
    assert (Hlift : ∀ new : list (list Hit),
              Forall (λ g, (fMinSize cfg ≤ length g)%nat
                           ∧ ∃ bins0, bins0 ∈ rest
                                      ∧ ConvertBinsToRecobHits m image bins0 = Ok g) new →
              Forall (λ g, (fMinSize cfg ≤ length g)%nat
                           ∧ ∃ bins0, bins0 ∈ bins :: rest
                                      ∧ ConvertBinsToRecobHits m image bins0 = Ok g) new).
    { intros new Hall. eapply Forall_impl; [exact Hall|].
      intros g (Hsz & b & Hb & Hg). split; [exact Hsz|].
      exists b. split; [apply elem_of_cons; auto | exact Hg]. }
    destruct (Nat.ltb_spec (length clusHits) (fMinSize cfg)).
    + inversion Hok; subst s1; clear Hok.
      apply IH in H as (new & -> & Hlen & Hall). exists new.
      split; [reflexivity|]. split; [simpl; lia | apply Hlift; exact Hall].
    + inversion Hok; subst s1; clear Hok.
      apply IH in H as (new & -> & Hlen & Hall). exists (clusHits :: new).
      split; [rewrite <- app_assoc; reflexivity|]. split; [simpl; lia|].
      constructor; [|apply Hlift; exact Hall].
      split; [lia|]. exists bins. split; [apply elem_of_cons; auto | exact Hok0].
Qed.

(** X16.  [ConvertBinsToClusters] keeps the clusters it is given and
    appends at most one group of hits per cluster of bins, in order.  Every
    group it appends has at least [fMinSize] hits; its hits are those the
    hit index returns for the bins of one cluster, so it has no more hits
    than the cluster has bins. *)
Theorem ConvertBinsToClusters_groups (cfg : Config) (m : Members) (image : Image)
    (allClusterBins : list (list Z)) (clusters out : list (list Hit)) :
  ConvertBinsToClusters cfg m image allClusterBins clusters = Ok out →
  ∃ new, out = clusters ++ new
         ∧ (length new ≤ length allClusterBins)%nat
         ∧ Forall (λ g, (fMinSize cfg ≤ length g)%nat
                        ∧ ∃ bins, bins ∈ allClusterBins
                                  ∧ (length g ≤ length bins)%nat
                                  ∧ Forall (λ h, ∃ bin, bin ∈ bins
                                              ∧ ConvertBinToRecobHit m image bin
                                                = Ok (Some h)) g) new.
Proof.
  intros H. apply ConvertBinsToClusters_fold in H as (new & -> & Hlen & Hall).
  exists new. split; [reflexivity|]. split; [exact Hlen|].
  eapply Forall_impl; [exact Hall|]. intros g (Hsz & bins & Hb & Hg).
  split; [exact Hsz|]. exists bins. split; [exact Hb|].
  unfold ConvertBinsToRecobHits in Hg.
  apply ConvertBinsToRecobHits_fold in Hg as (new' & -> & Hlen' & Hall').
  simpl. auto.
Qed.

Lemma ConvertBinsToClusters_groups_witness :
  ∃ out,
    ConvertBinsToClusters Examples.cfg_hole Examples.members_t1 Examples.blurred5x5
                          [[7; 11]; [0]] [] = Ok out
    ∧ out = [[Examples.hit_t1]]
    ∧ ∃ new, out = [] ++ new ∧ (length new ≤ 2)%nat.
Proof.
  eexists. split; [vm_compute; reflexivity|]. split; [reflexivity|].
  destruct (ConvertBinsToClusters_groups Examples.cfg_hole Examples.members_t1
              Examples.blurred5x5 [[7; 11]; [0]] [] _ ltac:(vm_compute; reflexivity))
    as (new & Hout & Hlen & _).
  exists new. split; [exact Hout | exact Hlen].
Defined.

(** ** From hits to clusters of hits *)

Lemma bin_xy_nonneg (image : Image) (bin x y : Z) :
  0 ≤ bin < 2 ^ 31 → bin_xy image bin = Ok (x, y) →
  0 < Z.of_nat (length image)
  ∧ x = bin mod Z.of_nat (length image) ∧ y = bin / Z.of_nat (length image).
Proof.
  intros Hbin H. unfold bin_xy in H.
  set (n := Z.of_nat (length image)) in *.
  destruct (Z.eqb_spec n 0) as [Hz|Hnz]; [discriminate|].
  assert (Hpos : 0 < n) by (subst n; lia).
  rewrite to_size_t_nonneg in H by lia.
  pose proof (Z.mod_pos_bound bin n Hpos).
  pose proof (Z.div_pos bin n ltac:(lia) Hpos).
  assert (bin / n ≤ bin) by (apply Z.div_le_upper_bound; nia).
  pose proof (Z.mod_le bin n ltac:(lia) Hpos).
  rewrite !to_int_small in H by lia. inversion H; subst. auto.
Qed.

(** A hit of the index is returned for one bin only, when the index holds
    every hit under the hit's own cell. *)
Lemma hit_bin_unique (svc : Services) (m : Members) (image : Image) (b b' : Z) (h : Hit) :
  (∀ wire tick h, hitmap_find (fHitMap m) wire tick = Some h → cell svc h = (wire, tick)) →
  0 ≤ b < 2 ^ 31 → 0 ≤ b' < 2 ^ 31 →
  ConvertBinToRecobHit m image b = Ok (Some h) →
  ConvertBinToRecobHit m image b' = Ok (Some h) →
  b = b'.
Proof.
  intros Hcell Hb Hb' H H'. unfold ConvertBinToRecobHit in H, H'.
  inv_ok H. destruct a as [x y]. inv_ok H'. destruct a as [x' y'].
  inversion H as [Hf]. inversion H' as [Hf'].
  apply Hcell in Hf, Hf'. rewrite Hf in Hf'. inversion Hf'.
  destruct (bin_xy_nonneg _ _ _ _ Hb Hok) as (Hn & -> & ->).
  destruct (bin_xy_nonneg _ _ _ _ Hb' Hok0) as (_ & -> & ->).
  rewrite (Z.div_mod b (Z.of_nat (length image))) by lia.
  rewrite (Z.div_mod b' (Z.of_nat (length image))) by lia.
  assert (b mod Z.of_nat (length image) = b' mod Z.of_nat (length image)) by lia.
  assert (b / Z.of_nat (length image) = b' / Z.of_nat (length image)) by lia.
  congruence.
Qed.

Section HitsOnce.
Variable svc : Services.
Variable cfg : Config.
Variable m : Members.
Variable image : Image.
Hypothesis Hcell :
  ∀ wire tick h, hitmap_find (fHitMap m) wire tick = Some h → cell svc h = (wire, tick).

Lemma ConvertBinsToRecobHits_NoDup (bins : list Z) :
  NoDup bins → Forall (λ b, 0 ≤ b < 2 ^ 31) bins →
  ∀ acc hits,
    NoDup acc →
    (∀ h, h ∈ acc → ∃ b, 0 ≤ b < 2 ^ 31 ∧ (b ∉ bins)
                         ∧ ConvertBinToRecobHit m image b = Ok (Some h)) →
    foldM (λ hits bin,
             hit ← ConvertBinToRecobHit m image bin;
             match hit with
             | Some h => Ok (hits ++ [h])
             | None => Ok hits
             end) bins acc = Ok hits →
    NoDup hits.
Proof.
  induction 1 as [|bin bins Hnotin Hnd IH]; intros Hvalid acc hits Hacc Hfrom H;
    simpl in H.
  - inversion H; subst. exact Hacc.
  - apply Forall_cons in Hvalid as [Hbin Hvalid]. inv_ok H.
    rename a into s1. inv_ok Hok. destruct a as [h|];
      inversion Hok; subst s1; clear Hok; rename Hok0 into Hok.
    + apply (IH Hvalid (acc ++ [h])); [| |exact H].
      * apply NoDup_app. split; [exact Hacc|]. split; [|apply NoDup_singleton].
        intros h' Hh' Heq%list_elem_of_singleton. subst h'.
        destruct (Hfrom h Hh') as (b & Hb & Hnb & Hhb).
        assert (b = bin) by (eapply hit_bin_unique; eauto).
        subst b. apply Hnb, elem_of_cons. auto.
      * intros h' [Hh'|Hh']%elem_of_app.
        -- destruct (Hfrom h' Hh') as (b & Hb & Hnb & Hhb). exists b.
           split; [exact Hb|]. split; [|exact Hhb].
           intros Hin. apply Hnb, elem_of_cons. auto.
        -- apply list_elem_of_singleton in Hh'. subst h'. exists bin.
           split; [exact Hbin|]. split; [exact Hnotin | exact Hok].
    + apply (IH Hvalid acc); [exact Hacc| |exact H].
      intros h' Hh'. destruct (Hfrom h' Hh') as (b & Hb & Hnb & Hhb). exists b.
      split; [exact Hb|]. split; [|exact Hhb].
      intros Hin. apply Hnb, elem_of_cons. auto.
Qed.

Lemma ConvertBinsToClusters_NoDup (allClusterBins : list (list Z)) :
  NoDup (concat allClusterBins) →
  Forall (λ b, 0 ≤ b < 2 ^ 31) (concat allClusterBins) →
  ∀ clusters out,
    ConvertBinsToClusters cfg m image allClusterBins clusters = Ok out →
    ∃ new, out = clusters ++ new
           ∧ NoDup (concat new)
           ∧ ∀ h, h ∈ concat new →
                  ∃ b, b ∈ concat allClusterBins
                       ∧ ConvertBinToRecobHit m image b = Ok (Some h).
Proof.
  unfold ConvertBinsToClusters.
  induction allClusterBins as [|bins rest IH]; intros Hnd Hvalid clusters out H;
    simpl in H.
  - inversion H; subst. exists []. rewrite app_nil_r.
    split; [reflexivity|]. split; [constructor|].
    intros h Hh%elem_of_nil. contradiction.
  - simpl in Hnd, Hvalid. apply NoDup_app in Hnd as (Hbins & Hdisj & Hrest).
    apply Forall_app in Hvalid as [Hvb Hvr].
    inv_ok H. rename a into s1. inv_ok Hok. rename a into g.
    pose proof Hok0 as Hg. unfold ConvertBinsToRecobHits in Hg.
    pose proof (ConvertBinsToRecobHits_NoDup bins Hbins Hvb [] g NoDup_nil_2
                  ltac:(intros h Hh%elem_of_nil; contradiction) Hg) as Hgnd.
    apply ConvertBinsToRecobHits_fold in Hg as (g' & Hgeq & _ & Hgfrom).
    simpl in Hgeq. subst g'. rewrite Forall_forall in Hgfrom.
    destruct (_ <? _)%nat in Hok.
    + inversion Hok; subst s1; clear Hok.
      destruct (IH Hrest Hvr _ _ H) as (new & -> & Hnew & Hfrom).
      exists new. split; [reflexivity|]. split; [exact Hnew|].
      intros h Hh. destruct (Hfrom h Hh) as (b & Hb & Hhb).
      exists b. split; [apply elem_of_app; auto | exact Hhb].
    + inversion Hok; subst s1; clear Hok.
      destruct (IH Hrest Hvr _ _ H) as (new & -> & Hnew & Hfrom).
      exists (g :: new). split; [rewrite <- app_assoc; reflexivity|]. simpl. split.
      * apply NoDup_app. split; [exact Hgnd|]. split; [|exact Hnew].
        intros h Hh1 Hh2. destruct (Hgfrom h Hh1) as (b & Hb & Hhb).
        destruct (Hfrom h Hh2) as (b' & Hb' & Hhb').
        rewrite Forall_forall in Hvb, Hvr.
        assert (b = b') by (eapply hit_bin_unique; eauto).
        subst b'. exact (Hdisj b Hb Hb').
      * intros h [Hh|Hh]%elem_of_app.
        -- destruct (Hgfrom h Hh) as (b & Hb & Hhb).
           exists b. split; [apply elem_of_app; auto | exact Hhb].
        -- destruct (Hfrom h Hh) as (b & Hb & Hhb).
           exists b. split; [apply elem_of_app; auto | exact Hhb].
Qed.
End HitsOnce.

Lemma FindClusters_run_marks (cfg : Config) (m : Members) (fuel : nat)
    (blurred : Image) (col0 : list Q) (allcluster : list (list Z)) (mask : list bool) :
  blurred !! 0%nat = Some col0 →
  Z.of_nat (length blurred) * Z.of_nat (length col0) < 2 ^ 31 →
  FindClusters_run cfg m fuel blurred [] = Ok (allcluster, mask) →
  marks_exactly mask (concat allcluster)
  ∧ length mask = (length blurred * length col0)%nat.
Proof.
  intros Hcol Hsize H. unfold FindClusters_run in H.
  assert (Hat : at_ blurred 0 = Ok col0) by (apply at_Ok; split; [lia | exact Hcol]).
  rewrite Hat in H. simpl in H. rewrite vector_n_nonneg in H by lia. simpl in H.
  inv_ok H.
  assert (Hinit : marks_exactly
                    (replicate (Z.to_nat (Z.of_nat (length blurred) * Z.of_nat (length col0)))
                               false) (concat [])).
  { split; [constructor|]. intros b. split.
    - intros Hb. exfalso. eapply replicate_unmarked; eauto.
    - intros Hb%elem_of_nil. contradiction. }
  split; [exact (cluster_loop_inv _ _ _ _ _ _ _ _ _ _ _ Hinit H)|].
  apply cluster_loop_length in H. rewrite length_replicate in H. lia.
Qed.

(** X17.  From hits to clusters of hits: when the image builder has indexed
    the hits, [FindClusters] has run on an image of fewer than 2^31 cells
    and [ConvertBinsToClusters] has turned its clusters of bins into groups
    of hits, no hit occurs twice in the output, neither within a group nor
    in two groups; every group has at least [fMinSize] hits, and every hit
    of a group is one of the input hits. *)
Theorem clusters_hold_each_hit_once (svc : Services) (cfg : Config) (hits : list Hit)
    (image widths : Image) (m : Members) (fuel : nat) (blurred : Image) (col0 : list Q)
    (allcluster : list (list Z)) (mask : list bool) (groups : list (list Hit)) :
  ConvertRecobHitsToVector svc hits = Ok (image, widths, m) →
  blurred !! 0%nat = Some col0 →
  Z.of_nat (length blurred) * Z.of_nat (length col0) < 2 ^ 31 →
  FindClusters_run cfg m fuel blurred [] = Ok (allcluster, mask) →
  ConvertBinsToClusters cfg m blurred allcluster [] = Ok groups →
  NoDup (concat groups)
  ∧ Forall (λ g, (fMinSize cfg ≤ length g)%nat ∧ Forall (λ h, h ∈ hits) g) groups.
Proof.
  intros Hbuild Hcol Hsize Hfind Hconv.
  destruct (ConvertRecobHitsToVector_inv svc hits image widths m Hbuild) as (_ & Hc & _).
  assert (Hidx : ∀ wire tick h, hitmap_find (fHitMap m) wire tick = Some h →
            h ∈ hits ∧ cell svc h = (wire, tick)).
  { intros wire tick h Hf. specialize (Hc wire tick). unfold cell_view in Hc.
    rewrite Hf in Hc. destruct Hc as (Hin & Hcell & _). auto. }
  destruct (FindClusters_run_marks cfg m fuel blurred col0 allcluster mask Hcol Hsize Hfind)
    as [[Hnd Hm] Hlen].
  split.
  - destruct (ConvertBinsToClusters_NoDup svc cfg m blurred
                (λ wire tick h Hf, proj2 (Hidx wire tick h Hf)) allcluster Hnd)
      with (clusters := @nil (list Hit)) (out := groups) as (new & Hout & Hnew & _);
      [|exact Hconv|simpl in Hout; subst new; exact Hnew].
    apply Forall_forall. intros b Hb. apply Hm in Hb as [Hb0 Hlook].
    apply lookup_lt_Some in Hlook. lia.
  - apply ConvertBinsToClusters_fold in Hconv as (new & Hout & _ & Hall).
    simpl in Hout. subst new. eapply Forall_impl; [exact Hall|].
    intros g (Hsz & bins & _ & Hg). split; [exact Hsz|].
    unfold ConvertBinsToRecobHits in Hg.
    apply ConvertBinsToRecobHits_fold in Hg as (g' & Hgeq & _ & Hfrom).
    simpl in Hgeq. subst g'. eapply Forall_impl; [exact Hfrom|].
    intros h (b & _ & Hh). unfold ConvertBinToRecobHit in Hh. inv_ok Hh.
    destruct a as [x y]. inversion Hh as [Hf]. apply Hidx in Hf as [Hin _]. exact Hin.
Qed.

Lemma clusters_hold_each_hit_once_witness :
  ∃ image widths m allcluster mask groups,
    ConvertRecobHitsToVector Examples.svc [Examples.hit_a; Examples.hit_d]
    = Ok (image, widths, m)
    ∧ FindClusters_run Examples.cfg_hole m 10 image [] = Ok (allcluster, mask)
    ∧ ConvertBinsToClusters Examples.cfg_hole m image allcluster [] = Ok groups
    ∧ groups = [[Examples.hit_a; Examples.hit_d]]
    ∧ NoDup (concat groups).
Proof.
  eexists _, _, _, _, _, _.
  match goal with |- ?A ∧ _ => assert (HA : A) by (vm_compute; reflexivity) end.
  split; [exact HA|].
  match goal with |- ?B ∧ _ => assert (HB : B) by (vm_compute; reflexivity) end.
  split; [exact HB|].
  match goal with |- ?C ∧ _ => assert (HC : C) by (vm_compute; reflexivity) end.
  split; [exact HC|]. split; [reflexivity|].
  match type of HB with
  | FindClusters_run _ _ _ ?img _ = _ =>
      assert (Hcol : img !! 0%nat = Some (replicate 41 0%Q)) by (vm_compute; reflexivity)
  end.
  exact (proj1 (clusters_hold_each_hit_once Examples.svc Examples.cfg_hole
                  [Examples.hit_a; Examples.hit_d] _ _ _ 10 _ _ _ _ _
                  HA Hcol ltac:(vm_compute; reflexivity) HB HC)).
Defined.

(** ** Global wire numbers *)

Lemma round_inject_Z (z : Z) : round (inject_Z z) = z.
Proof.
  unfold round, inject_Z. destruct (Qle_bool 0 (z # 1)) eqn:Hz.
  - unfold Qfloor, Qplus. simpl. Z.to_euclidean_division_equations. lia.
  - unfold Qceiling, Qfloor, Qminus, Qplus, Qopp. simpl.
    Z.to_euclidean_division_equations. lia.
Qed.

Lemma GlobalWire_collection (svc : Services) (w : WireID) :
  SignalType svc w ≠ kInduction →
  GlobalWire svc w
  = match tpc_block (TPC w) with
    | Some g => Z.of_nat (g * Nwires svc (Plane w) 0 (Cryostat w) + Wire w)
    | None => -999
    end.
Proof.
  intros Hsig. unfold GlobalWire. destruct (WireCentre svc w) as [[c0 y] z].
  assert (Hround : round (-999 # 1) = -999) by reflexivity.
  destruct (SignalType svc w); [congruence|..];
    destruct (TPC w) as [|[|[|[|[|[|[|[|t]]]]]]]]; simpl;
    rewrite ?round_inject_Z, ?Hround; try reflexivity; f_equal; lia.
Qed.

(** X18.  On collection planes the global wire number is the wire number
    shifted by the block of the TPC (TPCs 0-1, 2-5, 6-7) times the number of
    wires of the plane.  For a plane of fewer than 2^31 / 3 wires, so that
    neither the unsigned sums nor the conversion of the result to [int] can
    pass the [int] range, two wires of one plane and cryostat, in TPCs below
    8 and with wire numbers below the number of wires, get a global wire
    between 0 and 2^31 - 1, and the same global wire exactly when they are in
    the same block and have the same wire number.  TPC numbers from 8 on
    give the global wire -999. *)
Theorem GlobalWire_collection_blocks (svc : Services) (w1 w2 : WireID) :
  SignalType svc w1 ≠ kInduction → SignalType svc w2 ≠ kInduction →
  Plane w1 = Plane w2 → Cryostat w1 = Cryostat w2 →
  (Wire w1 < Nwires svc (Plane w1) 0 (Cryostat w1))%nat →
  (Wire w2 < Nwires svc (Plane w2) 0 (Cryostat w2))%nat →
  3 * Z.of_nat (Nwires svc (Plane w1) 0 (Cryostat w1)) < 2 ^ 31 →
  (TPC w1 < 8)%nat → (TPC w2 < 8)%nat →
  (GlobalWire svc w1 = GlobalWire svc w2
   ↔ tpc_block (TPC w1) = tpc_block (TPC w2) ∧ Wire w1 = Wire w2)
  ∧ 0 ≤ GlobalWire svc w1 < 2 ^ 31
  ∧ 0 ≤ GlobalWire svc w2 < 2 ^ 31
  ∧ ∀ w, SignalType svc w ≠ kInduction → (8 ≤ TPC w)%nat → GlobalWire svc w = -999.
Proof.
  intros Hs1 Hs2 Hp Hc Hw1 Hw2 Hsmall Ht1 Ht2.
  rewrite (GlobalWire_collection svc w1 Hs1), (GlobalWire_collection svc w2 Hs2).
  rewrite <- Hp, <- Hc in *.
  set (nw := Nwires svc (Plane w1) 0 (Cryostat w1)) in *.
  split; [|split; [|split]].
  - unfold tpc_block.
    destruct (Nat.leb_spec (TPC w1) 1), (Nat.leb_spec (TPC w2) 1);
      destruct (Nat.leb_spec (TPC w1) 5), (Nat.leb_spec (TPC w2) 5);
      destruct (Nat.leb_spec (TPC w1) 7), (Nat.leb_spec (TPC w2) 7);
      try lia; (split; [intros Heq; split; [try reflexivity; exfalso; nia | nia]
                       | intros [Hb Hw]; try discriminate; rewrite Hw; reflexivity]).
  - unfold tpc_block.
    destruct (Nat.leb_spec (TPC w1) 1); [lia|].
    destruct (Nat.leb_spec (TPC w1) 5); [lia|].
    destruct (Nat.leb_spec (TPC w1) 7); lia.
  - unfold tpc_block.
    destruct (Nat.leb_spec (TPC w2) 1); [lia|].
    destruct (Nat.leb_spec (TPC w2) 5); [lia|].
    destruct (Nat.leb_spec (TPC w2) 7); lia.
  - intros w Hs Ht. rewrite (GlobalWire_collection svc w Hs). unfold tpc_block.
    destruct (Nat.leb_spec (TPC w) 1); [lia|].
    destruct (Nat.leb_spec (TPC w) 5); [lia|].
    destruct (Nat.leb_spec (TPC w) 7); [lia | reflexivity].
Qed.

Lemma GlobalWire_collection_blocks_witness :
  (GlobalWire Examples.svc (mkWireID 0 2 0 100) = GlobalWire Examples.svc (mkWireID 0 5 0 100)
   ↔ tpc_block 2 = tpc_block 5 ∧ 100%nat = 100%nat)
  ∧ 0 ≤ GlobalWire Examples.svc (mkWireID 0 2 0 100) < 2 ^ 31.
Proof.
  destruct (GlobalWire_collection_blocks Examples.svc (mkWireID 0 2 0 100)
              (mkWireID 0 5 0 100)) as (H1 & H2 & _).
  - discriminate.
  - discriminate.
  - reflexivity.
  - reflexivity.
  - simpl. lia.
  - simpl. lia.
  - vm_compute. reflexivity.
  - simpl. lia.
  - simpl. lia.
  - split; [exact H1 | exact H2].
Defined.

(** ** An image without a seed *)

(** X19.  When every cell of a rectangular image lies below the seed
    threshold [fMinSeed], [FindClusters] forms no cluster: it returns the
    list of clusters it was given, and the size of that list, whatever the
    loop budget. *)
Theorem FindClusters_without_seed (cfg : Config) (m : Members) (fuel : nat)
    (blurred : Image) (n k : nat) (allcluster0 : list (list Z)) :
  shape n k blurred → (0 < n)%nat → (0 < k)%nat →
  Z.of_nat n * Z.of_nat k < 2 ^ 31 →
  Forall (Forall (λ q, Qltb q (fMinSeed cfg) = true)) blurred →
  FindClusters cfg m fuel blurred allcluster0
  = Ok (allcluster0, Z.of_nat (length allcluster0)).
Proof.
  intros Hshape Hn Hk Hsize Hall.
  pose proof Hshape as [Hlen Hcols]. unfold FindClusters, FindClusters_run.
  destruct (at_in_range blurred 0) as [col0 Hcol0]; [lia|]. rewrite Hcol0. simpl.
  assert (Hk0 : length col0 = k).
  { apply at_Ok in Hcol0 as [_ Hl]. rewrite Forall_forall in Hcols.
    apply Hcols. eapply list_elem_of_lookup_2; eauto. }
  rewrite Hlen, Hk0. rewrite vector_n_nonneg by lia. simpl.
  destruct (bin_values_cells blurred n k Hshape Hn Hk Hsize) as (values & -> & Hmem). simpl.
  destruct (shape_at2 n k blurred 0 0 Hshape ltac:(lia) ltac:(lia)) as [q0 Hq0].
  assert (Hin0 : (q0, ConvertWireTickToBin blurred 0 0) ∈ sort_desc values).
  { apply sort_desc_elem, Hmem. exists 0, 0. repeat split; try lia. exact Hq0. }
  destruct (sort_desc values) as [|[q b] rest] eqn:Hsorted;
    [apply elem_of_nil in Hin0; contradiction|].
  assert (Hqb : (q, b) ∈ sort_desc values) by (rewrite Hsorted; apply elem_of_cons; auto).
  apply sort_desc_elem, Hmem in Hqb as (x & y & _ & _ & _ & Hq).
  apply at2_elem in Hq as (col & Hcol & Hqc).
  rewrite Forall_forall in Hall. specialize (Hall col Hcol).
  rewrite Forall_forall in Hall. simpl. rewrite (Hall q Hqc). reflexivity.
Qed.

Lemma FindClusters_without_seed_witness :
  FindClusters Examples.cfg_grow Examples.no_hits 0 Examples.faint2x2 [[3]]
  = Ok ([[3]], 1).
Proof.
  apply (FindClusters_without_seed Examples.cfg_grow Examples.no_hits 0
           Examples.faint2x2 2 2 [[3]]).
  - split; [reflexivity | repeat constructor].
  - lia.
  - lia.
  - reflexivity.
  - repeat constructor.
Defined.
